(** * CommunityFirnModel: the closed-form quartic solver and the
      surface-energy-balance loop of [CFM_main/RCMpkl_to_spin.py]

    The development embeds the class [FQS] (quadratic, cubic and quartic
    closed-form solvers, single-equation and batched), the dispatchers
    [cubic_roots] and [quartic_roots], the loop of [calcSEB], the melt
    pre-calculation loop of [makeSpinFiles], and the helpers
    [toYearFraction], [decyeartodatetime] and [effectiveT].

    Numbers.  Python floats are read as exact reals ([R]); a float that can
    be NaN (an entry of a flux or temperature series) is a [pyfloat].
    Python complex numbers are pairs of reals.  A float that meets a complex
    operand is promoted with a zero imaginary part, as Python does, so a
    value that is a float in one branch and a complex in another is a [C]
    throughout.  Signed zeros, infinities and rounding are outside the model.
    Where they decide what the code returns (the order of a conjugate pair
    on the branch cut of the square root, a root at 0 on the edge of the
    selection r > 0, an exponential out of the range of the floats) the
    statements are made for the pair, for every row of roots, or within
    the range.

    Effects.  Exceptions are an error monad ([result]); [print] appends to an
    output log; the arrays a loop fills by index are lists threaded through
    the loop; the module's global namespace is an explicit [Globals] value,
    because the solver bodies look the name [math] up when they run. *)

From Stdlib Require Import Reals Lra Lia Psatz List String Bool Arith ZArith.
From Stdlib Require Import DecimalString.
Import ListNotations.
Open Scope R_scope.

(* ================================================================== *)
(** * Exceptions and the error monad *)

Inductive exn : Type :=
| NameError (name : string)        (* a global name that is not bound *)
| ValueError (msg : string)
| IndexError
| TypeError
| ZeroDivisionError                (* division by a zero float *)
| InvalidValue.                    (* numpy's "invalid value encountered":
                                      the array operation yields nan *)

Inductive result (A : Type) : Type :=
| Ok (a : A)
| Raise (e : exn).
Arguments Ok {A} a.
Arguments Raise {A} e.

Definition bind {A B} (c : result A) (k : A -> result B) : result B :=
  match c with
  | Ok a => k a
  | Raise e => Raise e
  end.

Declare Scope py_scope.
Delimit Scope py_scope with py.
Notation "x <- c ;; k" := (bind c (fun x => k))
  (at level 61, c at next level, right associativity) : py_scope.
Notation "' pat <- c ;; k" := (bind c (fun x => match x with pat => k end))
  (at level 61, pat pattern, c at next level, right associativity) : py_scope.
Open Scope py_scope.

Fixpoint mapM {A B} (f : A -> result B) (l : list A) : result (list B) :=
  match l with
  | [] => Ok []
  | x :: l' => y <- f x ;; ys <- mapM f l' ;; Ok (y :: ys)
  end.

(* ================================================================== *)
(** * Complex numbers *)

Definition C : Type := (R * R)%type.

Definition RtoC (x : R) : C := (x, 0).
Definition Re (z : C) : R := fst z.
Definition Im (z : C) : R := snd z.
(** The imaginary literal [yj]. *)
Definition Cimag (y : R) : C := (0, y).

Definition Cadd (z w : C) : C := (Re z + Re w, Im z + Im w).
Definition Copp (z : C) : C := (- Re z, - Im z).
Definition Csub (z w : C) : C := (Re z - Re w, Im z - Im w).
Definition Cmul (z w : C) : C :=
  (Re z * Re w - Im z * Im w, Re z * Im w + Im z * Re w).
Definition Cnorm2 (z : C) : R := Re z * Re z + Im z * Im z.
Definition Cinv (z : C) : C := (Re z / Cnorm2 z, - Im z / Cnorm2 z).

Declare Scope C_scope.
Delimit Scope C_scope with C.
Infix "+" := Cadd : C_scope.
Infix "-" := Csub : C_scope.
Infix "*" := Cmul : C_scope.
Notation "- z" := (Copp z) : C_scope.

Definition C_eq_dec (z w : C) : {z = w} + {z <> w}.
Proof.
  destruct z as [a b], w as [c d].
  destruct (Req_dec_T a c) as [-> | Hac]; [| right; congruence].
  destruct (Req_dec_T b d) as [-> | Hbd]; [left; reflexivity | right; congruence].
Defined.

(* ================================================================== *)
(** * Python and numpy arithmetic on exact reals *)

(** [x / y] on floats.  A Python float divisor equal to zero raises
    [ZeroDivisionError]; numpy scalars and arrays give inf or nan there,
    values the exact model does not have, so the same outcome stands for
    both. *)
Definition pydiv (x y : R) : result R :=
  if Req_dec_T y 0 then Raise ZeroDivisionError else Ok (x / y).

(** [x == y] on floats. *)
Definition Reqb (x y : R) : bool := if Req_dec_T x y then true else false.

(** Complex division. *)
Definition pycdiv (z w : C) : result C :=
  if C_eq_dec w (RtoC 0) then Raise ZeroDivisionError
  else Ok (Cmul z (Cinv w)).

(** [cmath.sqrt] and [numpy.sqrt] on a complex argument: the principal
    square root, with non-negative real part; on the negative real axis
    the root is on the positive imaginary axis.  There the libraries go by
    the sign of the zero imaginary part, which a real number does not
    have: [cmath.sqrt(-k-0j)] is -i sqrt(k).  The two values a quadratic
    solver returns for a negative real discriminant are therefore known
    here as a pair, not in their order; statements about them are made
    for the pair ([same_pair]). *)
Definition csqrt (z : C) : C :=
  let m := sqrt (Cnorm2 z) in
  (sqrt ((m + Re z) / 2),
   if Rle_dec 0 (Im z) then sqrt ((m - Re z) / 2) else - sqrt ((m - Re z) / 2)).

(** [atan2 y x] for a point other than the origin. *)
Definition atan2 (y x : R) : R :=
  if Rle_dec 0 y then acos (x / sqrt (x * x + y * y))
  else - acos (x / sqrt (x * x + y * y)).

(** [x ** t] for a float [x >= 0] and a float exponent [t > 0]. *)
Definition fpow (x t : R) : R :=
  if Req_dec_T x 0 then 0 else Rpower x t.

(** [z ** t] for a complex [z] and a float exponent [t > 0]: CPython's
    [_Py_c_pow] returns 0 at the origin and otherwise
    [|z|**t * (cos (t * atan2 (im, re)) + i sin (t * atan2 (im, re)))]. *)
Definition cpow (z : C) (t : R) : C :=
  if C_eq_dec z (RtoC 0) then RtoC 0
  else
    let len := Rpower (sqrt (Cnorm2 z)) t in
    let phase := atan2 (Im z) (Re z) * t in
    (len * cos phase, len * sin phase).

Definition third : R := 1 / 3.

(* ================================================================== *)
(** * The module's global namespace

    The solver bodies call [math.sqrt], [math.acos], [math.cos] and
    [math.sin].  Python looks the name [math] up in the module's globals
    each time such a line runs and raises [NameError] when it is not bound.
    The import block of [RCMpkl_to_spin.py] (lines 24-31) binds [np],
    [datetime], [timedelta], [date], [pd], [time], [calendar], [hla],
    [cmath] and [sys]; it does not bind [math]. *)

Record MathModule : Type := {
  math_sqrt : R -> result R;
  math_acos : R -> result R;
  math_cos : R -> R;
  math_sin : R -> R
}.

Definition math_domain_error : exn := ValueError "math domain error".

(** The standard library's [math]. *)
Definition python_math : MathModule := {|
  math_sqrt x := if Rlt_dec x 0 then Raise math_domain_error else Ok (sqrt x);
  math_acos x :=
    if Rlt_dec x (-1) then Raise math_domain_error
    else if Rlt_dec 1 x then Raise math_domain_error
    else Ok (acos x);
  math_cos := cos;
  math_sin := sin
|}.

Record Globals : Type := { g_math : option MathModule }.

(** The namespace the source file builds. *)
Definition module_globals : Globals := {| g_math := None |}.

(** The namespace the file would build with [import math] added. *)
Definition globals_with_math : Globals := {| g_math := Some python_math |}.

Definition lookup_math (G : Globals) : result MathModule :=
  match g_math G with
  | Some m => Ok m
  | None => Raise (NameError "math")
  end.

(* ================================================================== *)
(** * numpy arrays

    One-dimensional arrays are lists.  [x[m]] with a boolean mask [m] keeps
    the entries where the mask holds; [x[m] = v] writes the entries of [v],
    in order, at the positions where the mask holds (the source always
    assigns as many values as the mask selects).  Arithmetic is
    elementwise; a scalar operand is broadcast.  numpy's elementwise
    functions do not raise: outside their domain they warn and yield nan or
    inf, which is reported here as [InvalidValue] or [ZeroDivisionError]. *)

Fixpoint mask_get {A} (m : list bool) (x : list A) : list A :=
  match m, x with
  | true :: m', a :: x' => a :: mask_get m' x'
  | false :: m', _ :: x' => mask_get m' x'
  | _, _ => []
  end.

Fixpoint mask_set {A} (x : list A) (m : list bool) (v : list A) : list A :=
  match x, m with
  | a :: x', true :: m' =>
      match v with
      | b :: v' => b :: mask_set x' m' v'
      | [] => a :: mask_set x' m' []
      end
  | a :: x', false :: m' => a :: mask_set x' m' v
  | _, _ => x
  end.

Fixpoint map2 {A B D} (f : A -> B -> D) (x : list A) (y : list B) : list D :=
  match x, y with
  | a :: x', b :: y' => f a b :: map2 f x' y'
  | _, _ => []
  end.

Fixpoint map2M {A B D} (f : A -> B -> result D) (x : list A) (y : list B)
  : result (list D) :=
  match x, y with
  | a :: x', b :: y' => d <- f a b ;; ds <- map2M f x' y' ;; Ok (d :: ds)
  | _, _ => Ok []
  end.

Definition zeros {A} (x : list A) : list R := map (fun _ => 0) x.
Definition czeros {A} (x : list A) : list C := map (fun _ => RtoC 0) x.

Definition arr_add : list R -> list R -> list R := map2 Rplus.
Definition arr_sub : list R -> list R -> list R := map2 Rminus.
Definition arr_mul : list R -> list R -> list R := map2 Rmult.
Definition arr_scale (k : R) : list R -> list R := map (Rmult k).
Definition arr_rscale (x : list R) (k : R) : list R := map (fun v => v * k) x.
Definition arr_neg : list R -> list R := map Ropp.
Definition arr_div : list R -> list R -> result (list R) := map2M pydiv.
Definition arr_and : list bool -> list bool -> list bool := map2 andb.
Definition arr_not : list bool -> list bool := map negb.
Definition carr_add : list C -> list C -> list C := map2 Cadd.
Definition carr_sub : list C -> list C -> list C := map2 Csub.
Definition carr_mul : list C -> list C -> list C := map2 Cmul.
Definition carr_scale (k : C) : list C -> list C := map (Cmul k).
Definition carr_rscale (x : list C) (k : C) : list C :=
  map (fun v => Cmul v k) x.
Definition carr_neg : list C -> list C := map Copp.
Definition to_complex : list R -> list C := map RtoC.

Definition Rleb (x y : R) : bool := if Rle_dec x y then true else false.
Definition Ceqb (z w : C) : bool := if C_eq_dec z w then true else false.

Definition np_sqrt (x : list R) : result (list R) :=
  mapM (fun v => if Rlt_dec v 0 then Raise InvalidValue else Ok (sqrt v)) x.
Definition np_arccos (x : list R) : result (list R) :=
  mapM (fun v => if Rlt_dec v (-1) then Raise InvalidValue
                 else if Rlt_dec 1 v then Raise InvalidValue
                 else Ok (acos v)) x.
Definition np_csqrt : list C -> list C := map csqrt.

(* ================================================================== *)
(** * class FQS: single-equation solvers *)

Module FQS.

(** [single_quadratic(a0, b0, c0)] (lines 630-645).  The quartic solver
    calls it with a0 = 1 and complex b0, c0. *)
Definition single_quadratic (a0 b0 c0 : C) : result (C * C) :=
  a <- pycdiv b0 a0 ;;
  b <- pycdiv c0 a0 ;;
  let a0 := (RtoC (-0.5) * a)%C in
  let delta := (a0 * a0 - b)%C in
  let sqrt_delta := csqrt delta in
  let r1 := (a0 - sqrt_delta)%C in
  let r2 := (a0 + sqrt_delta)%C in
  Ok (r1, r2).

(** The closure [cubic_root] of [single_cubic] and [single_cubic_one], on a
    float argument and on a complex one. *)
Definition cubic_root_float (x : R) : R :=
  if Rle_dec 0 x then fpow x third else - fpow (- x) third.

Definition cubic_root (x : C) : C :=
  if Rle_dec 0 (Re x) then cpow x third else (- cpow (- x) third)%C.

(** [single_cubic(a0, b0, c0, d0)] (lines 649-696). *)
Definition single_cubic (G : Globals) (a0 b0 c0 d0 : R) : result (C * C * C) :=
  a <- pydiv b0 a0 ;;
  b <- pydiv c0 a0 ;;
  c <- pydiv d0 a0 ;;
  let a13 := a * third in
  let a2 := a13 * a13 in
  math <- lookup_math G ;;
  sqr3 <- math_sqrt math 3 ;;
  let f := third * b - a2 in
  let g := a13 * (2 * a2 - b) + c in
  let h := 0.25 * g * g + f * f * f in
  if Reqb f g && Reqb g h && Reqb h 0 then
    let r1 := - cubic_root_float c in
    Ok (RtoC r1, RtoC r1, RtoC r1)
  else if Rle_dec h 0 then
    math <- lookup_math G ;;
    j <- math_sqrt math (- f) ;;
    x <- pydiv (-0.5 * g) (j * j * j) ;;
    k <- math_acos math x ;;
    let m := math_cos math (third * k) in
    let n := sqr3 * math_sin math (third * k) in
    let r1 := 2 * j * m - a13 in
    let r2 := - j * (m + n) - a13 in
    let r3 := - j * (m - n) - a13 in
    Ok (RtoC r1, RtoC r2, RtoC r3)
  else
    let sqrt_h := csqrt (RtoC h) in
    let S := cubic_root (RtoC (-0.5 * g) + sqrt_h)%C in
    let U := cubic_root (RtoC (-0.5 * g) - sqrt_h)%C in
    let S_plus_U := (S + U)%C in
    let S_minus_U := (S - U)%C in
    let r1 := (S_plus_U - RtoC a13)%C in
    let r2 := (RtoC (-0.5) * S_plus_U - RtoC a13
               + S_minus_U * RtoC sqr3 * Cimag 0.5)%C in
    let r3 := (RtoC (-0.5) * S_plus_U - RtoC a13
               - S_minus_U * RtoC sqr3 * Cimag 0.5)%C in
    Ok (r1, r2, r3).

(** [single_cubic_one(a0, b0, c0, d0)] (lines 700-738): the first root
    only. *)
Definition single_cubic_one (G : Globals) (a0 b0 c0 d0 : R) : result C :=
  a <- pydiv b0 a0 ;;
  b <- pydiv c0 a0 ;;
  c <- pydiv d0 a0 ;;
  let a13 := a * third in
  let a2 := a13 * a13 in
  let f := third * b - a2 in
  let g := a13 * (2 * a2 - b) + c in
  let h := 0.25 * g * g + f * f * f in
  if Reqb f g && Reqb g h && Reqb h 0 then
    Ok (RtoC (- cubic_root_float c))
  else if Rle_dec h 0 then
    math <- lookup_math G ;;
    j <- math_sqrt math (- f) ;;
    x <- pydiv (-0.5 * g) (j * j * j) ;;
    k <- math_acos math x ;;
    let m := math_cos math (third * k) in
    Ok (RtoC (2 * j * m - a13))
  else
    let sqrt_h := csqrt (RtoC h) in
    let S := cubic_root (RtoC (-0.5 * g) + sqrt_h)%C in
    let U := cubic_root (RtoC (-0.5 * g) - sqrt_h)%C in
    let S_plus_U := (S + U)%C in
    Ok (S_plus_U - RtoC a13)%C.

(** The coefficients of the subsidiary cubic and the shift of the
    unknown, as [single_quartic] and [multi_quartic] compute them from the
    normalised coefficients. *)
Definition quartic_shift (a : R) : R := 0.25 * a.
Definition quartic_p (a b : R) : R :=
  let a0 := 0.25 * a in let a02 := a0 * a0 in 3 * a02 - 0.5 * b.
Definition quartic_q (a b c : R) : R :=
  let a0 := 0.25 * a in let a02 := a0 * a0 in a * a02 - b * a0 + 0.5 * c.
Definition quartic_r (a b c d : R) : R :=
  let a0 := 0.25 * a in let a02 := a0 * a0 in
  3 * a02 * a02 - b * a02 + c * a0 - d.

(** [single_quartic(a0, b0, c0, d0, e0)] (lines 742-771). *)
Definition single_quartic (G : Globals) (a0 b0 c0 d0 e0 : R)
  : result (C * C * C * C) :=
  a <- pydiv b0 a0 ;;
  b <- pydiv c0 a0 ;;
  c <- pydiv d0 a0 ;;
  d <- pydiv e0 a0 ;;
  let a0 := quartic_shift a in
  let p := quartic_p a b in
  let q := quartic_q a b c in
  let r := quartic_r a b c d in
  z0 <- single_cubic_one G 1 p r (p * r - 0.5 * q * q) ;;
  let s := csqrt (RtoC (2 * p + 2 * Re z0) + Cimag 0)%C in
  t <- (if C_eq_dec s (RtoC 0) then Ok (z0 * z0 + RtoC r)%C
        else pycdiv (RtoC (- q)) s) ;;
  '(r0, r1) <- single_quadratic (RtoC 1) s (z0 + t)%C ;;
  '(r2, r3) <- single_quadratic (RtoC 1) (- s)%C (z0 - t)%C ;;
  Ok ((r0 - RtoC a0)%C, (r1 - RtoC a0)%C, (r2 - RtoC a0)%C, (r3 - RtoC a0)%C).

(* ------------------------------------------------------------------ *)
(** ** class FQS: batched solvers *)

(** [multi_quadratic(a0, b0, c0)] (lines 774-789); a0 is the scalar 1 at
    both call sites. *)
Definition multi_quadratic (a0 : C) (b0 c0 : list C)
  : result (list C * list C) :=
  a <- mapM (fun x => pycdiv x a0) b0 ;;
  b <- mapM (fun x => pycdiv x a0) c0 ;;
  let a0 := carr_scale (RtoC (-0.5)) a in
  let delta := carr_sub (carr_mul a0 a0) b in
  let sqrt_delta := np_csqrt (map (fun x => x + Cimag 0)%C delta) in
  let r1 := carr_sub a0 sqrt_delta in
  let r2 := carr_add a0 sqrt_delta in
  Ok (r1, r2).

(** What [multi_cubic] returns: three rows of complex roots when
    [all_roots] holds, one float array otherwise. *)
Inductive cubic_batch : Type :=
| AllRoots (r1 r2 r3 : list C)
| FirstRoot (r : list R).

(** The closure [cubic_root] of [multi_cubic] (lines 814-822). *)
Definition multi_cubic_root (x : list R) : list R :=
  let root := zeros x in
  let positive := map (fun v => Rleb 0 v) x in
  let negative := arr_not positive in
  let root := mask_set root positive
                (map (fun v => fpow v third) (mask_get positive x)) in
  mask_set root negative
    (arr_neg (map (fun v => fpow v third) (arr_neg (mask_get negative x)))).

(** [roots_all_real_equal] (lines 824-831): r1; the three roots are
    (r1, r1, r1). *)
Definition roots_all_real_equal (c : list R) : list R :=
  arr_neg (multi_cubic_root c).

(** [roots_all_real_distinct] (lines 833-846): (r1, r2, r3); r2 and r3
    are formed only when [all_roots] holds, by functions that cannot
    fail. *)
Definition roots_all_real_distinct (sqr3 : R) (a13 f g : list R)
  : result (list R * list R * list R) :=
  j <- np_sqrt (arr_neg f) ;;
  x <- arr_div (arr_scale (-0.5) g) (arr_mul (arr_mul j j) j) ;;
  k <- np_arccos x ;;
  let m := map cos (arr_scale third k) in
  let r1 := arr_sub (arr_mul (arr_scale 2 j) m) a13 in
  let n := arr_scale sqr3 (map sin (arr_scale third k)) in
  let r2 := arr_sub (arr_mul (arr_neg j) (arr_add m n)) a13 in
  let r3 := arr_sub (arr_mul (arr_neg j) (arr_sub m n)) a13 in
  Ok (r1, r2, r3).

(** [roots_one_real] (lines 848-862): (r1, r2, r3), r1 a float array. *)
Definition roots_one_real (sqr3 : R) (a13 g h : list R)
  : result (list R * list C * list C) :=
  sqrt_h <- np_sqrt h ;;
  let S := multi_cubic_root (arr_add (arr_scale (-0.5) g) sqrt_h) in
  let U := multi_cubic_root (arr_sub (arr_scale (-0.5) g) sqrt_h) in
  let S_plus_U := arr_add S U in
  let r1 := arr_sub S_plus_U a13 in
  let S_minus_U := arr_sub S U in
  let im := carr_rscale (to_complex (arr_rscale S_minus_U sqr3))
              (Cimag 0.5) in
  let re := to_complex (arr_sub (arr_scale (-0.5) S_plus_U) a13) in
  let r2 := carr_add re im in
  let r3 := carr_sub re im in
  Ok (r1, r2, r3).

(** [multi_cubic(a0, b0, c0, d0, all_roots)] (lines 792-876).  When the
    quartic solver passes the scalar 1 for a0, numpy broadcasts it; the
    caller in this model passes the broadcast array. *)
Definition multi_cubic (G : Globals) (a0 b0 c0 d0 : list R) (all_roots : bool)
  : result cubic_batch :=
  a <- arr_div b0 a0 ;;
  b <- arr_div c0 a0 ;;
  c <- arr_div d0 a0 ;;
  let a13 := arr_rscale a third in
  let a2 := arr_mul a13 a13 in
  math <- lookup_math G ;;
  sqr3 <- math_sqrt math 3 ;;
  let f := arr_sub (arr_scale third b) a2 in
  let g := arr_add (arr_mul a13 (arr_sub (arr_scale 2 a2) b)) c in
  let h := arr_add (arr_mul (arr_scale 0.25 g) g) (arr_mul (arr_mul f f) f) in
  let m1 := arr_and (arr_and (map (fun v => Reqb v 0) f)
                             (map (fun v => Reqb v 0) g))
                    (map (fun v => Reqb v 0) h) in
  let m2 := arr_and (arr_not m1) (map (fun v => Rleb v 0) h) in
  let m3 := arr_and (arr_not m1) (arr_not m2) in
  let e1 := roots_all_real_equal (mask_get m1 c) in
  '(d1, d2, d3) <- roots_all_real_distinct sqr3 (mask_get m2 a13)
                     (mask_get m2 f) (mask_get m2 g) ;;
  '(o1, o2, o3) <- roots_one_real sqr3 (mask_get m3 a13) (mask_get m3 g)
                     (mask_get m3 h) ;;
  if all_roots then
    let fill (v1 v2 v3 : list C) :=
      mask_set (mask_set (mask_set (czeros a) m1 v1) m2 v2) m3 v3 in
    Ok (AllRoots (fill (to_complex e1) (to_complex d1) (to_complex o1))
                 (fill (to_complex e1) (to_complex d2) o2)
                 (fill (to_complex e1) (to_complex d3) o3))
  else
    Ok (FirstRoot (mask_set (mask_set (mask_set (zeros a) m1 e1) m2 d1) m3 o1)).

(** [multi_quartic(a0, b0, c0, d0, e0)] (lines 879-908). *)
Definition multi_quartic (G : Globals) (a0 b0 c0 d0 e0 : list R)
  : result (list C * list C * list C * list C) :=
  a <- arr_div b0 a0 ;;
  b <- arr_div c0 a0 ;;
  c <- arr_div d0 a0 ;;
  d <- arr_div e0 a0 ;;
  let a0 := arr_scale 0.25 a in
  let a02 := arr_mul a0 a0 in
  let p := arr_sub (arr_scale 3 a02) (arr_scale 0.5 b) in
  let q := arr_add (arr_sub (arr_mul a a02) (arr_mul b a0)) (arr_scale 0.5 c) in
  let r := arr_sub (arr_add (arr_sub (arr_mul (arr_scale 3 a02) a02)
                                     (arr_mul b a02))
                            (arr_mul c a0)) d in
  z0 <- multi_cubic G (map (fun _ => 1) p) p r
          (arr_sub (arr_mul p r) (arr_mul (arr_scale 0.5 q) q)) false ;;
  match z0 with
  | AllRoots _ _ _ => Raise TypeError
  | FirstRoot z0 =>
      let s := np_csqrt (map (fun x => RtoC x + Cimag 0)%C
                           (arr_add (arr_scale 2 p) (arr_scale 2 z0))) in
      let t := czeros s in
      let mask := map (fun v => Ceqb v (RtoC 0)) s in
      let t := mask_set t mask
                 (to_complex (arr_add (arr_mul (mask_get mask z0)
                                               (mask_get mask z0))
                                      (mask_get mask r))) in
      tn <- map2M pycdiv (to_complex (arr_neg (mask_get (arr_not mask) q)))
              (mask_get (arr_not mask) s) ;;
      let t := mask_set t (arr_not mask) tn in
      '(r0, r1) <- multi_quadratic (RtoC 1) s (carr_add (to_complex z0) t) ;;
      '(r2, r3) <- multi_quadratic (RtoC 1) (carr_neg s)
                     (carr_sub (to_complex z0) t) ;;
      let a0 := to_complex a0 in
      Ok (carr_sub r0 a0, carr_sub r1 a0, carr_sub r2 a0, carr_sub r3 a0)
  end.

(* ------------------------------------------------------------------ *)
(** ** Dispatchers *)

(** The coefficient argument after [np.asarray]: a one-dimensional array,
    or a two-dimensional one with its second dimension ([shape[1]]) and
    its rows, each of that length. *)
Inductive ndarray : Type :=
| Arr1 (v : list R)
| Arr2 (ncols : nat) (rows : list (list R)).

Definition wf_ndarray (p : ndarray) : Prop :=
  match p with
  | Arr1 _ => True
  | Arr2 ncols rows => Forall (fun row => List.length row = ncols) rows
  end.

(** [p[np.newaxis, :]] when [p.ndim < 2]: (shape[1], rows). *)
Definition as_rows (p : ndarray) : nat * list (list R) :=
  match p with
  | Arr1 v => (List.length v, [v])
  | Arr2 ncols rows => (ncols, rows)
  end.

Definition format_d (n : nat) : string :=
  NilEmpty.string_of_uint (Nat.to_uint n).

Definition cubic_shape_error (n : nat) : exn :=
  ValueError ("Expected 3rd order polynomial with 4 coefficients, got "
              ++ format_d n ++ ".")%string.

Definition quartic_shape_error (n : nat) : exn :=
  ValueError ("Expected 4th order polynomial with 5 coefficients, got "
              ++ format_d n ++ ".")%string.

(** Column [i] of [p], a row of [p.T]. *)
Definition column (i : nat) (rows : list (list R)) : list R :=
  map (fun row => nth i row 0) rows.

(** The two paths of [cubic_roots]: line 928, [single_cubic] on each row
    of p in turn, and lines 931-932, [multi_cubic] on the columns of p,
    its result transposed. *)
Definition cubic_single_path (G : Globals) (rows : list (list R))
  : result (list (list C)) :=
  mapM (fun pi =>
          match pi with
          | [a0; b0; c0; d0] =>
              '(r1, r2, r3) <- single_cubic G a0 b0 c0 d0 ;;
              Ok [r1; r2; r3]
          | _ => Raise TypeError
          end) rows.

Definition cubic_batched_path (G : Globals) (rows : list (list R))
  : result (list (list C)) :=
  roots <- multi_cubic G (column 0 rows) (column 1 rows) (column 2 rows)
             (column 3 rows) true ;;
  match roots with
  | AllRoots r1 r2 r3 =>
      Ok (map2 (fun x yz => [x; fst yz; snd yz]) r1 (combine r2 r3))
  | FirstRoot _ => Raise TypeError
  end.

(** [cubic_roots(p)] (lines 911-932): one row of three roots per
    equation. *)
Definition cubic_roots (G : Globals) (p : ndarray) : result (list (list C)) :=
  let '(ncols, rows) := as_rows p in
  if negb (ncols =? 4)%nat then Raise (cubic_shape_error ncols)
  else if (List.length rows <? 100)%nat then cubic_single_path G rows
  else cubic_batched_path G rows.

(** The two paths of [quartic_roots]: line 952 and lines 955-956. *)
Definition quartic_single_path (G : Globals) (rows : list (list R))
  : result (list (list C)) :=
  mapM (fun pi =>
          match pi with
          | [a0; b0; c0; d0; e0] =>
              '(r0, r1, r2, r3) <- single_quartic G a0 b0 c0 d0 e0 ;;
              Ok [r0; r1; r2; r3]
          | _ => Raise TypeError
          end) rows.

Definition quartic_batched_path (G : Globals) (rows : list (list R))
  : result (list (list C)) :=
  '(r0, r1, r2, r3) <- multi_quartic G (column 0 rows) (column 1 rows)
                         (column 2 rows) (column 3 rows) (column 4 rows) ;;
  Ok (map2 (fun wx yz => [fst wx; snd wx; fst yz; snd yz])
           (combine r0 r1) (combine r2 r3)).

(** [quartic_roots(p)] (lines 935-956): one row of four roots per
    equation. *)
Definition quartic_roots (G : Globals) (p : ndarray)
  : result (list (list C)) :=
  let '(ncols, rows) := as_rows p in
  if negb (ncols =? 5)%nat then Raise (quartic_shape_error ncols)
  else if (List.length rows <? 100)%nat then quartic_single_path G rows
  else quartic_batched_path G rows.

End FQS.

(* ================================================================== *)
(** * The surface-energy-balance loops *)

(** A float that may be NaN. *)
Inductive pyfloat : Type :=
| Fin (x : R)
| NaN.

Definition isnan (x : pyfloat) : bool :=
  match x with NaN => true | Fin _ => false end.

Definition flift2 (op : R -> R -> R) (x y : pyfloat) : pyfloat :=
  match x, y with
  | Fin a, Fin b => Fin (op a b)
  | _, _ => NaN
  end.

Definition fadd : pyfloat -> pyfloat -> pyfloat := flift2 Rplus.
Definition fsub : pyfloat -> pyfloat -> pyfloat := flift2 Rminus.
Definition fmul : pyfloat -> pyfloat -> pyfloat := flift2 Rmult.
Definition fdiv : pyfloat -> pyfloat -> pyfloat := flift2 Rdiv.

(** [x >= y]; a comparison with NaN is false. *)
Definition fge (x : pyfloat) (y : R) : bool :=
  match x with
  | Fin a => Rleb y a
  | NaN => false
  end.

(** [x + y] on one-dimensional arrays, with numpy's broadcasting of an
    array of length one. *)
Definition np_add (x y : list pyfloat) : result (list pyfloat) :=
  if (List.length x =? List.length y)%nat then Ok (map2 fadd x y)
  else match x, y with
       | [a], _ => Ok (map (fadd a) y)
       | _, [b] => Ok (map (fun a => fadd a b) x)
       | _, _ => Raise (ValueError "operands could not be broadcast together")
       end.

(** [x[k]] and [x[k] = v] for an index [k >= 0]. *)
Definition array_get {A} (x : list A) (k : nat) : result A :=
  match nth_error x k with
  | Some v => Ok v
  | None => Raise IndexError
  end.

Fixpoint list_update {A} (x : list A) (k : nat) (v : A) : list A :=
  match x, k with
  | [], _ => []
  | _ :: x', O => v :: x'
  | a :: x', S k' => a :: list_update x' k' v
  end.

Definition array_set {A} (x : list A) (k : nat) (v : A) : result (list A) :=
  if (k <? List.length x)%nat then Ok (list_update x k v) else Raise IndexError.

(** What [print] writes. *)
Inductive output : Type :=
| PrintInt (k : nat)
| PrintArray (a : list pyfloat).

Definition SBC : R := 5.67e-8.
Definition CP_I : R := 2097.0.
Definition LF_I : R := 333500.0.
Definition T_MELT : R := 273.15.

(** [np.isreal(r) & (r > 0)]: numpy orders complex numbers by real part,
    then by imaginary part. *)
Definition np_isreal (z : C) : bool := Reqb (Im z) 0.
Definition np_gt0 (z : C) : bool :=
  if Rlt_dec 0 (Re z) then true
  else if Req_dec_T (Re z) 0 then (if Rlt_dec 0 (Im z) then true else false)
  else false.

(** Lines 102-121 of [calcSEB] and 352-373 of [makeSpinFiles]: the
    coefficient vector built from a, d = 1 and e, NaN entries replaced by
    zero; the roots; [Tnew], the real parts of the roots that are real and
    positive, overwritten by NaN when e is NaN.

    When e is 0 or NaN the quartic solved is a T^4 + T, with the root 0 on
    the edge of the test [r > 0].  In exact arithmetic that root is left
    out; in floats it comes out of the solver as a rounding residue of
    either sign (8.5e-13 for dt = 3600 and m = 20), and is selected when
    positive.  What the pass does after the selection is [calcSEB_store],
    stated for every row of roots. *)
Definition pmat_of (a : R) (e : pyfloat) : list R :=
  map (fun x => match x with Fin v => v | NaN => 0 end)
      [Fin a; Fin 0; Fin 0; Fin 1; e].

Definition select_Tnew (r : list (list C)) (e : pyfloat) : list pyfloat :=
  let Tnew := map Re (filter (fun z => np_isreal z && np_gt0 z) (List.concat r)) in
  if isnan e then map (fun _ => NaN) Tnew else map Fin Tnew.

Definition solve_Tnew (G : Globals) (a : R) (e : pyfloat)
  : result (list pyfloat) :=
  r <- FQS.quartic_roots G (FQS.Arr1 (pmat_of a e)) ;;
  Ok (select_Tnew r e).

(** The truth value of [Tnew >= 273.15]: that of the single entry; an
    array of two or more entries raises; an empty array is false (numpy 1.x,
    with a DeprecationWarning). *)
Definition truth_ge (Tnew : list pyfloat) (y : R) : result bool :=
  match Tnew with
  | [] => Ok false
  | [v] => Ok (fge v y)
  | _ => Raise (ValueError "The truth value of an array with more than one element is ambiguous. Use a.any() or a.all()")
  end.

(** [x[k] = Tnew] for an array [Tnew]: a single entry is stored; any other
    size raises. *)
Definition array_set_array (x : list pyfloat) (k : nat) (Tnew : list pyfloat)
  : result (list pyfloat) :=
  match Tnew with
  | [v] => array_set x k v
  | _ => Raise (ValueError "setting an array element with a sequence.")
  end.

(** Line 125: [(F - SBC*273.15**4) / LF_I * dt]. *)
Definition melt_mass (F : pyfloat) (dt : R) : pyfloat :=
  fmul (fdiv (fsub F (Fin (SBC * T_MELT ^ 4))) (Fin LF_I)) (Fin dt).

Record seb_state : Type := {
  TcalcH : list pyfloat;
  meltmassH : list pyfloat;
  stdout : list output
}.

Section CalcSEB.

Variable G : Globals.
Variable flux_df1 : list pyfloat.
Variable dts : list pyfloat.
Variable dt : R.
Variable m : R.

(** Lines 103-106. *)
Definition calcSEB_T_0 (TcalcH : list pyfloat) (kk : nat) : result pyfloat :=
  if (kk =? 0)%nat then array_get dts kk else array_get TcalcH (kk - 1).

(** Lines 108-112: a and e. *)
Definition seb_a : result R := pydiv (SBC * dt) (CP_I * m).

Definition seb_e (T_0 : pyfloat) (kk : nat) : result pyfloat :=
  F <- array_get flux_df1 kk ;;
  Ok (fmul (Fin (-1))
        (fadd (fdiv (fmul F (Fin dt)) (Fin (CP_I * m))) T_0)).

Definition melt_of (kk : nat) : result pyfloat :=
  F <- array_get flux_df1 kk ;;
  Ok (melt_mass F dt).

(** One pass through the body of the loop of [calcSEB] (lines 102-133). *)
Definition calcSEB_step (st : seb_state) (kk : nat) : result seb_state :=
  T_0 <- calcSEB_T_0 (TcalcH st) kk ;;
  a <- seb_a ;;
  e <- seb_e T_0 kk ;;
  Tnew <- solve_Tnew G a e ;;
  hot <- truth_ge Tnew T_MELT ;;
  if hot then
    T' <- array_set (TcalcH st) kk (Fin T_MELT) ;;
    melt <- melt_of kk ;;
    M' <- array_set (meltmassH st) kk melt ;;
    Ok {| TcalcH := T'; meltmassH := M'; stdout := stdout st |}
  else
    (* try: TcalcH[kk] = Tnew / except: print(kk); print(Tnew) *)
    let st1 :=
      match array_set_array (TcalcH st) kk Tnew with
      | Ok T' =>
          {| TcalcH := T'; meltmassH := meltmassH st; stdout := stdout st |}
      | Raise _ =>
          {| TcalcH := TcalcH st; meltmassH := meltmassH st;
             stdout := stdout st ++ [PrintInt kk; PrintArray Tnew] |}
      end in
    M' <- array_set (meltmassH st1) kk (Fin 0) ;;
    Ok {| TcalcH := TcalcH st1; meltmassH := M'; stdout := stdout st1 |}.

(** Lines 123-133 of [calcSEB]: the end of the pass, from [Tnew] on. *)
Definition calcSEB_store (st : seb_state) (kk : nat) (Tnew : list pyfloat)
  : result seb_state :=
  hot <- truth_ge Tnew T_MELT ;;
  if hot then
    T' <- array_set (TcalcH st) kk (Fin T_MELT) ;;
    melt <- melt_of kk ;;
    M' <- array_set (meltmassH st) kk melt ;;
    Ok {| TcalcH := T'; meltmassH := M'; stdout := stdout st |}
  else
    let st1 :=
      match array_set_array (TcalcH st) kk Tnew with
      | Ok T' =>
          {| TcalcH := T'; meltmassH := meltmassH st; stdout := stdout st |}
      | Raise _ =>
          {| TcalcH := TcalcH st; meltmassH := meltmassH st;
             stdout := stdout st ++ [PrintInt kk; PrintArray Tnew] |}
      end in
    M' <- array_set (meltmassH st1) kk (Fin 0) ;;
    Ok {| TcalcH := TcalcH st1; meltmassH := M'; stdout := stdout st1 |}.

(** One pass through the body of the loop of [makeSpinFiles]
    (lines 352-381), which reads the previous temperature from the input
    series and has no [try]. *)
Definition makeSpinFiles_T_0 (kk : nat) : result pyfloat :=
  if (kk =? 0)%nat then array_get dts kk else array_get dts (kk - 1).

Definition makeSpinFiles_step (st : seb_state) (kk : nat)
  : result seb_state :=
  T_0 <- makeSpinFiles_T_0 kk ;;
  a <- seb_a ;;
  e <- seb_e T_0 kk ;;
  Tnew <- solve_Tnew G a e ;;
  hot <- truth_ge Tnew T_MELT ;;
  if hot then
    T' <- array_set (TcalcH st) kk (Fin T_MELT) ;;
    melt <- melt_of kk ;;
    M' <- array_set (meltmassH st) kk melt ;;
    Ok {| TcalcH := T'; meltmassH := M'; stdout := stdout st |}
  else
    T' <- array_set_array (TcalcH st) kk Tnew ;;
    M' <- array_set (meltmassH st) kk (Fin 0) ;;
    Ok {| TcalcH := T'; meltmassH := M'; stdout := stdout st |}.

(** [for kk, mdate in enumerate(tindex)]. *)
Fixpoint run_loop (step : seb_state -> nat -> result seb_state)
  (kks : list nat) (st : seb_state) : result seb_state :=
  match kks with
  | [] => Ok st
  | kk :: rest => st' <- step st kk ;; run_loop step rest st'
  end.

Definition init_state : seb_state :=
  {| TcalcH := map (fun _ => Fin 0) flux_df1;
     meltmassH := map (fun _ => Fin 0) flux_df1;
     stdout := [] |}.

End CalcSEB.

(** Line 92: [flux_df1 = SWGNT + LWGAB + HFLUX + EFLUX + GHTSKIN], the
    last a scalar. *)
Definition calcSEB_flux (SWGNT LWGAB HFLUX EFLUX : list pyfloat)
  (GHTSKIN : pyfloat) : result (list pyfloat) :=
  f1 <- np_add SWGNT LWGAB ;;
  f2 <- np_add f1 HFLUX ;;
  f3 <- np_add f2 EFLUX ;;
  Ok (map (fun x => fadd x GHTSKIN) f3).

(** [calcSEB(SWGNT, LWGAB, HFLUX, EFLUX, TS, tindex, dt, GHTSKIN, dz, rhos)]
    (lines 71-135); [tindex] is an index of [n] time stamps.  The result
    is (TcalcH, meltmassH) and what was printed. *)
Definition calcSEB (G : Globals) (SWGNT LWGAB HFLUX EFLUX TS : list pyfloat)
  (n : nat) (dt : R) (GHTSKIN : pyfloat) (dz rhos : R) : result seb_state :=
  let m := rhos * dz in
  flux_df1 <- calcSEB_flux SWGNT LWGAB HFLUX EFLUX GHTSKIN ;;
  run_loop (calcSEB_step G flux_df1 TS dt m) (seq 0 n) (init_state flux_df1).

(** The melt pre-calculation of [makeSpinFiles] (lines 333-384), from the
    flux series [flux_df1], the input skin temperatures [TSKIN] and the
    mean step [dt] of the index, which has one time stamp per entry of the
    series. *)
Definition makeSpinFiles_calc_melt (G : Globals) (flux_df1 TSKIN : list pyfloat)
  (dt : R) : result seb_state :=
  let m := 400 * 0.08 in
  run_loop (makeSpinFiles_step G flux_df1 TSKIN dt m)
    (seq 0 (List.length flux_df1)) (init_state flux_df1).

(* ================================================================== *)
(** * Dates: [toYearFraction] and [decyeartodatetime]

    The two functions work on [datetime.datetime] values through the
    standard library.  [Datetime] follows the reference implementation of
    the [datetime] module (its proleptic Gregorian ordinals, the checks of
    the constructor, [timedelta] as a count of microseconds rounded half to
    even, addition by way of the ordinal), [Calendar] the function
    [calendar.timegm].  Dates are naive (no time zone). *)

(** The exceptions of the date functions: the ones above and
    [OverflowError]. *)
Inductive date_exn : Type :=
| Exn (e : exn)
| OverflowError.

Inductive date_result (A : Type) : Type :=
| Returns (a : A)
| Throws (e : date_exn).
Arguments Returns {A} a.
Arguments Throws {A} e.

Definition date_bind {A B} (c : date_result A) (k : A -> date_result B)
  : date_result B :=
  match c with
  | Returns a => k a
  | Throws e => Throws e
  end.

Declare Scope date_scope.
Delimit Scope date_scope with date.
Notation "x <- c ;; k" := (date_bind c (fun x => k))
  (at level 61, c at next level, right associativity) : date_scope.

(** [int(x)] on a float: truncation towards zero. *)
Definition py_int (x : R) : Z :=
  if Rle_dec 0 x then Int_part x else (- Int_part (- x))%Z.

(** [round(x)] on a float: to the nearest integer, a tie to the even
    one. *)
Definition py_round (x : R) : Z :=
  let f := Int_part x in
  let d := x - IZR f in
  if Rlt_dec d (1 / 2) then f
  else if Rlt_dec (1 / 2) d then (f + 1)%Z
  else if Z.even f then f else (f + 1)%Z.

Definition format_i (n : Z) : string := NilEmpty.string_of_int (Z.to_int n).

Module Datetime.

Local Open Scope Z_scope.

Definition MINYEAR : Z := 1.
Definition MAXYEAR : Z := 9999.

(** A naive [datetime.datetime]. *)
Record datetime : Type := {
  year : Z;
  month : Z;
  day : Z;
  hour : Z;
  minute : Z;
  second : Z;
  microsecond : Z
}.

Definition DAYS_IN_MONTH : list Z :=
  [-1; 31; 28; 31; 30; 31; 30; 31; 31; 30; 31; 30; 31].

Definition DAYS_BEFORE_MONTH : list Z :=
  [-1; 0; 31; 59; 90; 120; 151; 181; 212; 243; 273; 304; 334].

Definition is_leap (y : Z) : bool :=
  (y mod 4 =? 0) && (negb (y mod 100 =? 0) || (y mod 400 =? 0)).

Definition days_before_year (y : Z) : Z :=
  let y := y - 1 in y * 365 + y / 4 - y / 100 + y / 400.

Definition days_in_month (y m : Z) : Z :=
  if (m =? 2) && is_leap y then 29 else nth (Z.to_nat m) DAYS_IN_MONTH 0.

Definition days_before_month (y m : Z) : Z :=
  nth (Z.to_nat m) DAYS_BEFORE_MONTH 0
  + (if (2 <? m) && is_leap y then 1 else 0).

Definition ymd2ord (y m d : Z) : Z :=
  days_before_year y + days_before_month y m + d.

Definition DI400Y : Z := 146097.
Definition DI100Y : Z := 36524.
Definition DI4Y : Z := 1461.
Definition MAXORDINAL : Z := 3652059.

Definition ord2ymd (n : Z) : Z * Z * Z :=
  let n := n - 1 in
  let n400 := n / DI400Y in
  let n := n mod DI400Y in
  let y := n400 * 400 + 1 in
  let n100 := n / DI100Y in
  let n := n mod DI100Y in
  let n4 := n / DI4Y in
  let n := n mod DI4Y in
  let n1 := n / 365 in
  let n := n mod 365 in
  let y := y + (n100 * 100 + n4 * 4 + n1) in
  if (n1 =? 4) || (n100 =? 4) then (y - 1, 12, 31)
  else
    let leapyear := (n1 =? 3) && (negb (n4 =? 24) || (n100 =? 3)) in
    let m := Z.shiftr (n + 50) 5 in
    let preceding := nth (Z.to_nat m) DAYS_BEFORE_MONTH 0
                     + (if (2 <? m) && leapyear then 1 else 0) in
    if n <? preceding then
      let m := m - 1 in
      let preceding :=
        preceding - (nth (Z.to_nat m) DAYS_IN_MONTH 0
                     + (if (m =? 2) && leapyear then 1 else 0)) in
      (y, m, n - preceding + 1)
    else (y, m, n - preceding + 1).

(** The constructor: each argument has to fit a C int, then the fields are
    checked in this order. *)
Definition c_int (n : Z) : bool := (- 2 ^ 31 <=? n) && (n <? 2 ^ 31).

Definition new (y m d h mi s us : Z) : date_result datetime :=
  if negb (forallb c_int [y; m; d; h; mi; s; us]) then Throws OverflowError
  else if negb ((MINYEAR <=? y) && (y <=? MAXYEAR)) then
    Throws (Exn (ValueError ("year " ++ format_i y ++ " is out of range")))
  else if negb ((1 <=? m) && (m <=? 12)) then
    Throws (Exn (ValueError "month must be in 1..12"))
  else if negb ((1 <=? d) && (d <=? days_in_month y m)) then
    Throws (Exn (ValueError "day is out of range for month"))
  else if negb ((0 <=? h) && (h <=? 23)) then
    Throws (Exn (ValueError "hour must be in 0..23"))
  else if negb ((0 <=? mi) && (mi <=? 59)) then
    Throws (Exn (ValueError "minute must be in 0..59"))
  else if negb ((0 <=? s) && (s <=? 59)) then
    Throws (Exn (ValueError "second must be in 0..59"))
  else if negb ((0 <=? us) && (us <=? 999999)) then
    Throws (Exn (ValueError "microsecond must be in 0..999999"))
  else Returns {| year := y; month := m; day := d; hour := h; minute := mi;
                  second := s; microsecond := us |}.

(** The values the constructor accepts. *)
Definition valid (d : datetime) : bool :=
  (MINYEAR <=? year d) && (year d <=? MAXYEAR)
  && (1 <=? month d) && (month d <=? 12)
  && (1 <=? day d) && (day d <=? days_in_month (year d) (month d))
  && (0 <=? hour d) && (hour d <=? 23)
  && (0 <=? minute d) && (minute d <=? 59)
  && (0 <=? second d) && (second d <=? 59)
  && (0 <=? microsecond d) && (microsecond d <=? 999999).

(** [d.replace(year=y)]. *)
Definition replace_year (d : datetime) (y : Z) : date_result datetime :=
  new y (month d) (day d) (hour d) (minute d) (second d) (microsecond d).

Definition toordinal (d : datetime) : Z := ymd2ord (year d) (month d) (day d).

(** A [timedelta] is its number of microseconds; the constructor refuses
    more than 999999999 days either way. *)
Definition timedelta : Type := Z.

Definition us_per_day : Z := 24 * 3600 * 1000000.

Definition timedelta_new (us : Z) : date_result timedelta :=
  if Z.abs (us / us_per_day) <=? 999999999 then Returns us
  else Throws OverflowError.

(** [timedelta(seconds=x)] for a float [x]: the whole seconds, and the
    fraction rounded to a whole number of microseconds. *)
Definition timedelta_of_seconds (x : R) : date_result timedelta :=
  let whole := py_int x in
  let frac := (x - IZR whole)%R in
  timedelta_new (whole * 1000000 + py_round (frac * 1000000)%R).

(** [td.total_seconds()]. *)
Definition total_seconds (td : timedelta) : R := (IZR td / 1000000)%R.

(** The microseconds from the start of day 0 to [d]. *)
Definition to_us (d : datetime) : Z :=
  (((toordinal d * 24 + hour d) * 60 + minute d) * 60 + second d) * 1000000
  + microsecond d.

(** [d2 - d1]. *)
Definition sub (d2 d1 : datetime) : date_result timedelta :=
  timedelta_new (to_us d2 - to_us d1).

(** [d + td]. *)
Definition add (d : datetime) (td : timedelta) : date_result datetime :=
  let total := to_us d + td in
  let days := total / us_per_day in
  let rest := total mod us_per_day in
  let secs := rest / 1000000 in
  let us := rest mod 1000000 in
  let h := secs / 3600 in
  let rem := secs mod 3600 in
  let mi := rem / 60 in
  let s := rem mod 60 in
  if (0 <? days) && (days <=? MAXORDINAL) then
    let '(y, m, dd) := ord2ymd days in
    Returns {| year := y; month := m; day := dd; hour := h; minute := mi;
               second := s; microsecond := us |}
  else Throws OverflowError.

End Datetime.

Module Calendar.

Local Open Scope Z_scope.

Definition EPOCH : Z := 1970.
Definition EPOCH_ORD : Z := Datetime.ymd2ord EPOCH 1 1.

(** [calendar.timegm(d.timetuple())]: the time tuple has no
    microseconds. *)
Definition timegm (d : Datetime.datetime) : Z :=
  let days := Datetime.ymd2ord (Datetime.year d) (Datetime.month d) 1
              - EPOCH_ORD + Datetime.day d - 1 in
  let hours := days * 24 + Datetime.hour d in
  let minutes := hours * 60 + Datetime.minute d in
  let seconds := minutes * 60 + Datetime.second d in
  seconds.

End Calendar.

Definition of_result {A} (c : result A) : date_result A :=
  match c with
  | Ok a => Returns a
  | Raise e => Throws (Exn e)
  end.

Section DateFunctions.

Local Open Scope date_scope.

(** [toYearFraction(date)] (lines 33-49).  [date] is a [datetime]; the
    rows of a [DatetimeIndex], which the callers pass, are. *)
Definition toYearFraction (date : Datetime.datetime) : date_result R :=
  let s := Calendar.timegm in
  let year := Datetime.year date in
  startOfThisYear <- Datetime.new year 1 1 0 0 0 0 ;;
  startOfNextYear <- Datetime.new (year + 1) 1 1 0 0 0 0 ;;
  let yearElapsed := (s date - s startOfThisYear)%Z in
  let yearDuration := (s startOfNextYear - s startOfThisYear)%Z in
  fraction <- of_result (pydiv (IZR yearElapsed) (IZR yearDuration)) ;;
  Returns (IZR (Datetime.year date) + fraction).

(** [decyeartodatetime(din)] (lines 51-58).  The product
    [total_seconds() * rem] is the exact one; a float [din] carries an
    error of about 1e-13 of a year, some microseconds of the result, which
    the statements about this function leave room for. *)
Definition decyeartodatetime (din : R) : date_result Datetime.datetime :=
  let start := din in
  let year := py_int start in
  let rem := start - IZR year in
  base <- Datetime.new year 1 1 0 0 0 0 ;;
  next <- Datetime.replace_year base (Datetime.year base + 1) ;;
  span <- Datetime.sub next base ;;
  delta <- Datetime.timedelta_of_seconds (Datetime.total_seconds span * rem) ;;
  result <- Datetime.add base delta ;;
  Returns result.

End DateFunctions.

(* ================================================================== *)
(** * The Arrhenius mean temperature *)

(** [np.mean] of a one-dimensional array that is not empty. *)
Definition np_mean (x : list R) : R :=
  fold_right Rplus 0 x / INR (List.length x).

(** [np.exp] on a float, where the result is a normal float.  Below
    about -708.4 it is a subnormal or 0.0 and above about 709.78 it is inf,
    neither of which the real exponential follows: [None]. *)
Definition np_exp (x : R) : option R :=
  if Rleb (-708) x && Rleb x 709 then Some (exp x) else None.

Fixpoint np_exp_array (x : list R) : option (list R) :=
  match x with
  | [] => Some []
  | v :: x' =>
      match np_exp v, np_exp_array x' with
      | Some e, Some es => Some (e :: es)
      | _, _ => None
      end
  end.

(** [effectiveT(T)] (lines 60-69) on an array [T].  [None]: an operation
    leaves the floats this development models: the division by [R*T] at an
    entry 0, an exponential outside the normal range (for 0 < T < 10.1 the
    rate underflows and the function returns 0.0, for -10.1 < T < 0 it
    overflows), the mean of an empty array (nan), the division by a
    logarithm that is 0. *)
Definition effectiveT (T : list R) : option R :=
  let Q := -1 * 59500.0 in
  let R := 8.314 in
  if existsb (fun t => Reqb (R * t) 0) T then None
  else
    match np_exp_array (map (fun t => Q / (R * t)) T) with
    | None => None
    | Some [] => None
    | Some k =>
        let km := np_mean k in
        if Reqb (R * ln km) 0 then None else Some (Q / (R * ln km))
    end.

(* ================================================================== *)
(** * Quantities the proofs talk about *)

(** The intermediate quantities of [single_cubic_one] on the normalised
    coefficients a, b, c of x^3 + a x^2 + b x + c. *)
Definition cubic_f (a b : R) : R :=
  third * b - a * third * (a * third).
Definition cubic_g (a b c : R) : R :=
  a * third * (2 * (a * third * (a * third)) - b) + c.
Definition cubic_h (a b c : R) : R :=
  0.25 * cubic_g a b c * cubic_g a b c
  + cubic_f a b * cubic_f a b * cubic_f a b.

Definition cubic_poly (a b c x : R) : R := x ^ 3 + a * x ^ 2 + b * x + c.

(** The value of the last branch (h > 0). *)
Definition cardano_root (a b c : R) : R :=
  FQS.cubic_root_float (-0.5 * cubic_g a b c + sqrt (cubic_h a b c))
  + FQS.cubic_root_float (-0.5 * cubic_g a b c - sqrt (cubic_h a b c))
  - a * third.

(** The value of the middle branch (h <= 0, not all of f, g, h zero). *)
Definition trig_root (a b c : R) : R :=
  let j := sqrt (- cubic_f a b) in
  2 * j * cos (third * acos (-0.5 * cubic_g a b c / (j * j * j))) - a * third.

(** The polynomial a0 x^4 + b0 x^3 + c0 x^2 + d0 x + e0. *)
Definition quartic_poly (a0 b0 c0 d0 e0 x : R) : R :=
  a0 * x ^ 4 + b0 * x ^ 3 + c0 * x ^ 2 + d0 * x + e0.

(** [single_quadratic] on real coefficients of x^2 + s x + b. *)
Definition quadratic_pair (s b : R) : C * C :=
  let a0 := -0.5 * s in
  let delta := a0 * a0 - b in
  ((RtoC a0 - csqrt (RtoC delta))%C, (RtoC a0 + csqrt (RtoC delta))%C).








(** The same polynomial at a complex point. *)
Definition Cquartic_poly (a0 b0 c0 d0 e0 : R) (x : C) : C :=
  (RtoC a0 * (x * x * x * x) + RtoC b0 * (x * x * x) + RtoC c0 * (x * x)
   + RtoC d0 * x + RtoC e0)%C.

(** The root z0 of the subsidiary cubic, s, t and the four roots, on the
    normalised coefficients of x^4 + a x^3 + b x^2 + c x + d. *)
Definition ferrari_z0 (a b c d : R) : R :=
  let p := FQS.quartic_p a b in
  let q := FQS.quartic_q a b c in
  let r := FQS.quartic_r a b c d in
  cardano_root p r (p * r - 0.5 * q * q).

Definition ferrari_h (a b c d : R) : R :=
  let p := FQS.quartic_p a b in
  let q := FQS.quartic_q a b c in
  let r := FQS.quartic_r a b c d in
  cubic_h p r (p * r - 0.5 * q * q).

Definition ferrari_s (a b c d : R) : R :=
  sqrt (2 * FQS.quartic_p a b + 2 * ferrari_z0 a b c d).

Definition ferrari_t (a b c d : R) : R :=
  - FQS.quartic_q a b c / ferrari_s a b c d.

Definition ferrari_roots (a b c d : R) : C * C * C * C :=
  let z0 := ferrari_z0 a b c d in
  let s := ferrari_s a b c d in
  let t := ferrari_t a b c d in
  let a0 := RtoC (FQS.quartic_shift a) in
  let '(r0, r1) := quadratic_pair s (z0 + t) in
  let '(r2, r3) := quadratic_pair (- s) (z0 - t) in
  ((r0 - a0)%C, (r1 - a0)%C, (r2 - a0)%C, (r3 - a0)%C).

(** The discriminants of the two quadratics for the quartic of the energy
    balance, whose normalised coefficients are 0, 0, 1/a and e/a. *)
Definition seb_delta1 (a e : R) : R :=
  -0.5 * ferrari_s (0 / a) (0 / a) (1 / a) (e / a)
  * (-0.5 * ferrari_s (0 / a) (0 / a) (1 / a) (e / a))
  - (ferrari_z0 (0 / a) (0 / a) (1 / a) (e / a)
     + ferrari_t (0 / a) (0 / a) (1 / a) (e / a)).
Definition seb_delta2 (a e : R) : R :=
  -0.5 * - ferrari_s (0 / a) (0 / a) (1 / a) (e / a)
  * (-0.5 * - ferrari_s (0 / a) (0 / a) (1 / a) (e / a))
  - (ferrari_z0 (0 / a) (0 / a) (1 / a) (e / a)
     - ferrari_t (0 / a) (0 / a) (1 / a) (e / a)).

(** The value the loop selects when e < 0. *)
Definition seb_root (a e : R) : R :=
  -0.5 * ferrari_s (0 / a) (0 / a) (1 / a) (e / a) + sqrt (seb_delta1 a e) - 0.

(** The two output arrays have one entry per entry of the flux series. *)
Definition wf_state (flux_df1 : list pyfloat) (st : seb_state) : Prop :=
  List.length (TcalcH st) = List.length flux_df1
  /\ List.length (meltmassH st) = List.length flux_df1.

(** Entry [k] of the output series. *)
Definition emitted (st : seb_state) (k : nat) (T M : pyfloat) : Prop :=
  nth_error (TcalcH st) k = Some T /\ nth_error (meltmassH st) k = Some M.

(** What the pass for index [k] leaves in the state, from [Tnew], the
    flux [F] of the step and the temperature entry before the pass. *)
Definition step_outcome (Tnew : list pyfloat) (F : pyfloat) (dt : R)
  (k : nat) (T_before : option pyfloat) (st : seb_state) : Prop :=
  match Tnew with
  | [] => nth_error (TcalcH st) k = T_before
          /\ nth_error (meltmassH st) k = Some (Fin 0)
          /\ In (PrintInt k) (stdout st)
  | [v] => if fge v T_MELT then emitted st k (Fin T_MELT) (melt_mass F dt)
           else emitted st k v (Fin 0)
  | _ => False
  end.

(** The coefficients of a one-step run: a for steps of one hour on the
    default layer (dz = 0.05, rhos = 400), and e for no net flux and a
    previous temperature of 250 K. *)
Definition hourly_a : R := SBC * 3600 / (CP_I * (400 * 0.05)).
Definition cold_e : R :=
  -1 * ((0 + 0 + 0 + 0 + 0) * 3600 / (CP_I * (400 * 0.05)) + 250).


(** The coefficients of [makeSpinFiles] for steps of one hour, no net
    flux and an input skin temperature of 250 K. *)
Definition spin_a : R := SBC * 3600 / (CP_I * (400 * 0.08)).
Definition spin_e : R := -1 * (0 * 3600 / (CP_I * (400 * 0.08)) + 250).

(** [c] raises only exceptions that satisfy [P]. *)
Definition raises_only {A} (P : exn -> Prop) (c : result A) : Prop :=
  forall ex, c = Raise ex -> P ex.

(** The exceptions of the solver bodies. *)
Definition solver_exn (ex : exn) : Prop :=
  ex = ZeroDivisionError \/ ex = NameError "math" \/ ex = TypeError
  \/ ex = InvalidValue \/ ex = math_domain_error.

(** The namespaces considered: the one the file builds, and the one it
    would build with [import math]. *)
Definition known_globals (G : Globals) : Prop :=
  G = module_globals \/ G = globals_with_math.


(** The seconds from the start of the year of [d] to [d], and the seconds
    of a year. *)
Definition seconds_into_year (d : Datetime.datetime) : Z :=
  ((((Datetime.days_before_month (Datetime.year d) (Datetime.month d)
      + Datetime.day d - 1) * 24 + Datetime.hour d) * 60
    + Datetime.minute d) * 60 + Datetime.second d)%Z.

Definition seconds_in_year (y : Z) : Z :=
  ((365 + (if Datetime.is_leap y then 1 else 0)) * 86400)%Z.

(** The second at which the year [y] starts, counted from the start of
    day 0. *)
Definition year_start (y : Z) : R :=
  IZR ((Datetime.days_before_year y + 1) * 86400).

(** January 1 of [y], at midnight. *)
Definition new_year (y : Z) : Datetime.datetime :=
  {| Datetime.year := y; Datetime.month := 1; Datetime.day := 1;
     Datetime.hour := 0; Datetime.minute := 0; Datetime.second := 0;
     Datetime.microsecond := 0 |}.

(** [d.replace(microsecond=0)] on a valid [d]. *)
Definition whole_second (d : Datetime.datetime) : Datetime.datetime :=
  {| Datetime.year := Datetime.year d; Datetime.month := Datetime.month d;
     Datetime.day := Datetime.day d; Datetime.hour := Datetime.hour d;
     Datetime.minute := Datetime.minute d;
     Datetime.second := Datetime.second d; Datetime.microsecond := 0 |}.

(** Three dates: one with microseconds, the same a second later, and
    one of the last year of the calendar. *)
Definition a_date : Datetime.datetime :=
  {| Datetime.year := 2021; Datetime.month := 2; Datetime.day := 24;
     Datetime.hour := 12; Datetime.minute := 30; Datetime.second := 0;
     Datetime.microsecond := 5 |}.

Definition a_later_date : Datetime.datetime :=
  {| Datetime.year := 2021; Datetime.month := 2; Datetime.day := 24;
     Datetime.hour := 12; Datetime.minute := 30; Datetime.second := 1;
     Datetime.microsecond := 0 |}.

Definition a_last_date : Datetime.datetime :=
  {| Datetime.year := 9999; Datetime.month := 6; Datetime.day := 1;
     Datetime.hour := 0; Datetime.minute := 0; Datetime.second := 0;
     Datetime.microsecond := 0 |}.

(** The rate [exp(Q/(R*T))] of one temperature. *)
Definition arrhenius_k (t : R) : R := exp (-1 * 59500.0 / (8.314 * t)).

(** What a pass with e < 0 emits: the selected root, clamped at the
    melting point, and the melt mass. *)
Definition clamped_T (dt m f t0 : R) : R :=
  let r := seb_root (SBC * dt / (CP_I * m))
             (-1 * (f * dt / (CP_I * m) + t0)) in
  if Rleb T_MELT r then T_MELT else r.

Definition clamped_melt (dt m f t0 : R) : pyfloat :=
  let r := seb_root (SBC * dt / (CP_I * m))
             (-1 * (f * dt / (CP_I * m) + t0)) in
  if Rleb T_MELT r then melt_mass (Fin f) dt else Fin 0.

(** Two pairs that hold the same two values, in either order. *)
Definition same_pair (x y : C * C) : Prop :=
  x = y \/ x = (snd y, fst y).


(* ================================================================== *)
(** * Real and complex arithmetic used by the solvers *)

(** Decimal literals are rationals; [decimals] exposes them to [ring],
    [field] and [lra]. *)
Ltac decimals :=
  unfold Q2R in *;
  cbn [QArith_base.Qnum QArith_base.Qden] in *.

(** [bind c k = Ok x]: c returned. *)
Ltac inv_bind H :=
  match type of H with
  | bind ?c _ = Ok _ =>
      let E := fresh "E" in
      destruct c eqn:E; cbn [bind] in H; [| discriminate H]
  end.

Section Arithmetic.

Lemma Reqb_true x y : x = y -> Reqb x y = true.
Proof. intros ->. unfold Reqb. destruct (Req_dec_T y y); congruence. Qed.

Lemma Reqb_false x y : x <> y -> Reqb x y = false.
Proof. intros H. unfold Reqb. destruct (Req_dec_T x y); congruence. Qed.

Lemma Rleb_true x y : x <= y -> Rleb x y = true.
Proof. intros H. unfold Rleb. destruct (Rle_dec x y); [reflexivity | lra]. Qed.

Lemma Rleb_false x y : y < x -> Rleb x y = false.
Proof. intros H. unfold Rleb. destruct (Rle_dec x y); [lra | reflexivity]. Qed.

Lemma pydiv_ok x y : y <> 0 -> pydiv x y = Ok (x / y).
Proof. intros H. unfold pydiv. destruct (Req_dec_T y 0); congruence. Qed.

Lemma RtoC_inj x y : RtoC x = RtoC y -> x = y.
Proof. unfold RtoC. congruence. Qed.

Lemma pycdiv_real x y : y <> 0 -> pycdiv (RtoC x) (RtoC y) = Ok (RtoC (x / y)).
Proof.
  intros H. unfold pycdiv.
  destruct (C_eq_dec (RtoC y) (RtoC 0)) as [E | _].
  - apply RtoC_inj in E. contradiction.
  - unfold Cmul, Cinv, Cnorm2, RtoC, Re, Im. cbn [fst snd].
    f_equal. f_equal; field; nra.
Qed.

Lemma pycdiv_one z : pycdiv z (RtoC 1) = Ok z.
Proof.
  unfold pycdiv.
  destruct (C_eq_dec (RtoC 1) (RtoC 0)) as [E | _].
  - apply RtoC_inj in E. lra.
  - destruct z as [x y]. unfold Cmul, Cinv, Cnorm2, RtoC, Re, Im.
    cbn [fst snd]. f_equal. f_equal; field.
Qed.

(** ** Square roots *)

Lemma csqrt_real_nonneg x : 0 <= x -> csqrt (RtoC x) = RtoC (sqrt x).
Proof.
  intros Hx. unfold csqrt, RtoC, Cnorm2, Re, Im. cbn [fst snd].
  replace (x * x + 0 * 0) with (x * x) by ring.
  rewrite sqrt_square by assumption.
  destruct (Rle_dec 0 0) as [_ | H]; [| lra].
  replace ((x + x) / 2) with x by field.
  replace ((x - x) / 2) with 0 by field.
  rewrite sqrt_0. reflexivity.
Qed.

Lemma csqrt_real_neg x : x < 0 -> csqrt (RtoC x) = Cimag (sqrt (- x)).
Proof.
  intros Hx. unfold csqrt, RtoC, Cimag, Cnorm2, Re, Im. cbn [fst snd].
  replace (x * x + 0 * 0) with ((- x) * (- x)) by ring.
  rewrite sqrt_square by lra.
  destruct (Rle_dec 0 0) as [_ | H]; [| lra].
  replace ((- x + x) / 2) with 0 by field.
  replace ((- x - x) / 2) with (- x) by field.
  rewrite sqrt_0. reflexivity.
Qed.

(** ** Cube roots *)

Lemma third_pos : 0 < third.
Proof. unfold third. lra. Qed.

Lemma Rpower_third_cube x : 0 < x -> Rpower x third ^ 3 = x.
Proof.
  intros Hx. rewrite <- Rpower_pow by apply exp_pos.
  rewrite Rpower_mult.
  replace (third * INR 3) with 1 by (unfold third; simpl; field).
  apply Rpower_1. assumption.
Qed.

Lemma Rpower_third_pos x : 0 < Rpower x third.
Proof. apply exp_pos. Qed.

Lemma cube_inj x y : x ^ 3 = y ^ 3 -> x = y.
Proof.
  intros H.
  assert (E : (x - y) * (x * x + x * y + y * y) = 0) by (ring_simplify; lra).
  apply Rmult_integral in E. destruct E as [E | E]; [lra |].
  assert (Hy : y * y = 0).
  { pose proof (pow2_ge_0 (x + y / 2)). pose proof (pow2_ge_0 y). nra. }
  assert (Hy0 : y = 0) by (apply Rmult_integral in Hy; tauto).
  subst y. assert (Hx : x * x = 0) by lra.
  apply Rmult_integral in Hx. tauto.
Qed.

Lemma fpow_third_cube x : 0 <= x -> fpow x third ^ 3 = x.
Proof.
  intros Hx. unfold fpow. destruct (Req_dec_T x 0) as [-> | Hn].
  - ring.
  - apply Rpower_third_cube. lra.
Qed.

Lemma fpow_third_nonneg x : 0 <= fpow x third.
Proof.
  unfold fpow. destruct (Req_dec_T x 0); [lra |].
  left. apply Rpower_third_pos.
Qed.

(** The float cube root of the solvers is the real cube root. *)
Lemma cubic_root_float_cube x : FQS.cubic_root_float x ^ 3 = x.
Proof.
  unfold FQS.cubic_root_float. destruct (Rle_dec 0 x) as [H | H].
  - apply fpow_third_cube. assumption.
  - replace ((- fpow (- x) third) ^ 3) with (- (fpow (- x) third ^ 3)) by ring.
    rewrite fpow_third_cube by lra. ring.
Qed.

Lemma cubic_root_float_unique x y : y ^ 3 = x -> FQS.cubic_root_float x = y.
Proof.
  intros H. apply cube_inj. rewrite cubic_root_float_cube. symmetry. exact H.
Qed.

Lemma cubic_root_float_opp x :
  FQS.cubic_root_float (- x) = - FQS.cubic_root_float x.
Proof.
  apply cubic_root_float_unique.
  replace ((- FQS.cubic_root_float x) ^ 3)
    with (- (FQS.cubic_root_float x ^ 3)) by ring.
  rewrite cubic_root_float_cube. reflexivity.
Qed.

Lemma cubic_root_float_pos x : 0 < x -> 0 < FQS.cubic_root_float x.
Proof.
  intros Hx. pose proof (cubic_root_float_cube x) as E.
  destruct (Rle_or_lt (FQS.cubic_root_float x) 0) as [H | H]; [| exact H].
  assert (FQS.cubic_root_float x ^ 3 <= 0) by nra. lra.
Qed.

Lemma cubic_root_float_lt x y :
  x < y -> FQS.cubic_root_float x < FQS.cubic_root_float y.
Proof.
  intros H. pose proof (cubic_root_float_cube x) as Ex.
  pose proof (cubic_root_float_cube y) as Ey.
  set (u := FQS.cubic_root_float x) in *.
  set (v := FQS.cubic_root_float y) in *.
  destruct (Rle_or_lt v u) as [Hvu | Hvu]; [| exact Hvu].
  exfalso.
  assert (v ^ 3 <= u ^ 3); [| lra].
  assert (0 <= (u - v) * (u * u + u * v + v * v)); [| nra].
  apply Rmult_le_pos; nra.
Qed.

(** The complex power and cube root on the real axis. *)
Lemma cpow_real_pos x t : 0 < x -> cpow (RtoC x) t = RtoC (Rpower x t).
Proof.
  intros Hx. unfold cpow.
  destruct (C_eq_dec (RtoC x) (RtoC 0)) as [E | _].
  - apply RtoC_inj in E. lra.
  - unfold atan2, RtoC, Cnorm2, Re, Im. cbn [fst snd].
    destruct (Rle_dec 0 0) as [_ | H]; [| lra].
    replace (x * x + 0 * 0) with (x * x) by ring.
    rewrite sqrt_square by lra.
    replace (x / x) with 1 by (field; lra).
    rewrite acos_1, Rmult_0_l, cos_0, sin_0. f_equal; ring.
Qed.

Lemma cpow_real_nonneg x t : 0 <= x -> cpow (RtoC x) t = RtoC (fpow x t).
Proof.
  intros Hx. unfold fpow. destruct (Req_dec_T x 0) as [-> | Hn].
  - unfold cpow. destruct (C_eq_dec (RtoC 0) (RtoC 0)); congruence.
  - apply cpow_real_pos. lra.
Qed.

Lemma cubic_root_real x :
  FQS.cubic_root (RtoC x) = RtoC (FQS.cubic_root_float x).
Proof.
  unfold FQS.cubic_root, FQS.cubic_root_float. cbn [RtoC Re fst].
  destruct (Rle_dec 0 x) as [H | H].
  - apply cpow_real_nonneg. assumption.
  - replace (- RtoC x)%C with (RtoC (- x)).
    + rewrite cpow_real_nonneg by lra. unfold Copp, RtoC, Re, Im.
      cbn [fst snd]. f_equal. ring.
    + unfold Copp, RtoC, Re, Im. cbn [fst snd]. f_equal. ring.
Qed.

End Arithmetic.

(* ================================================================== *)
(** * The cubic solver, branch by branch *)

Section Cubic.

Lemma RtoC_add x y : (RtoC x + RtoC y)%C = RtoC (x + y).
Proof. unfold Cadd, RtoC, Re, Im. cbn [fst snd]. f_equal. ring. Qed.

Lemma RtoC_sub x y : (RtoC x - RtoC y)%C = RtoC (x - y).
Proof. unfold Csub, RtoC, Re, Im. cbn [fst snd]. f_equal. ring. Qed.

Lemma RtoC_mul x y : (RtoC x * RtoC y)%C = RtoC (x * y).
Proof. unfold Cmul, RtoC, Re, Im. cbn [fst snd]. f_equal; ring. Qed.

Lemma RtoC_opp x : (- RtoC x)%C = RtoC (- x).
Proof. unfold Copp, RtoC, Re, Im. cbn [fst snd]. f_equal. ring. Qed.

Lemma Cadd_0j z : (z + Cimag 0)%C = z.
Proof.
  destruct z as [x y]. unfold Cadd, Cimag, Re, Im. cbn [fst snd].
  f_equal; ring.
Qed.

Lemma single_cubic_one_cardano G a0 b0 c0 d0 :
  a0 <> 0 ->
  0 < cubic_h (b0 / a0) (c0 / a0) (d0 / a0) ->
  FQS.single_cubic_one G a0 b0 c0 d0
  = Ok (RtoC (cardano_root (b0 / a0) (c0 / a0) (d0 / a0))).
Proof.
  intros Ha Hh. unfold FQS.single_cubic_one.
  rewrite !pydiv_ok by assumption. cbn [bind].
  set (a := b0 / a0) in *. set (b := c0 / a0) in *. set (c := d0 / a0) in *.
  change (third * b - a * third * (a * third)) with (cubic_f a b).
  change (a * third * (2 * (a * third * (a * third)) - b) + c)
    with (cubic_g a b c).
  change (0.25 * cubic_g a b c * cubic_g a b c
          + cubic_f a b * cubic_f a b * cubic_f a b) with (cubic_h a b c).
  rewrite (Reqb_false (cubic_h a b c) 0) by lra.
  rewrite !andb_false_r.
  destruct (Rle_dec (cubic_h a b c) 0) as [Hle | _]; [lra |].
  rewrite csqrt_real_nonneg by lra.
  rewrite RtoC_add, RtoC_sub, !cubic_root_real, RtoC_add, RtoC_sub.
  reflexivity.
Qed.

Lemma single_cubic_one_triple G a0 b0 c0 d0 :
  a0 <> 0 ->
  cubic_f (b0 / a0) (c0 / a0) = 0 ->
  cubic_g (b0 / a0) (c0 / a0) (d0 / a0) = 0 ->
  FQS.single_cubic_one G a0 b0 c0 d0
  = Ok (RtoC (- FQS.cubic_root_float (d0 / a0))).
Proof.
  intros Ha Hf Hg. unfold FQS.single_cubic_one.
  rewrite !pydiv_ok by assumption. cbn [bind].
  set (a := b0 / a0) in *. set (b := c0 / a0) in *. set (c := d0 / a0) in *.
  change (third * b - a * third * (a * third)) with (cubic_f a b).
  change (a * third * (2 * (a * third * (a * third)) - b) + c)
    with (cubic_g a b c).
  rewrite Hf, Hg.
  assert (E : 0.25 * 0 * 0 + 0 * 0 * 0 = 0) by ring.
  rewrite E, (Reqb_true 0 0 eq_refl). reflexivity.
Qed.

(** In the middle branch the body needs the module [math]. *)
Lemma single_cubic_one_trig_no_math a0 b0 c0 d0 :
  a0 <> 0 ->
  cubic_h (b0 / a0) (c0 / a0) (d0 / a0) <= 0 ->
  ~ (cubic_f (b0 / a0) (c0 / a0) = 0
     /\ cubic_g (b0 / a0) (c0 / a0) (d0 / a0) = 0) ->
  FQS.single_cubic_one module_globals a0 b0 c0 d0 = Raise (NameError "math").
Proof.
  intros Ha Hh Hfg. unfold FQS.single_cubic_one.
  rewrite !pydiv_ok by assumption. cbn [bind].
  set (a := b0 / a0) in *. set (b := c0 / a0) in *. set (c := d0 / a0) in *.
  change (third * b - a * third * (a * third)) with (cubic_f a b).
  change (a * third * (2 * (a * third * (a * third)) - b) + c)
    with (cubic_g a b c).
  change (0.25 * cubic_g a b c * cubic_g a b c
          + cubic_f a b * cubic_f a b * cubic_f a b) with (cubic_h a b c).
  assert (E : Reqb (cubic_f a b) (cubic_g a b c)
              && Reqb (cubic_g a b c) (cubic_h a b c)
              && Reqb (cubic_h a b c) 0 = false).
  { unfold Reqb.
    destruct (Req_dec_T (cubic_f a b) (cubic_g a b c)); [| reflexivity].
    destruct (Req_dec_T (cubic_g a b c) (cubic_h a b c)); [| reflexivity].
    destruct (Req_dec_T (cubic_h a b c) 0); [| reflexivity].
    exfalso. apply Hfg. split; congruence. }
  rewrite E.
  destruct (Rle_dec (cubic_h a b c) 0) as [_ | Hn]; [| lra].
  reflexivity.
Qed.

(** Cardano: with S^3 and U^3 the two values under the cube roots, S + U
    solves the depressed cubic. *)
Lemma cardano_depressed f g :
  let h := 0.25 * g * g + f * f * f in
  0 <= h ->
  let y := FQS.cubic_root_float (-0.5 * g + sqrt h)
           + FQS.cubic_root_float (-0.5 * g - sqrt h) in
  y ^ 3 + 3 * f * y + g = 0.
Proof.
  intros h Hh y.
  set (Sr := FQS.cubic_root_float (-0.5 * g + sqrt h)) in *.
  set (Ur := FQS.cubic_root_float (-0.5 * g - sqrt h)) in *.
  assert (ES : Sr ^ 3 = -0.5 * g + sqrt h) by apply cubic_root_float_cube.
  assert (EU : Ur ^ 3 = -0.5 * g - sqrt h) by apply cubic_root_float_cube.
  assert (Hsq : sqrt h * sqrt h = h) by (apply sqrt_sqrt; assumption).
  assert (ESU : Sr * Ur = - f).
  { apply cube_inj.
    replace ((Sr * Ur) ^ 3) with (Sr ^ 3 * Ur ^ 3) by ring.
    rewrite ES, EU.
    replace ((-0.5 * g + sqrt h) * (-0.5 * g - sqrt h))
      with (0.25 * g * g - sqrt h * sqrt h) by (decimals; field).
    rewrite Hsq. unfold h. ring. }
  subst y.
  replace ((Sr + Ur) ^ 3) with (Sr ^ 3 + Ur ^ 3 + 3 * (Sr * Ur) * (Sr + Ur)) by ring.
  rewrite ES, EU, ESU. decimals. field.
Qed.

Lemma cubic_poly_depressed a b c y :
  cubic_poly a b c (y - a * third)
  = y ^ 3 + 3 * cubic_f a b * y + cubic_g a b c.
Proof. unfold cubic_poly, cubic_f, cubic_g, third. field. Qed.

Lemma cardano_root_is_root a b c :
  0 <= cubic_h a b c -> cubic_poly a b c (cardano_root a b c) = 0.
Proof.
  intros Hh. unfold cardano_root. rewrite cubic_poly_depressed.
  exact (@cardano_depressed (cubic_f a b) (cubic_g a b c) Hh).
Qed.

Lemma triple_root_is_root a b c :
  cubic_f a b = 0 -> cubic_g a b c = 0 ->
  cubic_poly a b c (- FQS.cubic_root_float c) = 0.
Proof.
  intros Hf Hg.
  assert (Ec : c = (a * third) ^ 3).
  { unfold cubic_f, cubic_g, third in *. nra. }
  rewrite (cubic_root_float_unique c (a * third))
    by (symmetry; exact Ec).
  replace (- (a * third)) with (0 - a * third) by ring.
  rewrite cubic_poly_depressed, Hf, Hg. ring.
Qed.

(** The middle branch: h <= 0 and f, g, h not all zero force f < 0 and
    put the argument of [acos] in its domain. *)
Lemma trig_branch_facts a b c :
  cubic_h a b c <= 0 ->
  ~ (cubic_f a b = 0 /\ cubic_g a b c = 0) ->
  let j := sqrt (- cubic_f a b) in
  0 < j /\ j * j = - cubic_f a b
  /\ -1 <= -0.5 * cubic_g a b c / (j * j * j) <= 1.
Proof.
  intros Hh Hfg j. unfold cubic_h in Hh.
  set (f := cubic_f a b) in *. set (g := cubic_g a b c) in *.
  assert (Hf : f < 0).
  { destruct (Rlt_or_le f 0) as [H | H]; [exact H | exfalso].
    assert (0 <= f * f * f) by (repeat apply Rmult_le_pos; assumption).
    assert (Hg2 : 0 <= g * g) by nra.
    assert (g * g = 0) by (decimals; nra).
    assert (g = 0) by (apply Rmult_integral in H1; tauto).
    assert (f * f * f = 0) by (subst g; decimals; nra).
    apply Hfg. split; [| assumption].
    apply Rmult_integral in H3. destruct H3 as [H3 | H3]; [| assumption].
    apply Rmult_integral in H3. tauto. }
  assert (Hj : 0 < j) by (apply sqrt_lt_R0; lra).
  assert (Hjj : j * j = - f) by (apply sqrt_sqrt; lra).
  split; [assumption |]. split; [assumption |].
  set (x := -0.5 * g / (j * j * j)).
  assert (Hj3 : 0 < j * j * j) by (repeat apply Rmult_lt_0_compat; assumption).
  assert (Ex : x * (j * j * j) = -0.5 * g) by (unfold x; field; lra).
  assert (Hj6 : (j * j * j) * (j * j * j) = - (f * f * f)).
  { replace (j * j * j * (j * j * j)) with ((j * j) * (j * j) * (j * j)) by ring.
    rewrite Hjj. ring. }
  assert (Hx2 : x * x * ((j * j * j) * (j * j * j)) <= (j * j * j) * (j * j * j)).
  { replace (x * x * (j * j * j * (j * j * j)))
      with ((x * (j * j * j)) * (x * (j * j * j))) by ring.
    rewrite Ex, Hj6. decimals. nra. }
  assert (Hx1 : x * x <= 1).
  { assert (0 < j * j * j * (j * j * j)) by nra. nra. }
  split; nra.
Qed.

Lemma cos_3a x : cos (3 * x) = 4 * cos x ^ 3 - 3 * cos x.
Proof.
  replace (3 * x) with (2 * x + x) by ring.
  rewrite cos_plus, cos_2a, sin_2a.
  pose proof (sin2_cos2 x) as H. unfold Rsqr in H.
  replace (sin x * sin x) with (1 - cos x * cos x) by lra.
  replace (2 * sin x * cos x * sin x) with (2 * cos x * (sin x * sin x)) by ring.
  replace (sin x * sin x) with (1 - cos x * cos x) by lra.
  ring.
Qed.

Lemma trig_root_is_root a b c :
  cubic_h a b c <= 0 ->
  ~ (cubic_f a b = 0 /\ cubic_g a b c = 0) ->
  cubic_poly a b c (trig_root a b c) = 0.
Proof.
  intros Hh Hfg.
  destruct (trig_branch_facts a b c Hh Hfg) as (Hj & Hjj & Hx).
  unfold trig_root. cbv zeta. rewrite cubic_poly_depressed.
  set (j := sqrt (- cubic_f a b)) in *.
  set (x := -0.5 * cubic_g a b c / (j * j * j)) in *.
  set (m := cos (third * acos x)).
  assert (Hcos : 4 * m ^ 3 - 3 * m = x).
  { unfold m. rewrite <- cos_3a.
    replace (3 * (third * acos x)) with (acos x) by (unfold third; field).
    apply cos_acos. assumption. }
  assert (Hj3 : 0 < j * j * j) by (repeat apply Rmult_lt_0_compat; assumption).
  assert (Ex : x * (j * j * j) = -0.5 * cubic_g a b c)
    by (unfold x; field; lra).
  assert (Ef : cubic_f a b = - (j * j)) by lra.
  rewrite Ef.
  replace ((2 * j * m) ^ 3 + 3 * - (j * j) * (2 * j * m) + cubic_g a b c)
    with (2 * (j * j * j) * (4 * m ^ 3 - 3 * m) + cubic_g a b c) by ring.
  rewrite Hcos.
  replace (2 * (j * j * j) * x) with (2 * (x * (j * j * j))) by ring.
  rewrite Ex. decimals. field.
Qed.

Lemma single_cubic_one_trig a0 b0 c0 d0 :
  a0 <> 0 ->
  cubic_h (b0 / a0) (c0 / a0) (d0 / a0) <= 0 ->
  ~ (cubic_f (b0 / a0) (c0 / a0) = 0
     /\ cubic_g (b0 / a0) (c0 / a0) (d0 / a0) = 0) ->
  FQS.single_cubic_one globals_with_math a0 b0 c0 d0
  = Ok (RtoC (trig_root (b0 / a0) (c0 / a0) (d0 / a0))).
Proof.
  intros Ha Hh Hfg. unfold FQS.single_cubic_one.
  rewrite !pydiv_ok by assumption. cbn [bind].
  set (a := b0 / a0) in *. set (b := c0 / a0) in *. set (c := d0 / a0) in *.
  change (third * b - a * third * (a * third)) with (cubic_f a b).
  change (a * third * (2 * (a * third * (a * third)) - b) + c)
    with (cubic_g a b c).
  change (0.25 * cubic_g a b c * cubic_g a b c
          + cubic_f a b * cubic_f a b * cubic_f a b) with (cubic_h a b c).
  assert (E : Reqb (cubic_f a b) (cubic_g a b c)
              && Reqb (cubic_g a b c) (cubic_h a b c)
              && Reqb (cubic_h a b c) 0 = false).
  { unfold Reqb.
    destruct (Req_dec_T (cubic_f a b) (cubic_g a b c)); [| reflexivity].
    destruct (Req_dec_T (cubic_g a b c) (cubic_h a b c)); [| reflexivity].
    destruct (Req_dec_T (cubic_h a b c) 0); [| reflexivity].
    exfalso. apply Hfg. split; congruence. }
  rewrite E.
  destruct (Rle_dec (cubic_h a b c) 0) as [_ | Hn]; [| lra].
  destruct (trig_branch_facts a b c Hh Hfg) as (Hj & Hjj & Hx).
  cbn [lookup_math globals_with_math g_math bind python_math math_sqrt
       math_acos math_cos].
  destruct (Rlt_dec (- cubic_f a b) 0) as [Hneg | _].
  { exfalso. rewrite <- Hjj in Hneg. nra. }
  cbn [bind].
  set (j := sqrt (- cubic_f a b)) in *.
  assert (Hj3 : 0 < j * j * j) by (repeat apply Rmult_lt_0_compat; assumption).
  rewrite pydiv_ok by lra. cbn [bind].
  destruct (Rlt_dec (-0.5 * cubic_g a b c / (j * j * j)) (-1)); [lra |].
  destruct (Rlt_dec 1 (-0.5 * cubic_g a b c / (j * j * j))); [lra |].
  reflexivity.
Qed.

(** With [math] in the namespace, every value [single_cubic_one] returns
    is a real root of the cubic; without it, every value it does
    return. *)
Lemma single_cubic_one_real_root G a0 b0 c0 d0 z :
  known_globals G ->
  FQS.single_cubic_one G a0 b0 c0 d0 = Ok z ->
  exists x, z = RtoC x
            /\ a0 <> 0
            /\ cubic_poly (b0 / a0) (c0 / a0) (d0 / a0) x = 0.
Proof.
  intros HG H.
  assert (Ha : a0 <> 0).
  { intros ->. unfold FQS.single_cubic_one, pydiv in H.
    destruct (Req_dec_T 0 0); [discriminate | congruence]. }
  set (a := b0 / a0) in *. set (b := c0 / a0) in *. set (c := d0 / a0) in *.
  destruct (Rlt_or_le 0 (cubic_h a b c)) as [Hpos | Hle].
  - rewrite single_cubic_one_cardano in H by assumption.
    injection H as <-. eexists. split; [reflexivity |]. split; [assumption |].
    apply cardano_root_is_root. exact (Rlt_le _ _ Hpos).
  - destruct (Req_dec_T (cubic_f a b) 0) as [Hf | Hf];
      [destruct (Req_dec_T (cubic_g a b c) 0) as [Hg | Hg] |].
    + rewrite single_cubic_one_triple in H by assumption.
      injection H as <-. eexists. split; [reflexivity |].
      split; [assumption |]. apply triple_root_is_root; assumption.
    + destruct HG as [-> | ->].
      * rewrite single_cubic_one_trig_no_math in H by (try assumption; tauto).
        discriminate.
      * rewrite single_cubic_one_trig in H by (try assumption; tauto).
        injection H as <-. eexists. split; [reflexivity |].
        split; [assumption |]. apply trig_root_is_root; tauto.
    + destruct HG as [-> | ->].
      * rewrite single_cubic_one_trig_no_math in H by (try assumption; tauto).
        discriminate.
      * rewrite single_cubic_one_trig in H by (try assumption; tauto).
        injection H as <-. eexists. split; [reflexivity |].
        split; [assumption |]. apply trig_root_is_root; tauto.
Qed.

End Cubic.

(* ================================================================== *)
(** * Complex algebra *)

Lemma C_ring_theory :
  ring_theory (RtoC 0) (RtoC 1) Cadd Cmul Csub Copp (@eq C).
Proof.
  constructor; intros; repeat match goal with z : C |- _ => destruct z end;
    unfold Cadd, Cmul, Csub, Copp, RtoC, Re, Im; cbn [fst snd];
    f_equal; ring.
Qed.

Add Ring C_ring : C_ring_theory.

Section ComplexAlgebra.

Lemma Cnorm2_mul z w : Cnorm2 (z * w)%C = Cnorm2 z * Cnorm2 w.
Proof.
  destruct z, w. unfold Cnorm2, Cmul, Re, Im. cbn [fst snd]. ring.
Qed.

Lemma Cnorm2_zero z : Cnorm2 z = 0 -> z = RtoC 0.
Proof.
  destruct z as [x y]. unfold Cnorm2, RtoC, Re, Im. cbn [fst snd].
  intros H. assert (x = 0 /\ y = 0) as [-> ->]; [| reflexivity]. split; nra.
Qed.

Lemma Cmul_integral z w : (z * w)%C = RtoC 0 -> z = RtoC 0 \/ w = RtoC 0.
Proof.
  intros H. assert (E : Cnorm2 z * Cnorm2 w = 0).
  { rewrite <- Cnorm2_mul, H. unfold Cnorm2, RtoC, Re, Im. cbn. ring. }
  apply Rmult_integral in E.
  destruct E as [E | E]; [left | right]; apply Cnorm2_zero; assumption.
Qed.

Lemma Cmul_inv z : z <> RtoC 0 -> (z * Cinv z)%C = RtoC 1.
Proof.
  intros Hz. destruct z as [x y].
  assert (Hn : x * x + y * y <> 0).
  { intros E. apply Hz. apply Cnorm2_zero. exact E. }
  unfold Cmul, Cinv, Cnorm2, RtoC, Re, Im. cbn [fst snd].
  f_equal; field; assumption.
Qed.

(** The principal square root is a square root. *)
Lemma csqrt_sqr z : (csqrt z * csqrt z)%C = z.
Proof.
  destruct z as [x y]. unfold csqrt, Cmul, Cnorm2, Re, Im. cbn [fst snd].
  set (m := sqrt (x * x + y * y)).
  assert (Hm0 : 0 <= x * x + y * y) by nra.
  assert (Hmm : m * m = x * x + y * y) by (apply sqrt_sqrt; assumption).
  assert (Hm : 0 <= m) by apply sqrt_pos.
  assert (Hp : 0 <= (m + x) / 2) by nra.
  assert (Hq : 0 <= (m - x) / 2) by nra.
  set (u := sqrt ((m + x) / 2)). set (v := sqrt ((m - x) / 2)).
  assert (Hu : u * u = (m + x) / 2) by (apply sqrt_sqrt; assumption).
  assert (Hv : v * v = (m - x) / 2) by (apply sqrt_sqrt; assumption).
  assert (Hu0 : 0 <= u) by apply sqrt_pos.
  assert (Hv0 : 0 <= v) by apply sqrt_pos.
  assert (Huv : 0 <= u * v) by (apply Rmult_le_pos; assumption).
  assert (Huv2 : (2 * (u * v)) * (2 * (u * v)) = y * y).
  { replace (2 * (u * v) * (2 * (u * v))) with (4 * (u * u) * (v * v)) by ring.
    rewrite Hu, Hv. nra. }
  destruct (Rle_dec 0 y) as [Hy | Hy]; f_equal; try nra.
Qed.

Lemma csqrt_zero_inv z : csqrt z = RtoC 0 -> z = RtoC 0.
Proof.
  intros H. rewrite <- (csqrt_sqr z), H. ring.
Qed.

(** Both values [single_quadratic] returns solve x^2 + b x + c = 0. *)
Lemma single_quadratic_roots b c r1 r2 :
  FQS.single_quadratic (RtoC 1) b c = Ok (r1, r2) ->
  (r1 * r1 + b * r1 + c)%C = RtoC 0 /\ (r2 * r2 + b * r2 + c)%C = RtoC 0.
Proof.
  unfold FQS.single_quadratic. rewrite !pycdiv_one. cbn [bind].
  intros H. injection H as <- <-.
  set (h := (RtoC (-0.5) * b)%C).
  pose proof (csqrt_sqr (h * h - c)%C) as Hw.
  set (w := csqrt (h * h - c)%C) in *.
  assert (Eb : b = (- (h + h))%C).
  { unfold h. destruct b as [x y].
    unfold Cadd, Cmul, Copp, RtoC, Re, Im. cbn [fst snd].
    f_equal; decimals; field. }
  rewrite Eb. split.
  - replace ((h - w) * (h - w) + - (h + h) * (h - w) + c)%C
      with (w * w - (h * h - c))%C by ring.
    rewrite Hw. ring.
  - replace ((h + w) * (h + w) + - (h + h) * (h + w) + c)%C
      with (w * w - (h * h - c))%C by ring.
    rewrite Hw. ring.
Qed.

End ComplexAlgebra.

(* ================================================================== *)
(** * The quartic solver when the subsidiary cubic has one real root *)

Section Quartic.

Lemma single_quadratic_real s b :
  FQS.single_quadratic (RtoC 1) (RtoC s) (RtoC b) = Ok (quadratic_pair s b).
Proof.
  unfold FQS.single_quadratic. rewrite !pycdiv_one. cbn [bind].
  rewrite !RtoC_mul, RtoC_sub. reflexivity.
Qed.

Lemma single_quartic_ferrari G a0 b0 c0 d0 e0 :
  a0 <> 0 ->
  0 < ferrari_h (b0 / a0) (c0 / a0) (d0 / a0) (e0 / a0) ->
  0 < 2 * FQS.quartic_p (b0 / a0) (c0 / a0)
      + 2 * ferrari_z0 (b0 / a0) (c0 / a0) (d0 / a0) (e0 / a0) ->
  FQS.single_quartic G a0 b0 c0 d0 e0
  = Ok (ferrari_roots (b0 / a0) (c0 / a0) (d0 / a0) (e0 / a0)).
Proof.
  intros Ha Hh Hs. unfold FQS.single_quartic.
  rewrite !pydiv_ok by assumption. cbn [bind].
  set (a := b0 / a0) in *. set (b := c0 / a0) in *.
  set (c := d0 / a0) in *. set (d := e0 / a0) in *.
  unfold ferrari_h in Hh. unfold ferrari_roots, ferrari_t, ferrari_s.
  unfold ferrari_z0 in *.
  set (p := FQS.quartic_p a b) in *.
  set (q := FQS.quartic_q a b c) in *.
  set (r := FQS.quartic_r a b c d) in *.
  rewrite single_cubic_one_cardano; rewrite ?Rdiv_1_r; try lra.
  cbn [bind]. set (z0 := cardano_root p r (p * r - 0.5 * q * q)) in *.
  change (Re (RtoC z0)) with z0.
  rewrite Cadd_0j, csqrt_real_nonneg by lra.
  set (s := sqrt (2 * p + 2 * z0)).
  assert (Hspos : 0 < s) by (apply sqrt_lt_R0; assumption).
  destruct (C_eq_dec (RtoC s) (RtoC 0)) as [E | _].
  { apply RtoC_inj in E. lra. }
  rewrite pycdiv_real by lra. cbn [bind].
  rewrite RtoC_add, RtoC_sub, RtoC_opp, !single_quadratic_real.
  cbn [bind]. destruct (quadratic_pair s (z0 + - q / s)).
  destruct (quadratic_pair (- s) (z0 - - q / s)). reflexivity.
Qed.

(** The relations among z0, s and t that the factorisation rests on. *)
Lemma ferrari_identities a b c d :
  0 <= ferrari_h a b c d ->
  0 < 2 * FQS.quartic_p a b + 2 * ferrari_z0 a b c d ->
  let z0 := ferrari_z0 a b c d in
  let s := ferrari_s a b c d in
  let t := ferrari_t a b c d in
  0 < s
  /\ s * s = 2 * FQS.quartic_p a b + 2 * z0
  /\ s * t = - FQS.quartic_q a b c
  /\ z0 * z0 - t * t = - FQS.quartic_r a b c d.
Proof.
  intros Hh Hs z0 s t.
  pose proof (cardano_root_is_root (FQS.quartic_p a b) (FQS.quartic_r a b c d)
                (FQS.quartic_p a b * FQS.quartic_r a b c d
                 - 0.5 * FQS.quartic_q a b c * FQS.quartic_q a b c) Hh) as Hz.
  fold (ferrari_z0 a b c d) in Hz. fold z0 in Hz, Hs.
  assert (Ess : s * s = 2 * FQS.quartic_p a b + 2 * z0).
  { unfold s, ferrari_s. fold z0. apply sqrt_sqrt. lra. }
  assert (Hspos : 0 < s).
  { unfold s, ferrari_s. fold z0. apply sqrt_lt_R0. assumption. }
  assert (Et : s * t = - FQS.quartic_q a b c).
  { unfold t, ferrari_t. fold s. field. lra. }
  unfold cubic_poly in Hz.
  set (p := FQS.quartic_p a b) in *.
  set (q := FQS.quartic_q a b c) in *.
  set (r := FQS.quartic_r a b c d) in *.
  assert (Ett : s * s * (z0 * z0 - t * t + r) = 0).
  { replace (s * s * (z0 * z0 - t * t + r))
      with (s * s * (z0 * z0 + r) - (s * t) * (s * t)) by ring.
    rewrite Et, Ess. decimals. nra. }
  repeat split; try assumption.
  apply Rmult_integral in Ett. destruct Ett as [E | E]; nra.
Qed.

(** The two quadratics multiply to the shifted quartic. *)
Lemma ferrari_factor a b c d y :
  0 <= ferrari_h a b c d ->
  0 < 2 * FQS.quartic_p a b + 2 * ferrari_z0 a b c d ->
  let z0 := ferrari_z0 a b c d in
  let s := ferrari_s a b c d in
  let t := ferrari_t a b c d in
  quartic_poly 1 a b c d (y - FQS.quartic_shift a)
  = (y ^ 2 + s * y + (z0 + t)) * (y ^ 2 - s * y + (z0 - t)).
Proof.
  intros Hh Hs z0 s t.
  destruct (ferrari_identities a b c d Hh Hs) as (Hspos & Ess & Et & Et2).
  fold z0 s t in Hspos, Ess, Et, Et2.
  assert (Ep : quartic_poly 1 a b c d (y - FQS.quartic_shift a)
               = y ^ 4 - 2 * FQS.quartic_p a b * y ^ 2
                 + 2 * FQS.quartic_q a b c * y - FQS.quartic_r a b c d).
  { unfold quartic_poly, FQS.quartic_shift, FQS.quartic_p,
      FQS.quartic_q, FQS.quartic_r. decimals. field. }
  rewrite Ep.
  replace ((y ^ 2 + s * y + (z0 + t)) * (y ^ 2 - s * y + (z0 - t)))
    with (y ^ 4 + (2 * z0 - s * s) * y ^ 2 - 2 * (s * t) * y
          + (z0 * z0 - t * t)) by ring.
  rewrite Ess, Et, Et2. ring.
Qed.

(** The quartic at a shifted complex point, in the coefficients p, q, r
    of the solver. *)
Lemma Cquartic_depressed a0 b0 c0 d0 e0 y :
  a0 <> 0 ->
  let a := b0 / a0 in let b := c0 / a0 in
  let c := d0 / a0 in let d := e0 / a0 in
  Cquartic_poly a0 b0 c0 d0 e0 (y - RtoC (FQS.quartic_shift a))%C
  = (RtoC a0 * (y * y * y * y - RtoC (2 * FQS.quartic_p a b) * (y * y)
                + RtoC (2 * FQS.quartic_q a b c) * y
                - RtoC (FQS.quartic_r a b c d)))%C.
Proof.
  intros Ha a b c d. destruct y as [y1 y2].
  unfold Cquartic_poly, Cadd, Csub, Cmul, RtoC, Re, Im. cbn [fst snd].
  unfold FQS.quartic_shift, FQS.quartic_p, FQS.quartic_q, FQS.quartic_r,
    a, b, c, d.
  f_equal; decimals; field; assumption.
Qed.

(** With z0 a real root of the subsidiary cubic, s a square root of
    2p + 2 z0 and s t = -q, the product of the two quadratics is the
    depressed quartic. *)
Lemma ferrari_complex_factor p q r z0 (s t y : C) :
  cubic_poly p r (p * r - 0.5 * q * q) z0 = 0 ->
  s <> RtoC 0 ->
  (s * s)%C = RtoC (2 * p + 2 * z0) ->
  (s * t)%C = RtoC (- q) ->
  (y * y * y * y - RtoC (2 * p) * (y * y) + RtoC (2 * q) * y - RtoC r)%C
  = ((y * y + s * y + (RtoC z0 + t)) * (y * y + - s * y + (RtoC z0 - t)))%C.
Proof.
  intros Hz Hs Hss Hst.
  assert (Hzt : (RtoC z0 * RtoC z0 - t * t)%C = RtoC (- r)).
  { assert (E : (s * s * (RtoC z0 * RtoC z0 - t * t - RtoC (- r)))%C = RtoC 0).
    { replace (s * s * (RtoC z0 * RtoC z0 - t * t - RtoC (- r)))%C
        with (s * s * (RtoC z0 * RtoC z0 - RtoC (- r)) - (s * t) * (s * t))%C
        by ring.
      rewrite Hss, Hst, !RtoC_mul, RtoC_sub, RtoC_mul, RtoC_sub.
      f_equal. unfold cubic_poly in Hz. decimals. nra. }
    apply Cmul_integral in E. destruct E as [E | E].
    - apply Cmul_integral in E. tauto.
    - replace (RtoC z0 * RtoC z0 - t * t)%C
        with ((RtoC z0 * RtoC z0 - t * t - RtoC (- r)) + RtoC (- r))%C by ring.
      rewrite E. ring. }
  replace ((y * y + s * y + (RtoC z0 + t)) * (y * y + - s * y + (RtoC z0 - t)))%C
    with (y * y * y * y + (RtoC z0 + RtoC z0 - s * s) * (y * y)
          - (s * t + s * t) * y + (RtoC z0 * RtoC z0 - t * t))%C by ring.
  rewrite Hss, Hst, Hzt, !RtoC_add, RtoC_sub.
  replace (z0 + z0 - (2 * p + 2 * z0)) with (- (2 * p)) by ring.
  replace (- q + - q) with (- (2 * q)) by ring.
  rewrite <- !RtoC_opp. ring.
Qed.

(** Every value [single_quartic] returns is a root of the quartic, unless
    the degenerate branch s = 0 was taken. *)
Lemma single_quartic_roots_nondegenerate G a0 b0 c0 d0 e0 r0 r1 r2 r3 :
  known_globals G ->
  FQS.single_quartic G a0 b0 c0 d0 e0 = Ok (r0, r1, r2, r3) ->
  let a := b0 / a0 in let b := c0 / a0 in
  let c := d0 / a0 in let d := e0 / a0 in
  let p := FQS.quartic_p a b in
  let q := FQS.quartic_q a b c in
  let r := FQS.quartic_r a b c d in
  (forall z0, FQS.single_cubic_one G 1 p r (p * r - 0.5 * q * q) = Ok z0 ->
              2 * p + 2 * Re z0 <> 0) ->
  Cquartic_poly a0 b0 c0 d0 e0 r0 = RtoC 0
  /\ Cquartic_poly a0 b0 c0 d0 e0 r1 = RtoC 0
  /\ Cquartic_poly a0 b0 c0 d0 e0 r2 = RtoC 0
  /\ Cquartic_poly a0 b0 c0 d0 e0 r3 = RtoC 0.
Proof.
  intros HG H a b c d p q r Hnd.
  assert (Ha : a0 <> 0).
  { intros ->. unfold FQS.single_quartic, pydiv in H.
    destruct (Req_dec_T 0 0); [discriminate | congruence]. }
  unfold FQS.single_quartic in H. rewrite !pydiv_ok in H by assumption.
  cbn [bind] in H. fold a b c d in H. fold p q r in H.
  inv_bind H. rename a1 into z0.
  specialize (Hnd z0 eq_refl).
  destruct (single_cubic_one_real_root G 1 p r (p * r - 0.5 * q * q) z0 HG E)
    as (x & -> & _ & Hx).
  rewrite !Rdiv_1_r in Hx. change (Re (RtoC x)) with x in *.
  rewrite Cadd_0j in H.
  set (s := csqrt (RtoC (2 * p + 2 * x))) in *.
  assert (Hs : s <> RtoC 0).
  { intros E0. apply csqrt_zero_inv in E0. apply RtoC_inj in E0. lra. }
  assert (Hss : (s * s)%C = RtoC (2 * p + 2 * x)) by apply csqrt_sqr.
  destruct (C_eq_dec s (RtoC 0)) as [E0 | _]; [contradiction |].
  unfold pycdiv in H. destruct (C_eq_dec s (RtoC 0)) as [E0 | _];
    [contradiction |].
  cbn [bind] in H.
  set (t := (RtoC (- q) * Cinv s)%C) in *.
  assert (Hst : (s * t)%C = RtoC (- q)).
  { unfold t. replace (s * (RtoC (- q) * Cinv s))%C
      with (RtoC (- q) * (s * Cinv s))%C by ring.
    rewrite Cmul_inv by assumption. ring. }
  inv_bind H. destruct a1 as [y0 y1]. inv_bind H. destruct a1 as [y2 y3].
  injection H as <- <- <- <-.
  destruct (single_quadratic_roots _ _ _ _ E0) as [Q0 Q1].
  destruct (single_quadratic_roots _ _ _ _ E1) as [Q2 Q3].
  pose proof (fun y => ferrari_complex_factor p q r x s t y Hx Hs Hss Hst)
    as Hfac.
  repeat split;
    rewrite (Cquartic_depressed a0 b0 c0 d0 e0 _ Ha); fold a b c d p q r;
    rewrite Hfac;
    first [rewrite Q0 | rewrite Q1 | rewrite Q2 | rewrite Q3]; ring.
Qed.

End Quartic.

(* ================================================================== *)
(** * The quartic of the energy balance: a T^4 + T + e *)

Section SEBQuartic.

Variables a e : R.
Hypothesis Ha : 0 < a.

(** The normalised coefficients [single_quartic] forms from
    pmat = (a, 0, 0, 1, e). *)
Local Abbreviation na := (0 / a).
Local Abbreviation nc := (1 / a).
Local Abbreviation nd := (e / a).

Lemma seb_p : FQS.quartic_p na na = 0.
Proof. unfold FQS.quartic_p. decimals. field. lra. Qed.

Lemma seb_q : FQS.quartic_q na na nc = / (2 * a).
Proof. unfold FQS.quartic_q. decimals. field. lra. Qed.

Lemma seb_r : FQS.quartic_r na na nc nd = - e / a.
Proof. unfold FQS.quartic_r. decimals. field. lra. Qed.

Lemma seb_shift : FQS.quartic_shift na = 0.
Proof. unfold FQS.quartic_shift. decimals. field. lra. Qed.

Lemma seb_q_pos : 0 < FQS.quartic_q na na nc.
Proof. rewrite seb_q. apply Rinv_0_lt_compat. lra. Qed.

Lemma seb_h_eq :
  ferrari_h na na nc nd = (27 - 256 * a * e ^ 3) / (6912 * a ^ 4).
Proof.
  unfold ferrari_h. rewrite seb_p, seb_q, seb_r.
  unfold cubic_h, cubic_g, cubic_f, third. decimals. field. lra.
Qed.

Lemma seb_h_pos : 256 * a * e ^ 3 < 27 -> 0 < ferrari_h na na nc nd.
Proof.
  intros H. rewrite seb_h_eq. apply Rdiv_lt_0_compat; [lra |].
  assert (0 < a ^ 4) by (apply pow_lt; assumption). lra.
Qed.

Lemma seb_h_nonpos : 27 <= 256 * a * e ^ 3 -> ferrari_h na na nc nd <= 0.
Proof.
  intros H. rewrite seb_h_eq.
  assert (0 < a ^ 4) by (apply pow_lt; assumption).
  assert (E : (27 - 256 * a * e ^ 3) / (6912 * a ^ 4)
              = - ((256 * a * e ^ 3 - 27) / (6912 * a ^ 4))) by (field; lra).
  rewrite E.
  assert (0 <= (256 * a * e ^ 3 - 27) / (6912 * a ^ 4)); [| lra].
  apply Rmult_le_pos; [lra |]. left. apply Rinv_0_lt_compat. lra.
Qed.

Lemma seb_neg_h_pos : e <= 0 -> 0 < ferrari_h na na nc nd.
Proof.
  intros He. apply seb_h_pos.
  assert (e ^ 3 <= 0).
  { replace (e ^ 3) with (e * (e * e)) by ring.
    pose proof (Rle_0_sqr e) as H. unfold Rsqr in H. nra. }
  nra.
Qed.

(** The root of the subsidiary cubic is positive, so s is real and
    positive and t is negative. *)
Lemma seb_z0_pos :
  0 <= ferrari_h na na nc nd -> 0 < ferrari_z0 na na nc nd.
Proof.
  intros Hh. unfold ferrari_h in Hh. unfold ferrari_z0, cardano_root.
  set (p := FQS.quartic_p na na) in *.
  set (q := FQS.quartic_q na na nc) in *.
  set (r := FQS.quartic_r na na nc nd) in *.
  set (g := cubic_g p r (p * r - 0.5 * q * q)) in *.
  set (h := cubic_h p r (p * r - 0.5 * q * q)) in *.
  assert (Ep : p = 0) by apply seb_p.
  assert (Hq : 0 < q) by apply seb_q_pos.
  assert (Eg : g = -0.5 * q * q).
  { unfold g, cubic_g. rewrite Ep. unfold third. decimals. field. }
  assert (Hg : g < 0) by (rewrite Eg; decimals; nra).
  pose proof (sqrt_pos h) as Hsq.
  assert (Hlt : - (-0.5 * g + sqrt h) < -0.5 * g - sqrt h)
    by (decimals; lra).
  apply cubic_root_float_lt in Hlt. rewrite cubic_root_float_opp in Hlt.
  rewrite Ep. lra.
Qed.

Section WithRoot.

Hypothesis Hh : 0 < ferrari_h na na nc nd.

Let z0 := ferrari_z0 na na nc nd.
Let s := ferrari_s na na nc nd.
Let t := ferrari_t na na nc nd.

Lemma seb_s_arg : 0 < 2 * FQS.quartic_p na na + 2 * ferrari_z0 na na nc nd.
Proof. rewrite seb_p. pose proof (seb_z0_pos (Rlt_le _ _ Hh)). lra. Qed.

Lemma seb_facts :
  0 < z0 /\ 0 < s /\ t < 0 /\ s * s = 2 * z0
  /\ (z0 + t) * (z0 - t) = e / a.
Proof.
  destruct (ferrari_identities na na nc nd (Rlt_le _ _ Hh) seb_s_arg)
    as (Hs & Ess & Est & Ezt).
  fold z0 s t in Hs, Ess, Est, Ezt.
  rewrite seb_p in Ess. rewrite seb_r in Ezt.
  pose proof seb_q_pos as Hq. pose proof (seb_z0_pos (Rlt_le _ _ Hh)) as Hz.
  fold z0 in Hz.
  assert (Ht : t < 0).
  { destruct (Rlt_or_le t 0) as [H | H]; [exact H |].
    assert (0 <= s * t) by (apply Rmult_le_pos; lra). lra. }
  repeat split; try assumption; lra.
Qed.

Lemma seb_delta2_neg : seb_delta2 a e < 0.
Proof.
  destruct seb_facts as (Hz & Hs & Ht & Ess & _).
  unfold seb_delta2. fold z0 s t. decimals. nra.
Qed.

Lemma seb_roots_eq :
  ferrari_roots na na nc nd
  = ((RtoC (-0.5 * s) - csqrt (RtoC (seb_delta1 a e)) - RtoC 0)%C,
     (RtoC (-0.5 * s) + csqrt (RtoC (seb_delta1 a e)) - RtoC 0)%C,
     (RtoC (-0.5 * - s) - Cimag (sqrt (- seb_delta2 a e)) - RtoC 0)%C,
     (RtoC (-0.5 * - s) + Cimag (sqrt (- seb_delta2 a e)) - RtoC 0)%C).
Proof.
  unfold ferrari_roots, quadratic_pair. fold z0 s t.
  rewrite seb_shift.
  change (-0.5 * s * (-0.5 * s) - (z0 + t)) with (seb_delta1 a e).
  change (-0.5 * - s * (-0.5 * - s) - (z0 - t)) with (seb_delta2 a e).
  rewrite (csqrt_real_neg (seb_delta2 a e)) by apply seb_delta2_neg.
  reflexivity.
Qed.

End WithRoot.

End SEBQuartic.

(* ================================================================== *)
(** * Root selection for the energy-balance quartic *)

Section Selection.

Lemma selected_real_pos x : 0 < x -> np_isreal (RtoC x) && np_gt0 (RtoC x) = true.
Proof.
  intros Hx. unfold np_isreal, np_gt0, RtoC, Re, Im. cbn [fst snd].
  rewrite Reqb_true by reflexivity.
  destruct (Rlt_dec 0 x); [reflexivity | lra].
Qed.

Lemma selected_real_nonpos x :
  x <= 0 -> np_isreal (RtoC x) && np_gt0 (RtoC x) = false.
Proof.
  intros Hx. unfold np_isreal, np_gt0, RtoC, Re, Im. cbn [fst snd].
  rewrite Reqb_true by reflexivity.
  destruct (Rlt_dec 0 x); [lra |].
  destruct (Req_dec_T x 0); [| reflexivity].
  destruct (Rlt_dec 0 0); [lra | reflexivity].
Qed.

Lemma selected_not_real z : Im z <> 0 -> np_isreal z && np_gt0 z = false.
Proof.
  intros Hz. unfold np_isreal. rewrite Reqb_false by assumption. reflexivity.
Qed.

Lemma quartic_roots_row G a0 b0 c0 d0 e0 r0 r1 r2 r3 :
  FQS.single_quartic G a0 b0 c0 d0 e0 = Ok (r0, r1, r2, r3) ->
  FQS.quartic_roots G (FQS.Arr1 [a0; b0; c0; d0; e0]) = Ok [[r0; r1; r2; r3]].
Proof.
  intros H. unfold FQS.quartic_roots, FQS.quartic_single_path. cbn.
  rewrite H. reflexivity.
Qed.

Lemma quartic_roots_row_raise G a0 b0 c0 d0 e0 ex :
  FQS.single_quartic G a0 b0 c0 d0 e0 = Raise ex ->
  FQS.quartic_roots G (FQS.Arr1 [a0; b0; c0; d0; e0]) = Raise ex.
Proof.
  intros H. unfold FQS.quartic_roots, FQS.quartic_single_path. cbn.
  rewrite H. reflexivity.
Qed.

(** Without [math] the solver stops in the middle branch of the subsidiary
    cubic. *)
Lemma single_quartic_no_math a0 b0 c0 d0 e0 :
  a0 <> 0 ->
  let a := b0 / a0 in let b := c0 / a0 in
  let c := d0 / a0 in let d := e0 / a0 in
  let p := FQS.quartic_p a b in
  let q := FQS.quartic_q a b c in
  let r := FQS.quartic_r a b c d in
  ferrari_h a b c d <= 0 ->
  cubic_g p r (p * r - 0.5 * q * q) <> 0 ->
  FQS.single_quartic module_globals a0 b0 c0 d0 e0 = Raise (NameError "math").
Proof.
  intros Ha a b c d p q r Hh Hg. unfold FQS.single_quartic.
  rewrite !pydiv_ok by assumption. cbn [bind].
  fold a b c d. fold p q r.
  rewrite single_cubic_one_trig_no_math; rewrite ?Rdiv_1_r;
    [reflexivity | lra | exact Hh | tauto].
Qed.

Variables a : R.
Hypothesis Ha : 0 < a.

Lemma seb_root_pos_root e :
  e < 0 ->
  0 < seb_root a e /\ quartic_poly a 0 0 1 e (seb_root a e) = 0.
Proof.
  intros He.
  pose proof (seb_neg_h_pos a e Ha (Rlt_le _ _ He)) as Hh.
  destruct (seb_facts a e Ha Hh) as (Hz & Hs & Ht & Ess & Ezt).
  pose proof (ferrari_factor (0 / a) (0 / a) (1 / a) (e / a)
                (seb_root a e + 0) (Rlt_le _ _ Hh) (seb_s_arg a e Ha Hh)) as Hf.
  cbv zeta in Hf. rewrite (seb_shift a Ha) in Hf.
  unfold seb_root, seb_delta1 in *.
  set (z0 := ferrari_z0 (0 / a) (0 / a) (1 / a) (e / a)) in *.
  set (s := ferrari_s (0 / a) (0 / a) (1 / a) (e / a)) in *.
  set (t := ferrari_t (0 / a) (0 / a) (1 / a) (e / a)) in *.
  assert (Hneg : z0 + t < 0).
  { assert (Hea : e / a < 0).
    { unfold Rdiv. assert (0 < / a) by (apply Rinv_0_lt_compat; lra). nra. }
    assert (0 < z0 - t) by lra. nra. }
  set (d1 := -0.5 * s * (-0.5 * s) - (z0 + t)) in *.
  assert (Hd1 : 0.25 * s * s < d1) by (unfold d1; decimals; lra).
  assert (Hd0 : 0 <= d1) by (decimals; nra).
  pose proof (sqrt_sqrt d1 Hd0) as Hsq. pose proof (sqrt_pos d1) as Hsp.
  set (w := sqrt d1) in *.
  assert (Hws : 0.5 * s < w).
  { destruct (Rlt_or_le (0.5 * s) w) as [H | H]; [exact H |].
    assert (w * w <= 0.5 * s * (0.5 * s)) by (decimals; nra).
    decimals. lra. }
  split; [decimals; lra |].
  assert (Hq1 : (-0.5 * s + w - 0 + 0) ^ 2 + s * (-0.5 * s + w - 0 + 0) + (z0 + t) = 0).
  { unfold d1 in Hsq. decimals. nra. }
  rewrite Hq1, Rmult_0_l in Hf.
  replace (-0.5 * s + w - 0 + 0 - 0) with (-0.5 * s + w - 0) in Hf by ring.
  unfold quartic_poly in *.
  assert (E : a * (-0.5 * s + w - 0) ^ 4 + 0 * (-0.5 * s + w - 0) ^ 3
              + 0 * (-0.5 * s + w - 0) ^ 2 + 1 * (-0.5 * s + w - 0) + e
              = a * (1 * (-0.5 * s + w - 0) ^ 4
                     + 0 / a * (-0.5 * s + w - 0) ^ 3
                     + 0 / a * (-0.5 * s + w - 0) ^ 2
                     + 1 / a * (-0.5 * s + w - 0) + e / a)) by (field; lra).
  rewrite E, Hf. ring.
Qed.

End Selection.

Section SolveTnew.

Variable G : Globals.
Variables a : R.
Hypothesis Ha : 0 < a.

Lemma Im_pair_ne x v w : 0 < v -> Im (RtoC x - Cimag v - RtoC w)%C <> 0.
Proof. intros Hv. unfold Csub, RtoC, Cimag, Re, Im. cbn [fst snd]. lra. Qed.

Lemma Im_pair_ne' x v w : 0 < v -> Im (RtoC x + Cimag v - RtoC w)%C <> 0.
Proof.
  intros Hv. unfold Csub, Cadd, RtoC, Cimag, Re, Im. cbn [fst snd]. lra.
Qed.

(** e < 0: the roots are one negative real, one positive real and a
    complex pair; the loop selects the positive real one. *)
Lemma seb_selection_neg e :
  e < 0 ->
  exists r,
    FQS.quartic_roots G (FQS.Arr1 [a; 0; 0; 1; e]) = Ok r
    /\ map Re (filter (fun z => np_isreal z && np_gt0 z) (List.concat r))
       = [seb_root a e].
Proof.
  intros He.
  pose proof (seb_neg_h_pos a e Ha (Rlt_le _ _ He)) as Hh.
  destruct (seb_facts a e Ha Hh) as (Hz & Hs & Ht & Ess & Ezt).
  pose proof (seb_delta2_neg a e Ha Hh) as Hd2.
  destruct (seb_root_pos_root a Ha e He) as [Hpos _].
  pose proof (single_quartic_ferrari G a 0 0 1 e (Rgt_not_eq _ _ Ha) Hh
                (seb_s_arg a e Ha Hh)) as Hq.
  rewrite (seb_roots_eq a e Ha Hh) in Hq.
  eexists. split; [exact (quartic_roots_row _ _ _ _ _ _ _ _ _ _ Hq) |].
  unfold seb_root in *.
  set (z0 := ferrari_z0 (0 / a) (0 / a) (1 / a) (e / a)) in *.
  set (s := ferrari_s (0 / a) (0 / a) (1 / a) (e / a)) in *.
  set (t := ferrari_t (0 / a) (0 / a) (1 / a) (e / a)) in *.
  assert (Hd1 : 0 <= seb_delta1 a e).
  { unfold seb_delta1. fold z0 s t.
    assert (Hea : e / a < 0).
    { unfold Rdiv. assert (0 < / a) by (apply Rinv_0_lt_compat; lra). nra. }
    assert (z0 + t < 0) by nra. decimals. nra. }
  pose proof (sqrt_pos (seb_delta1 a e)) as Hw.
  assert (Hv : 0 < sqrt (- seb_delta2 a e)) by (apply sqrt_lt_R0; lra).
  cbn [List.concat app filter].
  rewrite (csqrt_real_nonneg _ Hd1), RtoC_add, !RtoC_sub.
  rewrite (selected_real_nonpos (-0.5 * s - sqrt (seb_delta1 a e) - 0))
    by (decimals; lra).
  rewrite (selected_real_pos _ Hpos).
  rewrite (selected_not_real _ (Im_pair_ne _ _ _ Hv)).
  rewrite (selected_not_real _ (Im_pair_ne' _ _ _ Hv)).
  reflexivity.
Qed.

(** 0 <= e with the subsidiary cubic in its last branch: no root is real
    and positive. *)
Lemma seb_selection_nonneg e :
  0 <= e -> 256 * a * e ^ 3 < 27 ->
  exists r,
    FQS.quartic_roots G (FQS.Arr1 [a; 0; 0; 1; e]) = Ok r
    /\ filter (fun z => np_isreal z && np_gt0 z) (List.concat r) = [].
Proof.
  intros He Hlt.
  pose proof (seb_h_pos a e Ha Hlt) as Hh.
  destruct (seb_facts a e Ha Hh) as (Hz & Hs & Ht & Ess & Ezt).
  pose proof (seb_delta2_neg a e Ha Hh) as Hd2.
  pose proof (single_quartic_ferrari G a 0 0 1 e (Rgt_not_eq _ _ Ha) Hh
                (seb_s_arg a e Ha Hh)) as Hq.
  rewrite (seb_roots_eq a e Ha Hh) in Hq.
  eexists. split; [exact (quartic_roots_row _ _ _ _ _ _ _ _ _ _ Hq) |].
  set (z0 := ferrari_z0 (0 / a) (0 / a) (1 / a) (e / a)) in *.
  set (s := ferrari_s (0 / a) (0 / a) (1 / a) (e / a)) in *.
  set (t := ferrari_t (0 / a) (0 / a) (1 / a) (e / a)) in *.
  assert (Hv : 0 < sqrt (- seb_delta2 a e)) by (apply sqrt_lt_R0; lra).
  assert (Hzt : 0 <= z0 + t).
  { assert (Hea : 0 <= e / a).
    { unfold Rdiv. assert (0 < / a) by (apply Rinv_0_lt_compat; lra). nra. }
    destruct (Rle_or_lt 0 (z0 + t)) as [H | H]; [exact H |].
    assert (0 < z0 - t) by lra. nra. }
  assert (Hle : seb_delta1 a e <= 0.5 * s * (0.5 * s)).
  { unfold seb_delta1. fold z0 s t. decimals. lra. }
  cbn [List.concat app filter].
  rewrite (selected_not_real _ (Im_pair_ne _ _ _ Hv)).
  rewrite (selected_not_real _ (Im_pair_ne' _ _ _ Hv)).
  destruct (Rle_or_lt 0 (seb_delta1 a e)) as [Hd1 | Hd1].
  - pose proof (sqrt_pos (seb_delta1 a e)) as Hw.
    pose proof (sqrt_sqrt _ Hd1) as Hsq.
    assert (Hws : sqrt (seb_delta1 a e) <= 0.5 * s).
    { destruct (Rle_or_lt (sqrt (seb_delta1 a e)) (0.5 * s)) as [H | H];
        [exact H |].
      assert (0.5 * s * (0.5 * s) < sqrt (seb_delta1 a e) * sqrt (seb_delta1 a e))
        by (decimals; nra).
      lra. }
    rewrite (csqrt_real_nonneg _ Hd1), RtoC_add, !RtoC_sub.
    rewrite !selected_real_nonpos by (decimals; lra).
    reflexivity.
  - assert (Hu : 0 < sqrt (- seb_delta1 a e)) by (apply sqrt_lt_R0; lra).
    rewrite (csqrt_real_neg _ Hd1).
    rewrite (selected_not_real _ (Im_pair_ne _ _ _ Hu)).
    rewrite (selected_not_real _ (Im_pair_ne' _ _ _ Hu)).
    reflexivity.
Qed.

Lemma solve_Tnew_neg e :
  e < 0 -> solve_Tnew G a (Fin e) = Ok [Fin (seb_root a e)].
Proof.
  intros He. destruct (seb_selection_neg e He) as (r & Hr & Hsel).
  unfold solve_Tnew, pmat_of. cbn [map]. rewrite Hr. cbn [bind].
  unfold select_Tnew. rewrite Hsel. reflexivity.
Qed.


Lemma solve_Tnew_nan : solve_Tnew G a NaN = Ok [].
Proof.
  destruct (seb_selection_nonneg 0 (Rle_refl 0)) as (r & Hr & Hsel); [lra |].
  unfold solve_Tnew, pmat_of. cbn [map]. rewrite Hr. cbn [bind].
  unfold select_Tnew. rewrite Hsel. reflexivity.
Qed.

End SolveTnew.

Lemma Cquartic_poly_real a0 b0 c0 d0 e0 x :
  Cquartic_poly a0 b0 c0 d0 e0 (RtoC x) = RtoC (quartic_poly a0 b0 c0 d0 e0 x).
Proof.
  unfold Cquartic_poly, quartic_poly.
  rewrite !RtoC_mul, !RtoC_add. f_equal. ring.
Qed.

Lemma selected_inv z :
  np_isreal z && np_gt0 z = true -> exists x, z = RtoC x /\ 0 < x.
Proof.
  destruct z as [x y]. unfold np_isreal, np_gt0, Reqb, Re, Im. cbn [fst snd].
  destruct (Req_dec_T y 0) as [-> | Hy]; [| discriminate].
  cbn [andb]. intros H. exists x. split; [reflexivity |].
  destruct (Rlt_dec 0 x) as [Hx | Hx]; [exact Hx |].
  destruct (Req_dec_T x 0); [| discriminate].
  destruct (Rlt_dec 0 0); [lra | discriminate].
Qed.

(** A root of a T^4 + T + e with e >= 0 is not selected. *)
Lemma nonneg_e_root_not_selected a e z :
  0 < a -> 0 <= e ->
  Cquartic_poly a 0 0 1 e z = RtoC 0 -> np_isreal z && np_gt0 z = false.
Proof.
  intros Ha He Hz. destruct (np_isreal z && np_gt0 z) eqn:E; [| reflexivity].
  exfalso. destruct (selected_inv z E) as (x & -> & Hx).
  rewrite Cquartic_poly_real in Hz. apply RtoC_inj in Hz.
  unfold quartic_poly in Hz.
  assert (0 < a * x ^ 4) by (apply Rmult_lt_0_compat; [| apply pow_lt]; lra).
  lra.
Qed.

(** e >= 0, in either namespace: if the solver returns, nothing is
    selected. *)
Lemma solve_Tnew_nonneg_known G a e Tnew :
  known_globals G -> 0 < a -> 0 <= e ->
  solve_Tnew G a (Fin e) = Ok Tnew -> Tnew = [].
Proof.
  intros HG Ha He H. unfold solve_Tnew, pmat_of in H. cbn [map] in H.
  inv_bind H. rename a0 into roots. injection H as <-.
  unfold FQS.quartic_roots, FQS.quartic_single_path in E.
  cbn [FQS.as_rows List.length Nat.eqb negb Nat.ltb Nat.leb mapM] in E.
  destruct (FQS.single_quartic G a 0 0 1 e) as [[[[r0 r1] r2] r3] |] eqn:E0;
    cbn [bind] in E; [| discriminate E].
  injection E as <-.
  assert (Hnd : forall z0,
             FQS.single_cubic_one G 1 (FQS.quartic_p (0 / a) (0 / a))
               (FQS.quartic_r (0 / a) (0 / a) (1 / a) (e / a))
               (FQS.quartic_p (0 / a) (0 / a)
                * FQS.quartic_r (0 / a) (0 / a) (1 / a) (e / a)
                - 0.5 * FQS.quartic_q (0 / a) (0 / a) (1 / a)
                  * FQS.quartic_q (0 / a) (0 / a) (1 / a)) = Ok z0 ->
             2 * FQS.quartic_p (0 / a) (0 / a) + 2 * Re z0 <> 0).
  { intros z0 Hz0.
    destruct (single_cubic_one_real_root G _ _ _ _ z0 HG Hz0)
      as (x & -> & _ & Hx).
    rewrite !Rdiv_1_r in Hx. change (Re (RtoC x)) with x.
    pose proof (seb_q_pos a Ha) as Hq.
    rewrite (seb_p a Ha) in *. unfold cubic_poly in Hx.
    intros E. assert (x = 0) by lra. subst x.
    set (q := FQS.quartic_q (0 / a) (0 / a) (1 / a)) in *.
    assert (0 < q * q) by (apply Rmult_lt_0_compat; assumption).
    decimals. lra. }
  destruct (single_quartic_roots_nondegenerate G a 0 0 1 e r0 r1 r2 r3 HG E0
              Hnd) as (H0 & H1 & H2 & H3).
  unfold select_Tnew. cbn [List.concat app filter isnan].
  rewrite !(nonneg_e_root_not_selected a e) by assumption.
  reflexivity.
Qed.

Lemma solve_Tnew_no_math a e :
  0 < a -> 27 <= 256 * a * e ^ 3 ->
  solve_Tnew module_globals a (Fin e) = Raise (NameError "math").
Proof.
  intros Ha Hge. unfold solve_Tnew, pmat_of. cbn [map].
  rewrite (quartic_roots_row_raise module_globals a 0 0 1 e (NameError "math"));
    [reflexivity |].
  apply single_quartic_no_math; [lra | |].
  - apply seb_h_nonpos; assumption.
  - rewrite (seb_p a Ha), (seb_q a Ha). unfold cubic_g, third.
    assert (0 < / (2 * a)) by (apply Rinv_0_lt_compat; lra).
    decimals. nra.
Qed.

(* ================================================================== *)
(** * The degenerate branch s = 0: the equations x^4 - k = 0 *)

Section Degenerate.

Variable G : Globals.

Lemma cardano_root_biquadratic k :
  0 < k -> cardano_root 0 k (0 * k - 0.5 * 0 * 0) = 0.
Proof.
  intros Hk. unfold cardano_root.
  assert (Eg : cubic_g 0 k (0 * k - 0.5 * 0 * 0) = 0).
  { unfold cubic_g, third. decimals. field. }
  rewrite Eg.
  replace (-0.5 * 0 + sqrt (cubic_h 0 k (0 * k - 0.5 * 0 * 0)))
    with (sqrt (cubic_h 0 k (0 * k - 0.5 * 0 * 0))) by (decimals; field).
  replace (-0.5 * 0 - sqrt (cubic_h 0 k (0 * k - 0.5 * 0 * 0)))
    with (- sqrt (cubic_h 0 k (0 * k - 0.5 * 0 * 0))) by (decimals; field).
  rewrite cubic_root_float_opp. unfold third. field.
Qed.

Lemma cubic_h_biquadratic k :
  0 < k -> 0 < cubic_h 0 k (0 * k - 0.5 * 0 * 0).
Proof.
  intros Hk. unfold cubic_h, cubic_g, cubic_f, third.
  assert (0 < k * k * k) by (repeat apply Rmult_lt_0_compat; assumption).
  decimals. lra.
Qed.

(** [single_quartic(1, 0, 0, 0, -k)] for k > 0: z0 = 0, s = 0 and
    t = z0*z0 + r = k, so the two quadratics are y^2 + k and y^2 - k. *)
Lemma single_quartic_x4_minus_k k :
  0 < k ->
  FQS.single_quartic G 1 0 0 0 (- k)
  = Ok ((0, - sqrt k), (0, sqrt k), (- sqrt k, 0), (sqrt k, 0)).
Proof.
  intros Hk. unfold FQS.single_quartic.
  rewrite !pydiv_ok by lra. cbn [bind].
  assert (Ep : FQS.quartic_p (0 / 1) (0 / 1) = 0)
    by (unfold FQS.quartic_p; decimals; field).
  assert (Eq : FQS.quartic_q (0 / 1) (0 / 1) (0 / 1) = 0)
    by (unfold FQS.quartic_q; decimals; field).
  assert (Er : FQS.quartic_r (0 / 1) (0 / 1) (0 / 1) (- k / 1) = k)
    by (unfold FQS.quartic_r; decimals; field).
  assert (Es : FQS.quartic_shift (0 / 1) = 0)
    by (unfold FQS.quartic_shift; decimals; field).
  rewrite Ep, Eq, Er, Es.
  rewrite single_cubic_one_cardano; rewrite ?Rdiv_1_r;
    [| lra | apply cubic_h_biquadratic; assumption].
  rewrite (cardano_root_biquadratic k Hk). cbn [bind].
  change (Re (RtoC 0)) with 0.
  replace (2 * 0 + 2 * 0) with 0 by ring.
  rewrite Cadd_0j, csqrt_real_nonneg, sqrt_0 by lra.
  destruct (C_eq_dec (RtoC 0) (RtoC 0)) as [_ | H]; [| congruence].
  cbn [bind].
  rewrite RtoC_mul, !RtoC_add, RtoC_opp, RtoC_sub, !single_quadratic_real.
  cbn [bind]. unfold quadratic_pair.
  rewrite (csqrt_real_neg (-0.5 * 0 * (-0.5 * 0) - (0 + (0 * 0 + k))))
    by (decimals; lra).
  rewrite (csqrt_real_nonneg (-0.5 * - 0 * (-0.5 * - 0) - (0 - (0 * 0 + k))))
    by (decimals; lra).
  replace (- (-0.5 * 0 * (-0.5 * 0) - (0 + (0 * 0 + k)))) with k
    by (decimals; field).
  replace (-0.5 * - 0 * (-0.5 * - 0) - (0 - (0 * 0 + k))) with k
    by (decimals; field).
  unfold Csub, Cadd, RtoC, Cimag, Re, Im. cbn [fst snd].
  repeat f_equal; decimals; field.
Qed.

End Degenerate.

(* ================================================================== *)
(** * Which exceptions the solvers can raise *)

Section Exceptions.

Lemma raises_only_ok {A} P (a : A) : raises_only P (Ok a).
Proof. intros ex H. discriminate. Qed.

Lemma raises_only_raise {A} (P : exn -> Prop) ex :
  P ex -> raises_only P (@Raise A ex).
Proof. intros H ex' E. injection E as <-. exact H. Qed.

Lemma raises_only_bind {A B} P (c : result A) (k : A -> result B) :
  raises_only P c -> (forall a, c = Ok a -> raises_only P (k a)) ->
  raises_only P (bind c k).
Proof.
  intros Hc Hk ex. destruct c as [a | e]; cbn [bind].
  - exact (Hk a eq_refl ex).
  - intros E. apply (Hc ex). congruence.
Qed.

Lemma raises_only_mapM {A B} P (f : A -> result B) l :
  (forall x, raises_only P (f x)) -> raises_only P (mapM f l).
Proof.
  intros Hf. induction l as [| x l IH]; cbn [mapM].
  - apply raises_only_ok.
  - apply raises_only_bind; [apply Hf |]. intros y _.
    apply raises_only_bind; [exact IH |]. intros ys _. apply raises_only_ok.
Qed.

Lemma raises_only_map2M {A B D} P (f : A -> B -> result D) x y :
  (forall a b, raises_only P (f a b)) -> raises_only P (map2M f x y).
Proof.
  intros Hf. revert y. induction x as [| a x IH]; intros [| b y]; cbn [map2M];
    try apply raises_only_ok.
  apply raises_only_bind; [apply Hf |]. intros d _.
  apply raises_only_bind; [apply IH |]. intros ds _. apply raises_only_ok.
Qed.

Lemma pydiv_exn x y : raises_only solver_exn (pydiv x y).
Proof.
  unfold pydiv. destruct (Req_dec_T y 0).
  - apply raises_only_raise. left. reflexivity.
  - apply raises_only_ok.
Qed.

Lemma pycdiv_exn z w : raises_only solver_exn (pycdiv z w).
Proof.
  unfold pycdiv. destruct (C_eq_dec w (RtoC 0)).
  - apply raises_only_raise. left. reflexivity.
  - apply raises_only_ok.
Qed.

Lemma lookup_math_exn G : raises_only solver_exn (lookup_math G).
Proof.
  unfold lookup_math. destruct (g_math G).
  - apply raises_only_ok.
  - apply raises_only_raise. right. left. reflexivity.
Qed.

Lemma lookup_math_known G m :
  known_globals G -> lookup_math G = Ok m -> m = python_math.
Proof.
  intros [-> | ->]; unfold lookup_math; cbn; congruence.
Qed.

Lemma python_sqrt_exn x : raises_only solver_exn (math_sqrt python_math x).
Proof.
  cbn. destruct (Rlt_dec x 0).
  - apply raises_only_raise. unfold solver_exn. tauto.
  - apply raises_only_ok.
Qed.

Lemma python_acos_exn x : raises_only solver_exn (math_acos python_math x).
Proof.
  cbn. destruct (Rlt_dec x (-1)); [| destruct (Rlt_dec 1 x)];
    try (apply raises_only_raise; unfold solver_exn; tauto).
  apply raises_only_ok.
Qed.

Ltac exn_step :=
  first
    [ apply raises_only_ok
    | apply pydiv_exn
    | apply pycdiv_exn
    | apply python_sqrt_exn
    | apply python_acos_exn
    | apply raises_only_raise; unfold solver_exn; tauto
    | apply raises_only_mapM; intros
    | apply raises_only_map2M; intros
    | match goal with
      | HG : known_globals ?G |- raises_only _ (bind (lookup_math ?G) _) =>
          let m := fresh "m" in
          let Hm := fresh "Hm" in
          apply raises_only_bind;
          [ apply lookup_math_exn
          | intros m Hm; rewrite (lookup_math_known G m HG Hm) ]
      end
    | apply raises_only_bind; [| intros ? ?]
    | match goal with
      | |- raises_only _ (if ?c then _ else _) => destruct c
      | |- raises_only _ (match ?c with _ => _ end) => destruct c
      end ].

Ltac exn_solve := cbv zeta; repeat exn_step.

Lemma single_quadratic_exn a0 b0 c0 :
  raises_only solver_exn (FQS.single_quadratic a0 b0 c0).
Proof. unfold FQS.single_quadratic. exn_solve. Qed.

Lemma single_cubic_one_exn G a0 b0 c0 d0 :
  known_globals G ->
  raises_only solver_exn (FQS.single_cubic_one G a0 b0 c0 d0).
Proof. intros HG. unfold FQS.single_cubic_one. exn_solve. Qed.

Lemma single_cubic_exn G a0 b0 c0 d0 :
  known_globals G ->
  raises_only solver_exn (FQS.single_cubic G a0 b0 c0 d0).
Proof. intros HG. unfold FQS.single_cubic. exn_solve. Qed.

Lemma single_quartic_exn G a0 b0 c0 d0 e0 :
  known_globals G ->
  raises_only solver_exn (FQS.single_quartic G a0 b0 c0 d0 e0).
Proof.
  intros HG. unfold FQS.single_quartic.
  apply raises_only_bind; [apply pydiv_exn | intros a _].
  apply raises_only_bind; [apply pydiv_exn | intros b _].
  apply raises_only_bind; [apply pydiv_exn | intros c _].
  apply raises_only_bind; [apply pydiv_exn | intros d _].
  apply raises_only_bind; [apply single_cubic_one_exn; exact HG |].
  intros z0 _.
  apply raises_only_bind; [exn_solve |]. intros t _.
  apply raises_only_bind; [apply single_quadratic_exn |]. intros [r0 r1] _.
  apply raises_only_bind; [apply single_quadratic_exn |]. intros [r2 r3] _.
  exn_step.
Qed.

Lemma np_sqrt_exn x : raises_only solver_exn (np_sqrt x).
Proof. unfold np_sqrt. exn_solve. Qed.

Lemma np_arccos_exn x : raises_only solver_exn (np_arccos x).
Proof. unfold np_arccos. exn_solve. Qed.

Lemma arr_div_exn x y : raises_only solver_exn (arr_div x y).
Proof. unfold arr_div. exn_solve. Qed.

Lemma multi_quadratic_exn a0 b0 c0 :
  raises_only solver_exn (FQS.multi_quadratic a0 b0 c0).
Proof. unfold FQS.multi_quadratic. exn_solve. Qed.

Lemma roots_all_real_distinct_exn sqr3 a13 f g :
  raises_only solver_exn (FQS.roots_all_real_distinct sqr3 a13 f g).
Proof.
  unfold FQS.roots_all_real_distinct.
  apply raises_only_bind; [apply np_sqrt_exn | intros j _].
  apply raises_only_bind; [apply arr_div_exn | intros x _].
  apply raises_only_bind; [apply np_arccos_exn | intros k _].
  apply raises_only_ok.
Qed.

Lemma roots_one_real_exn sqr3 a13 g h :
  raises_only solver_exn (FQS.roots_one_real sqr3 a13 g h).
Proof.
  unfold FQS.roots_one_real.
  apply raises_only_bind; [apply np_sqrt_exn | intros sqrt_h _].
  apply raises_only_ok.
Qed.

Lemma multi_cubic_exn G a0 b0 c0 d0 all_roots :
  known_globals G ->
  raises_only solver_exn (FQS.multi_cubic G a0 b0 c0 d0 all_roots).
Proof.
  intros HG. unfold FQS.multi_cubic.
  apply raises_only_bind; [apply arr_div_exn | intros a _].
  apply raises_only_bind; [apply arr_div_exn | intros b _].
  apply raises_only_bind; [apply arr_div_exn | intros c _].
  apply raises_only_bind; [apply lookup_math_exn | intros m Hm].
  rewrite (lookup_math_known G m HG Hm).
  apply raises_only_bind; [apply python_sqrt_exn | intros sqr3 _].
  apply raises_only_bind; [apply roots_all_real_distinct_exn |].
  intros [[d1 d2] d3] _.
  apply raises_only_bind; [apply roots_one_real_exn |].
  intros [[o1 o2] o3] _.
  destruct all_roots; apply raises_only_ok.
Qed.

Lemma multi_quartic_exn G a0 b0 c0 d0 e0 :
  known_globals G ->
  raises_only solver_exn (FQS.multi_quartic G a0 b0 c0 d0 e0).
Proof.
  intros HG. unfold FQS.multi_quartic.
  apply raises_only_bind; [apply arr_div_exn | intros a _].
  apply raises_only_bind; [apply arr_div_exn | intros b _].
  apply raises_only_bind; [apply arr_div_exn | intros c _].
  apply raises_only_bind; [apply arr_div_exn | intros d _].
  apply raises_only_bind; [apply multi_cubic_exn; exact HG |].
  intros [r1 r2 r3 | z0] _.
  - apply raises_only_raise. unfold solver_exn. tauto.
  - apply raises_only_bind; [exn_solve | intros tn _].
    apply raises_only_bind; [apply multi_quadratic_exn | intros [r0 r1] _].
    apply raises_only_bind; [apply multi_quadratic_exn | intros [r2 r3] _].
    apply raises_only_ok.
Qed.

(** Past the shape check the dispatchers raise solver exceptions only. *)
Lemma cubic_roots_exn G p :
  known_globals G -> fst (FQS.as_rows p) = 4%nat ->
  raises_only solver_exn (FQS.cubic_roots G p).
Proof.
  intros HG Hw. unfold FQS.cubic_roots, FQS.cubic_single_path,
    FQS.cubic_batched_path.
  destruct (FQS.as_rows p) as [ncols rows]. cbn [fst] in Hw. subst ncols.
  cbn [Nat.eqb negb].
  destruct (List.length rows <? 100)%nat.
  - apply raises_only_mapM. intros pi.
    destruct pi as [| a0 [| b0 [| c0 [| d0 [| ? ?]]]]];
      try (apply raises_only_raise; unfold solver_exn; tauto).
    apply raises_only_bind; [apply single_cubic_exn; exact HG |].
    intros [[r1 r2] r3] _. apply raises_only_ok.
  - apply raises_only_bind; [apply multi_cubic_exn; exact HG |].
    intros [r1 r2 r3 | r] _.
    + apply raises_only_ok.
    + apply raises_only_raise. unfold solver_exn. tauto.
Qed.

Lemma quartic_roots_exn G p :
  known_globals G -> fst (FQS.as_rows p) = 5%nat ->
  raises_only solver_exn (FQS.quartic_roots G p).
Proof.
  intros HG Hw. unfold FQS.quartic_roots, FQS.quartic_single_path,
    FQS.quartic_batched_path.
  destruct (FQS.as_rows p) as [ncols rows]. cbn [fst] in Hw. subst ncols.
  cbn [Nat.eqb negb].
  destruct (List.length rows <? 100)%nat.
  - apply raises_only_mapM. intros pi.
    destruct pi as [| a0 [| b0 [| c0 [| d0 [| e0 [| ? ?]]]]]];
      try (apply raises_only_raise; unfold solver_exn; tauto).
    apply raises_only_bind; [apply single_quartic_exn; exact HG |].
    intros [[[r0 r1] r2] r3] _. apply raises_only_ok.
  - apply raises_only_bind; [apply multi_quartic_exn; exact HG |].
    intros [[[r0 r1] r2] r3] _. apply raises_only_ok.
Qed.

Lemma shape_error_not_solver_exn n :
  ~ solver_exn (FQS.cubic_shape_error n)
  /\ ~ solver_exn (FQS.quartic_shape_error n).
Proof.
  unfold solver_exn, FQS.cubic_shape_error, FQS.quartic_shape_error,
    math_domain_error.
  split; intros [H | [H | [H | [H | H]]]]; try discriminate H;
    cbn in H; discriminate H.
Qed.

End Exceptions.

(* ================================================================== *)
(** * The batched solvers without [math] *)

Section BatchedNoMath.

Lemma arr_div_ok x y :
  Forall (fun v => v <> 0) y -> exists r, arr_div x y = Ok r.
Proof.
  intros Hy. unfold arr_div. revert x.
  induction Hy as [| b y Hb _ IH]; intros [| a x];
    try (eexists; reflexivity).
  destruct (IH x) as [r Hr]. exists (a / b :: r).
  cbn [map2M]. rewrite pydiv_ok by assumption. cbn [bind].
  rewrite Hr. reflexivity.
Qed.

Lemma Forall_ones {A} (p : list A) :
  Forall (fun v => v <> 0) (map (fun _ => 1) p).
Proof. induction p; cbn [map]; constructor; [lra | assumption]. Qed.

(** [multi_cubic] stops at [sqr3 = math.sqrt(3)], whatever [all_roots]. *)
Lemma multi_cubic_no_math a0 b0 c0 d0 all_roots :
  Forall (fun v => v <> 0) a0 ->
  FQS.multi_cubic module_globals a0 b0 c0 d0 all_roots
  = Raise (NameError "math").
Proof.
  intros Ha. unfold FQS.multi_cubic.
  destruct (arr_div_ok b0 a0 Ha) as [a ->].
  destruct (arr_div_ok c0 a0 Ha) as [b ->].
  destruct (arr_div_ok d0 a0 Ha) as [c ->].
  reflexivity.
Qed.

Lemma multi_quartic_no_math a0 b0 c0 d0 e0 :
  Forall (fun v => v <> 0) a0 ->
  FQS.multi_quartic module_globals a0 b0 c0 d0 e0 = Raise (NameError "math").
Proof.
  intros Ha. unfold FQS.multi_quartic.
  destruct (arr_div_ok b0 a0 Ha) as [a ->].
  destruct (arr_div_ok c0 a0 Ha) as [b ->].
  destruct (arr_div_ok d0 a0 Ha) as [c ->].
  destruct (arr_div_ok e0 a0 Ha) as [d ->].
  cbn [bind]. rewrite multi_cubic_no_math by apply Forall_ones.
  reflexivity.
Qed.

(** [single_cubic] stops at the same line. *)
Lemma single_cubic_no_math a0 b0 c0 d0 :
  a0 <> 0 ->
  FQS.single_cubic module_globals a0 b0 c0 d0 = Raise (NameError "math").
Proof.
  intros Ha. unfold FQS.single_cubic. rewrite !pydiv_ok by assumption.
  reflexivity.
Qed.

(** Every batch of 100 or more quartics with non-zero leading
    coefficients ends in [NameError]. *)
Lemma quartic_roots_batched_no_math rows :
  (100 <= List.length rows)%nat ->
  Forall (fun row => nth 0 row 0 <> 0) rows ->
  FQS.quartic_roots module_globals (FQS.Arr2 5 rows)
  = Raise (NameError "math").
Proof.
  intros Hlen Hrows. unfold FQS.quartic_roots, FQS.quartic_batched_path.
  cbn [FQS.as_rows Nat.eqb negb].
  destruct (Nat.ltb_spec (List.length rows) 100) as [H | _]; [lia |].
  rewrite multi_quartic_no_math; [reflexivity |].
  unfold FQS.column. apply Forall_map. exact Hrows.
Qed.

End BatchedNoMath.

(* ================================================================== *)
(** * The solvers and their dispatchers: the claims *)

(** C1.  The claim: every root [single_quartic] returns satisfies the
    quartic, the degenerate case s = 0 included.  On x^4 - 16 = 0 the
    subsidiary cubic gives z0 = 0, so s = 0 and the code takes
    t = z0*z0 + r = 16, where the factorisation needs t*t = z0*z0 + r;
    it returns -4i, 4i, -4 and 4, and 4 is not a root: the polynomial is
    240 there. *)
Theorem single_quartic_degenerate_returns_non_root :
  FQS.single_quartic module_globals 1 0 0 0 (-16)
  = Ok ((0, -4), (0, 4), (-4, 0), (4, 0))
  /\ quartic_poly 1 0 0 0 (-16) 4 = 240.
Proof.
  split.
  - replace (-16) with (- (16)) by lra.
    rewrite (single_quartic_x4_minus_k module_globals 16) by lra.
    replace 16 with (4 * 4) by lra. rewrite sqrt_square by lra.
    replace (-4) with (- (4)) by lra. reflexivity.
  - unfold quartic_poly. lra.
Qed.

(** C6.  The claim: the batched and the single-equation path return the
    same roots for the same input.  A batch of 100 copies of
    x^4 - 1 = 0 goes to [multi_quartic], which raises [NameError] at
    [math.sqrt(3)] in [multi_cubic]; the same equation alone goes to
    [single_quartic], which returns -i, i, -1 and 1. *)
Theorem quartic_roots_batched_differs_from_single :
  FQS.quartic_roots module_globals (FQS.Arr2 5 (repeat [1; 0; 0; 0; -1] 100))
  = Raise (NameError "math")
  /\ FQS.quartic_roots module_globals (FQS.Arr1 [1; 0; 0; 0; -1])
     = Ok [[(0, -1); (0, 1); (-1, 0); (1, 0)]].
Proof.
  split.
  - apply quartic_roots_batched_no_math.
    + rewrite repeat_length. lia.
    + apply Forall_forall. intros row Hrow. apply repeat_spec in Hrow.
      subst row. cbn [nth]. lra.
  - apply quartic_roots_row.
    replace (-1) with (- (1)) by lra.
    rewrite (single_quartic_x4_minus_k module_globals 1) by lra.
    rewrite sqrt_1. reflexivity.
Qed.

(** C7.  [cubic_roots] raises its shape error for every input whose rows
    do not have 4 entries and [quartic_roots] for every input whose rows
    do not have 5, whatever the entries are and before any solver runs;
    for rows of the right length neither raises that error. *)
Theorem dispatchers_check_the_shape :
  (forall G p, fst (FQS.as_rows p) <> 4%nat ->
     FQS.cubic_roots G p
     = Raise (FQS.cubic_shape_error (fst (FQS.as_rows p))))
  /\ (forall G p, fst (FQS.as_rows p) <> 5%nat ->
        FQS.quartic_roots G p
        = Raise (FQS.quartic_shape_error (fst (FQS.as_rows p))))
  /\ (forall G p n, known_globals G -> fst (FQS.as_rows p) = 4%nat ->
        FQS.cubic_roots G p <> Raise (FQS.cubic_shape_error n))
  /\ (forall G p n, known_globals G -> fst (FQS.as_rows p) = 5%nat ->
        FQS.quartic_roots G p <> Raise (FQS.quartic_shape_error n)).
Proof.
  repeat split.
  - intros G p Hw. unfold FQS.cubic_roots.
    destruct (FQS.as_rows p) as [ncols rows]. cbn [fst] in *.
    apply Nat.eqb_neq in Hw. rewrite Hw. reflexivity.
  - intros G p Hw. unfold FQS.quartic_roots.
    destruct (FQS.as_rows p) as [ncols rows]. cbn [fst] in *.
    apply Nat.eqb_neq in Hw. rewrite Hw. reflexivity.
  - intros G p n HG Hw E.
    apply (proj1 (shape_error_not_solver_exn n)).
    exact (cubic_roots_exn G p HG Hw _ E).
  - intros G p n HG Hw E.
    apply (proj2 (shape_error_not_solver_exn n)).
    exact (quartic_roots_exn G p HG Hw _ E).
Qed.

(** A cubic given with a trailing zero and a quartic given without its
    constant term are refused; a quartic of five coefficients is not. *)
Lemma dispatchers_check_the_shape_witness :
  FQS.cubic_roots module_globals (FQS.Arr1 [1; 2; 3; 4; 0])
  = Raise (ValueError
             "Expected 3rd order polynomial with 4 coefficients, got 5.")
  /\ FQS.quartic_roots module_globals (FQS.Arr1 [1; 2; 3; 4])
     = Raise (ValueError
                "Expected 4th order polynomial with 5 coefficients, got 4.")
  /\ FQS.cubic_roots module_globals (FQS.Arr1 [1; 2; 3; 4])
     <> Raise (FQS.cubic_shape_error 4)
  /\ FQS.quartic_roots module_globals (FQS.Arr1 [1; 0; 0; 0; -1])
     <> Raise (FQS.quartic_shape_error 5).
Proof.
  destruct dispatchers_check_the_shape as (Hc & Hq & Hc' & Hq').
  split; [| split; [| split]].
  - apply (Hc module_globals (FQS.Arr1 [1; 2; 3; 4; 0])). cbn. lia.
  - apply (Hq module_globals (FQS.Arr1 [1; 2; 3; 4])). cbn. lia.
  - apply Hc'; [left; reflexivity | reflexivity].
  - apply Hq'; [left; reflexivity | reflexivity].
Defined.

(** C10.  The claim: [single_cubic_one] and [multi_cubic] with
    [all_roots=False] return a real value in all three branches.  On
    x^3 - 3x = 0 (f = -1, g = 0, h = -1) [single_cubic_one] takes the
    branch h <= 0, whose first line is [math.sqrt(-f)], and raises
    [NameError]; [multi_cubic] raises it at [math.sqrt(3)] on every
    input. *)
Theorem cubic_one_middle_branch_raises :
  FQS.single_cubic_one module_globals 1 0 (-3) 0 = Raise (NameError "math")
  /\ FQS.multi_cubic module_globals [1] [0] [-3] [0] false
     = Raise (NameError "math").
Proof.
  split.
  - apply single_cubic_one_trig_no_math; [lra | |].
    + unfold cubic_h, cubic_g, cubic_f, third. decimals. lra.
    + unfold cubic_f, third. intros [Hf _]. lra.
  - apply multi_cubic_no_math. repeat constructor. lra.
Qed.

(* ================================================================== *)
(** * The loop of [calcSEB] *)

Section Arrays.

Context {A : Type}.

Lemma list_update_length (x : list A) k v :
  List.length (list_update x k v) = List.length x.
Proof.
  revert k. induction x as [| a x IH]; intros [| k]; cbn; try reflexivity.
  rewrite IH. reflexivity.
Qed.

Lemma nth_error_list_update_eq (x : list A) k v :
  (k < List.length x)%nat -> nth_error (list_update x k v) k = Some v.
Proof.
  revert k. induction x as [| a x IH]; intros [| k] H; cbn in *; try lia.
  - reflexivity.
  - apply IH. lia.
Qed.

Lemma nth_error_list_update_neq (x : list A) k j v :
  j <> k -> nth_error (list_update x k v) j = nth_error x j.
Proof.
  revert k j. induction x as [| a x IH]; intros [| k] [| j] H; cbn;
    try reflexivity; try lia.
  apply IH. lia.
Qed.

Lemma array_set_inv (x : list A) k v x' :
  array_set x k v = Ok x' ->
  (k < List.length x)%nat /\ x' = list_update x k v.
Proof.
  unfold array_set. destruct (Nat.ltb_spec k (List.length x)) as [H | H];
    [| discriminate].
  intros E. injection E as <-. split; [assumption | reflexivity].
Qed.

Lemma array_set_ok (x : list A) k v :
  (k < List.length x)%nat -> array_set x k v = Ok (list_update x k v).
Proof.
  intros H. unfold array_set.
  destruct (Nat.ltb_spec k (List.length x)); [reflexivity | lia].
Qed.

Lemma array_get_inv (x : list A) k v :
  array_get x k = Ok v -> nth_error x k = Some v /\ (k < List.length x)%nat.
Proof.
  unfold array_get. destruct (nth_error x k) eqn:E; [| discriminate].
  intros H. injection H as ->. split; [reflexivity |].
  apply nth_error_Some. congruence.
Qed.

Lemma array_get_ok (x : list A) k v :
  nth_error x k = Some v -> array_get x k = Ok v.
Proof. intros H. unfold array_get. rewrite H. reflexivity. Qed.

End Arrays.

Section Loop.

Variable G : Globals.
Variable flux_df1 : list pyfloat.
Variable dts : list pyfloat.
Variable dt : R.
Variable m : R.

Local Abbreviation step := (calcSEB_step G flux_df1 dts dt m).

Lemma init_state_wf : wf_state flux_df1 (init_state flux_df1).
Proof. unfold wf_state, init_state. cbn. rewrite !length_map. tauto. Qed.

Lemma init_state_nth k :
  (k < List.length flux_df1)%nat ->
  nth_error (TcalcH (init_state flux_df1)) k = Some (Fin 0).
Proof.
  intros H. unfold init_state. cbn [TcalcH].
  destruct (nth_error flux_df1 k) eqn:E.
  - rewrite nth_error_map, E. reflexivity.
  - apply nth_error_None in E. lia.
Qed.

(** What one pass does: the values it reads, the entries it leaves alone
    and the entry it writes. *)
Lemma calcSEB_step_inv st kk st' :
  wf_state flux_df1 st -> step st kk = Ok st' ->
  exists T_0 a F e Tnew,
    calcSEB_T_0 dts (TcalcH st) kk = Ok T_0
    /\ seb_a dt m = Ok a
    /\ array_get flux_df1 kk = Ok F
    /\ seb_e flux_df1 dt m T_0 kk = Ok e
    /\ solve_Tnew G a e = Ok Tnew
    /\ wf_state flux_df1 st'
    /\ (forall j, j <> kk ->
          nth_error (TcalcH st') j = nth_error (TcalcH st) j
          /\ nth_error (meltmassH st') j = nth_error (meltmassH st) j)
    /\ (exists l, stdout st' = stdout st ++ l)
    /\ step_outcome Tnew F dt kk (nth_error (TcalcH st) kk) st'.
Proof.
  intros [HwT HwM] H. unfold calcSEB_step in H.
  inv_bind H. rename a into T_0.
  inv_bind H. inv_bind H. rename a0 into e.
  inv_bind H. rename a0 into Tnew.
  inv_bind H. rename a0 into hot.
  assert (HF : exists F, array_get flux_df1 kk = Ok F).
  { unfold seb_e in E1. destruct (array_get flux_df1 kk) as [F |];
      [eexists; reflexivity | discriminate]. }
  destruct HF as [F HF].
  destruct (array_get_inv _ _ _ HF) as [_ Hkk].
  exists T_0, a, F, e, Tnew.
  do 5 (split; [solve [assumption | reflexivity] |]).
  destruct Tnew as [| v [| v' Tnew]]; cbn [truth_ge] in E3;
    [| | discriminate E3]; injection E3 as <-.
  - (* no root selected: the assignment raises, the handler prints *)
    cbn [array_set_array] in H. cbn [TcalcH meltmassH stdout] in H.
    inv_bind H. injection H as <-. cbn [TcalcH meltmassH stdout].
    destruct (array_set_inv _ _ _ _ E3) as [Hk ->].
    unfold wf_state, step_outcome. cbn [TcalcH meltmassH stdout].
    rewrite list_update_length.
    repeat split; try assumption.
    + apply nth_error_list_update_neq. assumption.
    + eexists. reflexivity.
    + apply nth_error_list_update_eq. assumption.
    + apply in_or_app. right. left. reflexivity.
  - destruct (fge v T_MELT) eqn:Ehot.
    + inv_bind H. inv_bind H. inv_bind H. injection H as <-.
      destruct (array_set_inv _ _ _ _ E3) as [Hk ->].
      destruct (array_set_inv _ _ _ _ E5) as [Hk' ->].
      unfold melt_of in E4. rewrite HF in E4. cbn [bind] in E4.
      injection E4 as <-.
      unfold wf_state, step_outcome, emitted. cbn [TcalcH meltmassH stdout].
      rewrite Ehot, !list_update_length.
      repeat split; try assumption;
        try (apply nth_error_list_update_neq; assumption);
        try (apply nth_error_list_update_eq; assumption).
      exists []. rewrite app_nil_r. reflexivity.
    + cbn [array_set_array] in H.
      rewrite (array_set_ok (TcalcH st) kk v) in H by lia.
      cbn [TcalcH meltmassH stdout] in H.
      inv_bind H. injection H as <-.
      destruct (array_set_inv _ _ _ _ E3) as [Hk ->].
      unfold wf_state, step_outcome, emitted. cbn [TcalcH meltmassH stdout].
      rewrite Ehot, !list_update_length.
      repeat split; try assumption;
        try (apply nth_error_list_update_neq; assumption);
        try (apply nth_error_list_update_eq; lia).
      exists []. rewrite app_nil_r. reflexivity.
Qed.

Lemma run_loop_app (f : seb_state -> nat -> result seb_state) l1 l2 st :
  run_loop f (l1 ++ l2) st
  = (st1 <- run_loop f l1 st ;; run_loop f l2 st1).
Proof.
  revert st. induction l1 as [| k l1 IH]; intros st; cbn [app run_loop bind].
  - reflexivity.
  - destruct (f st k) as [st1 |]; cbn [bind]; [apply IH | reflexivity].
Qed.

(** The passes for the indices of [l] leave every other entry alone and
    only add to what was printed. *)
Lemma run_loop_frame l st st' :
  wf_state flux_df1 st -> run_loop step l st = Ok st' ->
  wf_state flux_df1 st'
  /\ (forall j, ~ In j l ->
        nth_error (TcalcH st') j = nth_error (TcalcH st) j
        /\ nth_error (meltmassH st') j = nth_error (meltmassH st) j)
  /\ (exists out, stdout st' = stdout st ++ out).
Proof.
  revert st. induction l as [| k l IH]; intros st Hwf H; cbn [run_loop] in H.
  - injection H as <-. repeat split; try apply Hwf.
    exists []. rewrite app_nil_r. reflexivity.
  - inv_bind H. rename a into st1.
    destruct (calcSEB_step_inv st k st1 Hwf E)
      as (_ & _ & _ & _ & _ & _ & _ & _ & _ & _ & Hwf1 & Hfr & [o1 Ho1] & _).
    destruct (IH st1 Hwf1 H) as (Hwf' & Hfr' & [o2 Ho2]).
    split; [exact Hwf' |]. split.
    + intros j Hj. cbn [In] in Hj.
      destruct (Hfr' j) as [HT HM]; [tauto |].
      destruct (Hfr j) as [HT1 HM1]; [intros ->; tauto |].
      rewrite HT, HM. split; assumption.
    + exists (o1 ++ o2). rewrite Ho2, Ho1, app_assoc. reflexivity.
Qed.

Lemma step_outcome_later Tnew F k tb st1 st :
  step_outcome Tnew F dt k tb st1 ->
  nth_error (TcalcH st) k = nth_error (TcalcH st1) k ->
  nth_error (meltmassH st) k = nth_error (meltmassH st1) k ->
  (exists out, stdout st = stdout st1 ++ out) ->
  step_outcome Tnew F dt k tb st.
Proof.
  intros H HT HM [out Hout]. unfold step_outcome, emitted in *.
  destruct Tnew as [| v [| v' Tnew]]; [| | exact H].
  - rewrite HT, HM, Hout. destruct H as (H1 & H2 & H3).
    repeat split; try assumption. apply in_or_app. left. exact H3.
  - rewrite HT, HM. exact H.
Qed.

(** The pass for index [k], read off the final state of a run that
    completes: the previous temperature it uses is the one the run
    emitted for [k - 1] (the input temperature at [k = 0]), and what it
    emits is decided by the roots selected for it. *)
Lemma calcSEB_loop_inv n st k :
  run_loop step (seq 0 n) (init_state flux_df1) = Ok st ->
  (k < n)%nat ->
  exists T_0 a F e Tnew,
    calcSEB_T_0 dts (TcalcH st) k = Ok T_0
    /\ seb_a dt m = Ok a
    /\ array_get flux_df1 k = Ok F
    /\ seb_e flux_df1 dt m T_0 k = Ok e
    /\ solve_Tnew G a e = Ok Tnew
    /\ step_outcome Tnew F dt k (Some (Fin 0)) st.
Proof.
  intros H Hk.
  replace n with (k + S (n - S k))%nat in H by lia.
  rewrite seq_app in H. cbn [seq] in H. rewrite run_loop_app in H.
  inv_bind H. rename a into st_k. cbn [run_loop] in H.
  inv_bind H. rename a into st_k1.
  destruct (run_loop_frame _ _ _ init_state_wf E) as (Hwf_k & Hfr_k & _).
  destruct (calcSEB_step_inv st_k k st_k1 Hwf_k E0)
    as (T_0 & a & F & e & Tnew & HT0 & Ha & HF & He & HTnew & Hwf_k1
        & Hfr_step & _ & Hout).
  destruct (run_loop_frame _ _ _ Hwf_k1 H) as (_ & Hfr_rest & Hprint).
  destruct (array_get_inv _ _ _ HF) as [_ Hlen].
  exists T_0, a, F, e, Tnew. repeat split; try assumption.
  - (* the temperature read at step k is still in the final series *)
    unfold calcSEB_T_0 in *. destruct (Nat.eqb_spec k 0) as [-> | Hk0];
      [exact HT0 |].
    unfold array_get in *.
    destruct (Hfr_rest (k - 1)%nat) as [-> _].
    { rewrite in_seq. lia. }
    destruct (Hfr_step (k - 1)%nat) as [-> _]; [lia |]. exact HT0.
  - apply (step_outcome_later Tnew F k _ st_k1).
    + destruct (Hfr_k k) as [HTk _]; [rewrite in_seq; lia |].
      rewrite HTk, init_state_nth in Hout by assumption. exact Hout.
    + apply Hfr_rest. rewrite in_seq. lia.
    + apply Hfr_rest. rewrite in_seq. lia.
    + exact Hprint.
Qed.

End Loop.

(* ================================================================== *)
(** * One pass of the loops, case by case *)

Section Passes.

Variable G : Globals.
Variable flux_df1 : list pyfloat.
Variable dts : list pyfloat.
Variables dt m : R.
Hypothesis Hdt : 0 < dt.
Hypothesis Hm : 0 < m.

Lemma CP_I_m_pos : 0 < CP_I * m.
Proof. unfold CP_I. decimals. nra. Qed.

Lemma seb_a_pos : 0 < SBC * dt / (CP_I * m).
Proof.
  apply Rdiv_lt_0_compat; [| apply CP_I_m_pos]. unfold SBC. decimals. nra.
Qed.

Lemma seb_a_ok : seb_a dt m = Ok (SBC * dt / (CP_I * m)).
Proof.
  unfold seb_a. apply pydiv_ok. pose proof CP_I_m_pos. lra.
Qed.

Lemma seb_e_fin T_0 F k :
  array_get flux_df1 k = Ok (Fin F) ->
  seb_e flux_df1 dt m (Fin T_0) k
  = Ok (Fin (-1 * (F * dt / (CP_I * m) + T_0))).
Proof. intros H. unfold seb_e. rewrite H. reflexivity. Qed.

Lemma seb_e_nan T_0 k :
  array_get flux_df1 k = Ok NaN -> seb_e flux_df1 dt m T_0 k = Ok NaN.
Proof. intros H. unfold seb_e. rewrite H. destruct T_0; reflexivity. Qed.

(** The positive root lies below every point where the polynomial is
    positive and at or above every positive point where it is not. *)
Lemma seb_root_lt a e y :
  0 < a -> e < 0 -> 0 < y -> 0 < quartic_poly a 0 0 1 e y ->
  seb_root a e < y.
Proof.
  intros Ha He Hy HP.
  destruct (seb_root_pos_root a Ha e He) as [Hr HPr].
  set (r := seb_root a e) in *. unfold quartic_poly in *.
  destruct (Rlt_or_le r y) as [H | H]; [exact H | exfalso].
  assert (y ^ 4 <= r ^ 4).
  { apply pow_incr. lra. }
  nra.
Qed.


Variable st : seb_state.
Variable k : nat.
Hypothesis Hwf : wf_state flux_df1 st.

Local Abbreviation a := (SBC * dt / (CP_I * m)).

(** e < 0 and the root below the melting point: the root is stored and
    the melt mass is 0. *)
Lemma calcSEB_step_cold T_0 F :
  calcSEB_T_0 dts (TcalcH st) k = Ok (Fin T_0) ->
  array_get flux_df1 k = Ok (Fin F) ->
  let e := -1 * (F * dt / (CP_I * m) + T_0) in
  e < 0 -> seb_root a e < T_MELT ->
  calcSEB_step G flux_df1 dts dt m st k
  = Ok {| TcalcH := list_update (TcalcH st) k (Fin (seb_root a e));
          meltmassH := list_update (meltmassH st) k (Fin 0);
          stdout := stdout st |}.
Proof.
  intros HT HF e He Hlt. destruct Hwf as [HwT HwM].
  destruct (array_get_inv _ _ _ HF) as [_ Hk].
  unfold calcSEB_step. rewrite HT, seb_a_ok. cbn [bind].
  rewrite (seb_e_fin _ _ _ HF). cbn [bind]. fold e.
  rewrite (solve_Tnew_neg G a seb_a_pos e He). cbn [bind truth_ge fge].
  rewrite Rleb_false by assumption. cbn [array_set_array].
  rewrite (array_set_ok (TcalcH st) k) by lia.
  cbn [TcalcH meltmassH stdout].
  rewrite array_set_ok by lia. reflexivity.
Qed.

(** e < 0 and the root at or above the melting point: the temperature
    is clamped and the melt mass is that of line 125. *)
Lemma calcSEB_step_hot T_0 F :
  calcSEB_T_0 dts (TcalcH st) k = Ok (Fin T_0) ->
  array_get flux_df1 k = Ok (Fin F) ->
  let e := -1 * (F * dt / (CP_I * m) + T_0) in
  e < 0 -> T_MELT <= seb_root a e ->
  calcSEB_step G flux_df1 dts dt m st k
  = Ok {| TcalcH := list_update (TcalcH st) k (Fin T_MELT);
          meltmassH := list_update (meltmassH st) k (melt_mass (Fin F) dt);
          stdout := stdout st |}.
Proof.
  intros HT HF e He Hge. destruct Hwf as [HwT HwM].
  destruct (array_get_inv _ _ _ HF) as [_ Hk].
  unfold calcSEB_step. rewrite HT, seb_a_ok. cbn [bind].
  rewrite (seb_e_fin _ _ _ HF). cbn [bind]. fold e.
  rewrite (solve_Tnew_neg G a seb_a_pos e He). cbn [bind truth_ge fge].
  rewrite Rleb_true by assumption.
  rewrite array_set_ok by lia. cbn [bind].
  unfold melt_of. rewrite HF. cbn [bind].
  rewrite array_set_ok by lia. reflexivity.
Qed.

(** No root selected: the assignment of the empty array raises inside
    the [try], the handler prints the index and the array, the
    temperature entry keeps its value and the melt mass is 0. *)
Lemma calcSEB_step_empty T_0 e :
  calcSEB_T_0 dts (TcalcH st) k = Ok T_0 ->
  seb_e flux_df1 dt m T_0 k = Ok e ->
  solve_Tnew G a e = Ok [] ->
  calcSEB_step G flux_df1 dts dt m st k
  = Ok {| TcalcH := TcalcH st;
          meltmassH := list_update (meltmassH st) k (Fin 0);
          stdout := stdout st ++ [PrintInt k; PrintArray []] |}.
Proof.
  intros HT He HTnew. destruct Hwf as [HwT HwM].
  assert (Hk : (k < List.length flux_df1)%nat).
  { unfold seb_e in He. destruct (array_get flux_df1 k) eqn:E;
      [| discriminate]. apply (array_get_inv _ _ _ E). }
  unfold calcSEB_step. rewrite HT, seb_a_ok. cbn [bind].
  rewrite He. cbn [bind]. rewrite HTnew. cbn [bind truth_ge array_set_array].
  cbn [TcalcH meltmassH stdout].
  rewrite array_set_ok by lia. reflexivity.
Qed.

(** The pass of [makeSpinFiles] in the first of these cases. *)
Lemma makeSpinFiles_step_cold T_0 F :
  makeSpinFiles_T_0 dts k = Ok (Fin T_0) ->
  array_get flux_df1 k = Ok (Fin F) ->
  let e := -1 * (F * dt / (CP_I * m) + T_0) in
  e < 0 -> seb_root a e < T_MELT ->
  makeSpinFiles_step G flux_df1 dts dt m st k
  = Ok {| TcalcH := list_update (TcalcH st) k (Fin (seb_root a e));
          meltmassH := list_update (meltmassH st) k (Fin 0);
          stdout := stdout st |}.
Proof.
  intros HT HF e He Hlt. destruct Hwf as [HwT HwM].
  destruct (array_get_inv _ _ _ HF) as [_ Hk].
  unfold makeSpinFiles_step. rewrite HT, seb_a_ok. cbn [bind].
  rewrite (seb_e_fin _ _ _ HF). cbn [bind]. fold e.
  rewrite (solve_Tnew_neg G a seb_a_pos e He). cbn [bind truth_ge fge].
  rewrite Rleb_false by assumption. cbn [array_set_array].
  rewrite array_set_ok by lia. cbn [bind].
  rewrite array_set_ok by lia. reflexivity.
Qed.

End Passes.

(* ================================================================== *)
(** * Runs of [calcSEB] on one-step series *)

Section Runs.

Variable G : Globals.

Lemma calcSEB_flux_single x1 x2 x3 x4 g :
  calcSEB_flux [x1] [x2] [x3] [x4] g
  = Ok [fadd (fadd (fadd (fadd x1 x2) x3) x4) g].
Proof. reflexivity. Qed.

Lemma calcSEB_single_step SW LW HF EF TS dt GHT dz rhos flux st :
  calcSEB_flux SW LW HF EF GHT = Ok flux ->
  calcSEB_step G flux TS dt (rhos * dz) (init_state flux) 0 = Ok st ->
  calcSEB G SW LW HF EF TS 1 dt GHT dz rhos = Ok st.
Proof.
  intros Hf Hs. unfold calcSEB. rewrite Hf. cbn [bind seq run_loop].
  rewrite Hs. reflexivity.
Qed.

(** One hour, no net flux, skin at 250 K. *)
Lemma calcSEB_cold_run :
  calcSEB G [Fin 0] [Fin 0] [Fin 0] [Fin 0] [Fin 250] 1 3600 (Fin 0) 0.05 400
  = Ok {| TcalcH := [Fin (seb_root hourly_a cold_e)];
          meltmassH := [Fin 0];
          stdout := [] |}
  /\ 0 < seb_root hourly_a cold_e < 250.
Proof.
  assert (Hm : 0 < 400 * 0.05) by (decimals; lra).
  assert (Hdt : 0 < 3600) by lra.
  pose proof (seb_a_pos 3600 (400 * 0.05) Hdt Hm) as Ha. fold hourly_a in Ha.
  assert (He : cold_e < 0).
  { unfold cold_e, CP_I. decimals. lra. }
  destruct (seb_root_pos_root hourly_a Ha cold_e He) as [Hpos Hroot].
  assert (Hlt : seb_root hourly_a cold_e < 250).
  { apply seb_root_lt; try lra. unfold quartic_poly.
    assert (0 < hourly_a * 250 ^ 4) by (apply Rmult_lt_0_compat; lra).
    unfold cold_e, CP_I. decimals. lra. }
  split; [| lra].
  eapply calcSEB_single_step; [apply calcSEB_flux_single |].
  cbn [fadd flift2].
  rewrite (calcSEB_step_cold G [Fin (0 + 0 + 0 + 0 + 0)] [Fin 250] 3600
             (400 * 0.05) Hdt Hm (init_state [Fin (0 + 0 + 0 + 0 + 0)]) 0
             (init_state_wf _) 250 (0 + 0 + 0 + 0 + 0)).
  - reflexivity.
  - reflexivity.
  - reflexivity.
  - exact He.
  - fold hourly_a. fold cold_e. unfold T_MELT. decimals. lra.
Qed.

End Runs.

(* ================================================================== *)
(** * Runs that complete *)

Section Completes.

Variable G : Globals.
Variable flux_df1 : list pyfloat.
Variable dts : list pyfloat.
Variables dt m T_init : R.
Hypothesis Hdt : 0 < dt.
Hypothesis Hm : 0 < m.
Hypothesis Hdts : array_get dts 0 = Ok (Fin T_init).
Hypothesis Hinit : 0 < T_init.
Hypothesis Hflux :
  Forall (fun x => exists f, x = Fin f /\ 0 <= f) flux_df1.

(** With a flux that is never negative and a positive initial skin
    temperature every pass has e < 0, so the solver stays in the branch
    that needs no [math], one root is selected and the pass stores a
    positive temperature: the loop runs to its end, whatever the
    namespace. *)
Lemma calcSEB_loop_completes n :
  (n <= List.length flux_df1)%nat ->
  exists st,
    run_loop (calcSEB_step G flux_df1 dts dt m) (seq 0 n)
      (init_state flux_df1) = Ok st
    /\ wf_state flux_df1 st
    /\ (forall j, (j < n)%nat ->
          exists t, 0 < t /\ nth_error (TcalcH st) j = Some (Fin t)).
Proof.
  induction n as [| n IH]; intros Hn.
  - exists (init_state flux_df1). cbn [seq run_loop].
    split; [reflexivity |]. split; [apply init_state_wf |].
    intros j Hj. lia.
  - destruct IH as (st & Hrun & Hwf & Hpos); [lia |].
    rewrite seq_S, run_loop_app, Hrun. cbn [bind Nat.add run_loop].
    (* the values the pass reads *)
    assert (HT0 : exists T_0, 0 < T_0
              /\ calcSEB_T_0 dts (TcalcH st) n = Ok (Fin T_0)).
    { unfold calcSEB_T_0. destruct (Nat.eqb_spec n 0) as [-> | Hn0].
      - exists T_init. split; assumption.
      - destruct (Hpos (n - 1)%nat) as (t & Ht & Hnth); [lia |].
        exists t. split; [assumption |]. apply array_get_ok. exact Hnth. }
    destruct HT0 as (T_0 & HT0pos & HT0).
    assert (HF : exists F, 0 <= F /\ array_get flux_df1 n = Ok (Fin F)).
    { destruct (nth_error flux_df1 n) as [x |] eqn:E.
      - rewrite Forall_forall in Hflux.
        destruct (Hflux x (nth_error_In _ _ E)) as (f & -> & Hf).
        exists f. split; [assumption |]. apply array_get_ok. exact E.
      - apply nth_error_None in E. lia. }
    destruct HF as (F & HFpos & HF).
    pose proof (CP_I_m_pos m Hm) as Hcm.
    pose proof (seb_a_pos dt m Hdt Hm) as Ha.
    set (e := -1 * (F * dt / (CP_I * m) + T_0)).
    assert (He : e < 0).
    { unfold e.
      assert (0 <= F * dt / (CP_I * m)); [| lra].
      apply Rmult_le_pos; [nra |].
      apply Rlt_le, Rinv_0_lt_compat. exact Hcm. }
    destruct (seb_root_pos_root _ Ha e He) as [Hroot _].
    assert (HTM : 0 < T_MELT) by (unfold T_MELT; decimals; lra).
    destruct Hwf as [HwT HwM].
    destruct (Rlt_or_le (seb_root (SBC * dt / (CP_I * m)) e) T_MELT)
      as [Hcold | Hhot].
    + rewrite (calcSEB_step_cold G flux_df1 dts dt m Hdt Hm st n
                 (conj HwT HwM) T_0 F HT0 HF He Hcold).
      eexists. split; [reflexivity |].
      unfold wf_state. cbn [TcalcH meltmassH]. rewrite !list_update_length.
      split; [split; assumption |].
      intros j Hj. destruct (Nat.eq_dec j n) as [-> | Hjn].
      * eexists. split; [exact Hroot |].
        apply nth_error_list_update_eq. lia.
      * rewrite nth_error_list_update_neq by assumption. apply Hpos. lia.
    + rewrite (calcSEB_step_hot G flux_df1 dts dt m Hdt Hm st n
                 (conj HwT HwM) T_0 F HT0 HF He Hhot).
      eexists. split; [reflexivity |].
      unfold wf_state. cbn [TcalcH meltmassH]. rewrite !list_update_length.
      split; [split; assumption |].
      intros j Hj. destruct (Nat.eq_dec j n) as [-> | Hjn].
      * eexists. split; [exact HTM |].
        apply nth_error_list_update_eq. lia.
      * rewrite nth_error_list_update_neq by assumption. apply Hpos. lia.
Qed.

End Completes.

(** [calcSEB] returns on such inputs. *)
Lemma calcSEB_completes G SWGNT LWGAB HFLUX EFLUX TS n dt GHTSKIN dz rhos
  flux T_init :
  calcSEB_flux SWGNT LWGAB HFLUX EFLUX GHTSKIN = Ok flux ->
  Forall (fun x => exists f, x = Fin f /\ 0 <= f) flux ->
  array_get TS 0 = Ok (Fin T_init) -> 0 < T_init ->
  0 < dt -> 0 < rhos * dz ->
  (n <= List.length flux)%nat ->
  exists st,
    calcSEB G SWGNT LWGAB HFLUX EFLUX TS n dt GHTSKIN dz rhos = Ok st.
Proof.
  intros Hflux Hpos HTS Hinit Hdt Hm Hn.
  destruct (calcSEB_loop_completes G flux TS dt (rhos * dz) T_init Hdt Hm
              HTS Hinit Hpos n Hn) as (st & Hrun & _).
  exists st. unfold calcSEB. rewrite Hflux. cbn [bind]. exact Hrun.
Qed.

(* ================================================================== *)
(** * The energy-balance loop: the claims *)

(** C2.  In a run of [calcSEB] that completes, take a step [k] whose
    selection is the single root [v], the quartic being built from the
    flux [f] of the step and from the previous temperature read off the
    output series.  If [v >= 273.15] the step emits the temperature
    273.15 and the melt mass (f - 5.67e-8 * 273.15^4) / 333500.0 * dt;
    otherwise it emits [v] and the melt mass 0. *)
Theorem calcSEB_clamps_or_accepts
  G SWGNT LWGAB HFLUX EFLUX TS n dt GHTSKIN dz rhos flux st k T_0 a f e v :
  calcSEB_flux SWGNT LWGAB HFLUX EFLUX GHTSKIN = Ok flux ->
  calcSEB G SWGNT LWGAB HFLUX EFLUX TS n dt GHTSKIN dz rhos = Ok st ->
  (k < n)%nat ->
  calcSEB_T_0 TS (TcalcH st) k = Ok T_0 ->
  seb_a dt (rhos * dz) = Ok a ->
  array_get flux k = Ok (Fin f) ->
  seb_e flux dt (rhos * dz) T_0 k = Ok e ->
  solve_Tnew G a e = Ok [Fin v] ->
  (273.15 <= v ->
     emitted st k (Fin 273.15)
       (Fin ((f - 5.67e-8 * 273.15 ^ 4) / 333500.0 * dt)))
  /\ (v < 273.15 -> emitted st k (Fin v) (Fin 0)).
Proof.
  intros Hflux Hrun Hk HT0 Ha HF He HTnew.
  unfold calcSEB in Hrun. rewrite Hflux in Hrun. cbn [bind] in Hrun.
  destruct (calcSEB_loop_inv G flux TS dt (rhos * dz) n st k Hrun Hk)
    as (T_0' & a' & F' & e' & Tnew' & HT0' & Ha' & HF' & He' & HTnew' & Hout).
  assert (T_0' = T_0) by congruence. subst T_0'.
  assert (a' = a) by congruence. subst a'.
  assert (F' = Fin f) by congruence. subst F'.
  assert (e' = e) by congruence. subst e'.
  assert (Tnew' = [Fin v]) by congruence. subst Tnew'.
  unfold step_outcome in Hout. cbn [fge] in Hout.
  change 273.15 with T_MELT.
  split; intros Hv.
  - rewrite Rleb_true in Hout by assumption. exact Hout.
  - rewrite Rleb_false in Hout by assumption. exact Hout.
Qed.

Lemma calcSEB_clamps_or_accepts_witness :
  emitted {| TcalcH := [Fin (seb_root hourly_a cold_e)];
             meltmassH := [Fin 0];
             stdout := [] |}
    0 (Fin (seb_root hourly_a cold_e)) (Fin 0).
Proof.
  destruct (calcSEB_cold_run module_globals) as [Hrun [Hpos Hlt]].
  assert (Hm : 0 < 400 * 0.05) by (decimals; lra).
  assert (Hdt : 0 < 3600) by lra.
  assert (He : cold_e < 0) by (unfold cold_e, CP_I; decimals; lra).
  refine (proj2 (calcSEB_clamps_or_accepts module_globals
                   [Fin 0] [Fin 0] [Fin 0] [Fin 0] [Fin 250] 1 3600 (Fin 0)
                   0.05 400 [Fin (0 + 0 + 0 + 0 + 0)] _ 0 (Fin 250) hourly_a
                   (0 + 0 + 0 + 0 + 0) (Fin cold_e)
                   (seb_root hourly_a cold_e)
                   eq_refl Hrun (Nat.lt_0_succ 0) eq_refl
                   (seb_a_ok 3600 (400 * 0.05) Hm) eq_refl eq_refl
                   (solve_Tnew_neg module_globals hourly_a
                      (seb_a_pos 3600 (400 * 0.05) Hdt Hm) cold_e He)) _).
  decimals. lra.
Defined.



(** The melt mass of a clamped step is not negative: the root that was
    clamped is at least 273.15 and the previous temperature at most
    273.15, so the flux is at least what the surface radiates at the
    melting point. *)
Lemma clamped_melt_nonneg dt m f t0 :
  0 < dt -> 0 < m -> t0 <= T_MELT ->
  let a := SBC * dt / (CP_I * m) in
  let e := -1 * (f * dt / (CP_I * m) + t0) in
  e < 0 -> T_MELT <= seb_root a e ->
  0 <= (f - SBC * T_MELT ^ 4) / LF_I * dt.
Proof.
  intros Hdt Hm Ht0 a e He Hge.
  pose proof (seb_a_pos dt m Hdt Hm) as Ha. fold a in Ha.
  destruct (seb_root_pos_root a Ha e He) as [Hr Pr].
  set (r := seb_root a e) in *.
  pose proof (CP_I_m_pos m Hm) as Hcm.
  set (c := dt / (CP_I * m)).
  assert (Hc : 0 < c) by (apply Rdiv_lt_0_compat; assumption).
  assert (Ea : a = SBC * c) by (unfold a, c, Rdiv; ring).
  assert (Ee : e = - (f * c + t0)) by (unfold e, c, Rdiv; ring).
  unfold quartic_poly in Pr. rewrite Ea, Ee in Pr.
  assert (HTM : 0 < T_MELT) by (unfold T_MELT; decimals; lra).
  assert (Hpow : T_MELT ^ 4 <= r ^ 4) by (apply pow_incr; lra).
  assert (HSBC : 0 < SBC) by (unfold SBC; decimals; lra).
  assert (Hfr : 0 <= c * (f - SBC * r ^ 4)) by nra.
  assert (Hf : 0 <= f - SBC * r ^ 4).
  { destruct (Rle_or_lt 0 (f - SBC * r ^ 4)) as [H | H]; [exact H |].
    assert (c * (f - SBC * r ^ 4) < 0); [| lra].
    replace (c * (f - SBC * r ^ 4)) with (- (c * - (f - SBC * r ^ 4))) by ring.
    assert (0 < c * - (f - SBC * r ^ 4)) by (apply Rmult_lt_0_compat; lra).
    lra. }
  assert (Hf' : 0 <= f - SBC * T_MELT ^ 4) by nra.
  assert (HLF : 0 < / LF_I).
  { apply Rinv_0_lt_compat. unfold LF_I. decimals. lra. }
  unfold Rdiv. apply Rmult_le_pos; [apply Rmult_le_pos |]; lra.
Qed.

(** C4.  With no NaN in the flux series, an initial skin temperature of
    at most 273.15, a positive time step and a positive layer mass, every
    step of a run of [calcSEB] that completes emits a temperature of at
    most 273.15; the melt mass is 0 when that temperature is below
    273.15 and is not negative when it is 273.15 (the step was
    clamped).  This holds in the namespace of the module and in the one
    with [math] imported. *)
Theorem calcSEB_clamp_invariant
  G SWGNT LWGAB HFLUX EFLUX TS n dt GHTSKIN dz rhos flux T_init st :
  known_globals G ->
  calcSEB_flux SWGNT LWGAB HFLUX EFLUX GHTSKIN = Ok flux ->
  Forall (fun x => isnan x = false) flux ->
  array_get TS 0 = Ok (Fin T_init) -> T_init <= 273.15 ->
  0 < dt -> 0 < rhos * dz ->
  calcSEB G SWGNT LWGAB HFLUX EFLUX TS n dt GHTSKIN dz rhos = Ok st ->
  forall k, (k < n)%nat ->
    exists t mm,
      emitted st k (Fin t) (Fin mm)
      /\ t <= 273.15
      /\ (t < 273.15 -> mm = 0)
      /\ (t = 273.15 -> 0 <= mm).
Proof.
  intros HG Hflux Hfin HTS Hinit Hdt Hm Hrun.
  unfold calcSEB in Hrun. rewrite Hflux in Hrun. cbn [bind] in Hrun.
  change 273.15 with T_MELT in *.
  assert (HTM : 0 < T_MELT) by (unfold T_MELT; decimals; lra).
  induction k as [k IH] using lt_wf_ind. intros Hk.
  destruct (calcSEB_loop_inv G flux TS dt (rhos * dz) n st k Hrun Hk)
    as (T_0 & a & F & e & Tnew & HT0 & Ha & HF & He & HTnew & Hout).
  (* the previous temperature is finite and at most 273.15 *)
  assert (Hprev : exists t0, T_0 = Fin t0 /\ t0 <= T_MELT).
  { unfold calcSEB_T_0 in HT0. destruct (Nat.eqb_spec k 0) as [-> | Hk0].
    - exists T_init. split; [congruence | assumption].
    - destruct (IH (k - 1)%nat) as (t & mm & [HT _] & Hle & _); [lia | lia |].
      exists t. split; [| assumption].
      rewrite (array_get_ok _ _ _ HT) in HT0. congruence. }
  destruct Hprev as (t0 & -> & Ht0).
  (* the flux of the step is finite *)
  destruct (array_get_inv _ _ _ HF) as [HFn _].
  assert (HFfin : isnan F = false).
  { rewrite Forall_forall in Hfin. apply Hfin.
    apply nth_error_In with k. assumption. }
  destruct F as [f |]; [| discriminate HFfin].
  rewrite (seb_a_ok dt (rhos * dz) Hm) in Ha. injection Ha as <-.
  rewrite (seb_e_fin flux dt (rhos * dz) t0 f k HF) in He. injection He as <-.
  pose proof (seb_a_pos dt (rhos * dz) Hdt Hm) as Hapos.
  set (a := SBC * dt / (CP_I * (rhos * dz))) in *.
  set (e := -1 * (f * dt / (CP_I * (rhos * dz)) + t0)) in *.
  destruct (Rlt_or_le e 0) as [Hneg | Hnonneg].
  - (* one positive root *)
    rewrite (solve_Tnew_neg G a Hapos e Hneg) in HTnew.
    injection HTnew as <-. unfold step_outcome in Hout. cbn [fge] in Hout.
    destruct (Rle_or_lt T_MELT (seb_root a e)) as [Hhot | Hcold].
    + rewrite Rleb_true in Hout by assumption.
      exists T_MELT, ((f - SBC * T_MELT ^ 4) / LF_I * dt).
      split; [exact Hout |]. split; [lra |]. split; [lra |].
      intros _. apply (clamped_melt_nonneg dt (rhos * dz) f t0); assumption.
    + rewrite Rleb_false in Hout by assumption.
      exists (seb_root a e), 0. split; [exact Hout |].
      split; [lra |]. split; [reflexivity | lra].
  - (* no positive root: the entry keeps its initial 0 *)
    rewrite (solve_Tnew_nonneg_known G a e Tnew HG Hapos Hnonneg HTnew) in Hout.
    unfold step_outcome in Hout. destruct Hout as (HT & HM & _).
    exists 0, 0. split; [split; assumption |].
    split; [lra |]. split; [reflexivity | lra].
Qed.

Lemma calcSEB_clamp_invariant_witness :
  exists t mm,
    emitted {| TcalcH := [Fin (seb_root hourly_a cold_e)];
               meltmassH := [Fin 0];
               stdout := [] |} 0 (Fin t) (Fin mm)
    /\ t <= 273.15
    /\ (t < 273.15 -> mm = 0)
    /\ (t = 273.15 -> 0 <= mm).
Proof.
  assert (Hm : 0 < 400 * 0.05) by (decimals; lra).
  assert (Hdt : 0 < 3600) by lra.
  assert (Hinit : 250 <= 273.15) by (decimals; lra).
  refine (calcSEB_clamp_invariant module_globals
            [Fin 0] [Fin 0] [Fin 0] [Fin 0] [Fin 250] 1 3600 (Fin 0) 0.05 400
            [Fin (0 + 0 + 0 + 0 + 0)] 250 _
            (or_introl eq_refl) eq_refl _ eq_refl Hinit Hdt Hm
            (proj1 (calcSEB_cold_run module_globals)) 0 (Nat.lt_0_succ 0)).
  repeat constructor.
Defined.

(** C3.  The claim: in every stepping loop the previous temperature of
    step k > 0 is the temperature computed at step k - 1.  The loop of
    [calcSEB] does that (it reads [TcalcH[kk-1]], see [calcSEB_loop_inv]);
    the loop of [makeSpinFiles] reads the input series, [dts[kk-1]].  On
    two steps with no net flux and an input skin temperature of 250 K,
    step 0 emits a temperature v below 250, and step 1 builds its quartic
    from 250, not from v, and emits v again. *)
Theorem makeSpinFiles_previous_temperature_is_input :
  makeSpinFiles_calc_melt module_globals [Fin 0; Fin 0] [Fin 250; Fin 250] 3600
  = Ok {| TcalcH := [Fin (seb_root spin_a spin_e); Fin (seb_root spin_a spin_e)];
          meltmassH := [Fin 0; Fin 0];
          stdout := [] |}
  /\ 0 < seb_root spin_a spin_e < 250
  /\ makeSpinFiles_T_0 [Fin 250; Fin 250] 1 = Ok (Fin 250).
Proof.
  assert (Hm : 0 < 400 * 0.08) by (decimals; lra).
  assert (Hdt : 0 < 3600) by lra.
  pose proof (seb_a_pos 3600 (400 * 0.08) Hdt Hm) as Ha. fold spin_a in Ha.
  assert (He : spin_e < 0) by (unfold spin_e, CP_I; decimals; lra).
  destruct (seb_root_pos_root spin_a Ha spin_e He) as [Hpos Hroot].
  assert (Hlt : seb_root spin_a spin_e < 250).
  { apply seb_root_lt; try lra. unfold quartic_poly.
    assert (0 < spin_a * 250 ^ 4) by (apply Rmult_lt_0_compat; lra).
    unfold spin_e, CP_I. decimals. lra. }
  assert (Hcold : seb_root spin_a spin_e < T_MELT)
    by (unfold T_MELT; decimals; lra).
  split; [| split; [lra | reflexivity]].
  unfold makeSpinFiles_calc_melt. cbn [List.length seq run_loop].
  rewrite (makeSpinFiles_step_cold module_globals [Fin 0; Fin 0]
             [Fin 250; Fin 250] 3600 (400 * 0.08) Hdt Hm
             (init_state [Fin 0; Fin 0]) 0 (init_state_wf _) 250 0
             eq_refl eq_refl He Hcold).
  cbn [bind].
  match goal with
  | |- context [makeSpinFiles_step _ _ _ _ _ ?s 1] =>
      rewrite (makeSpinFiles_step_cold module_globals [Fin 0; Fin 0]
                 [Fin 250; Fin 250] 3600 (400 * 0.08) Hdt Hm s 1
                 (conj eq_refl eq_refl : wf_state [Fin 0; Fin 0] s)
                 250 0 eq_refl eq_refl He Hcold)
  end.
  reflexivity.
Qed.




(** The pass of [calcSEB] is the selection followed by
    [calcSEB_store]. *)
Lemma calcSEB_step_store G flux dts dt m st k :
  calcSEB_step G flux dts dt m st k
  = (T_0 <- calcSEB_T_0 dts (TcalcH st) k ;;
     a <- seb_a dt m ;;
     e <- seb_e flux dt m T_0 k ;;
     Tnew <- solve_Tnew G a e ;;
     calcSEB_store flux dt st k Tnew).
Proof. reflexivity. Qed.

(** The end of the pass when nothing was selected, and when the one
    value selected was overwritten by NaN. *)
Lemma calcSEB_store_empty flux dt st k :
  wf_state flux st -> (k < List.length flux)%nat ->
  calcSEB_store flux dt st k []
  = Ok {| TcalcH := TcalcH st;
          meltmassH := list_update (meltmassH st) k (Fin 0);
          stdout := stdout st ++ [PrintInt k; PrintArray []] |}.
Proof.
  intros [HwT HwM] Hk. unfold calcSEB_store.
  cbn [truth_ge bind array_set_array meltmassH TcalcH stdout].
  rewrite array_set_ok by (rewrite HwM; exact Hk). reflexivity.
Qed.

Lemma calcSEB_store_nan flux dt st k :
  wf_state flux st -> (k < List.length flux)%nat ->
  calcSEB_store flux dt st k [NaN]
  = Ok {| TcalcH := list_update (TcalcH st) k NaN;
          meltmassH := list_update (meltmassH st) k (Fin 0);
          stdout := stdout st |}.
Proof.
  intros [HwT HwM] Hk. unfold calcSEB_store.
  cbn [truth_ge fge bind array_set_array].
  rewrite (array_set_ok (TcalcH st) k NaN) by (rewrite HwT; exact Hk).
  cbn [meltmassH TcalcH stdout].
  rewrite array_set_ok by (rewrite HwM; exact Hk). reflexivity.
Qed.

(** With e NaN every value selected is overwritten by NaN. *)
Lemma select_Tnew_nan r :
  (List.length (select_Tnew r NaN) <= 1)%nat ->
  select_Tnew r NaN = [] \/ select_Tnew r NaN = [NaN].
Proof.
  unfold select_Tnew. cbn [isnan].
  destruct (map Re _) as [| x [| y l]]; cbn [map List.length]; intros H.
  - left. reflexivity.
  - right. reflexivity.
  - lia.
Qed.

(** C9.  The claim: at a step whose net flux is NaN the loop emits NaN
    for the temperature and for the melt mass.  With a NaN short-wave
    flux on a surface at 250 K [calcSEB] returns and the melt mass it
    emits is 0.0: also when the solver selects a root, as the float
    solver does here, and the temperature stored is NaN. *)
Lemma calcSEB_nan_flux_emits_zero :
  (exists T out,
     calcSEB module_globals [NaN] [Fin 0] [Fin 0] [Fin 0] [Fin 250]
       1 3600 (Fin 0) 0.05 400
     = Ok {| TcalcH := T; meltmassH := [Fin 0]; stdout := out |})
  /\ calcSEB_store [NaN] 3600 (init_state [NaN]) 0 [NaN]
     = Ok {| TcalcH := [NaN]; meltmassH := [Fin 0]; stdout := [] |}
  /\ Fin 0 <> NaN.
Proof.
  assert (Hm : 0 < 400 * 0.05) by (decimals; lra).
  assert (Hdt : 0 < 3600) by lra.
  split; [| split; [reflexivity | discriminate]].
  eexists. eexists.
  eapply calcSEB_single_step; [apply calcSEB_flux_single |].
  cbn [fadd flift2].
  rewrite (calcSEB_step_empty module_globals [NaN] [Fin 250] 3600
             (400 * 0.05) Hm (init_state [NaN]) 0 (init_state_wf _)
             (Fin 250) NaN).
  - reflexivity.
  - reflexivity.
  - reflexivity.
  - apply solve_Tnew_nan. apply seb_a_pos; assumption.
Qed.

(** C9, as the code has it.  At a step whose net flux is NaN the pass
    raises nothing: e is NaN, the coefficient vector handed to the solver
    has 0 in its place, the pass is the solver on that vector followed by
    [calcSEB_store], and the melt mass the step emits is 0.  The
    temperature goes by what is selected from the roots of the zeroed
    quartic a T^4 + T, whose root 0 is a rounding residue in floats: for
    every row of roots with at most one real positive entry, the entry
    selected is overwritten and the step stores NaN, and with none
    selected the temperature keeps its value and k is printed. *)
Theorem calcSEB_nan_flux_melt_is_zero G flux dts dt m st k T_0 :
  0 < dt -> 0 < m ->
  wf_state flux st ->
  calcSEB_T_0 dts (TcalcH st) k = Ok T_0 ->
  array_get flux k = Ok NaN ->
  let a := SBC * dt / (CP_I * m) in
  seb_e flux dt m T_0 k = Ok NaN
  /\ pmat_of a NaN = [a; 0; 0; 1; 0]
  /\ calcSEB_step G flux dts dt m st k
     = (r <- FQS.quartic_roots G (FQS.Arr1 [a; 0; 0; 1; 0]) ;;
        calcSEB_store flux dt st k (select_Tnew r NaN))
  /\ (exists st',
        calcSEB_step G flux dts dt m st k = Ok st'
        /\ nth_error (meltmassH st') k = Some (Fin 0))
  /\ (forall r : list (list C),
        let Tnew := select_Tnew r NaN in
        (List.length Tnew <= 1)%nat ->
        exists st',
          calcSEB_store flux dt st k Tnew = Ok st'
          /\ nth_error (meltmassH st') k = Some (Fin 0)
          /\ (Tnew <> [] ->
              nth_error (TcalcH st') k = Some NaN /\ stdout st' = stdout st)
          /\ (Tnew = [] ->
              TcalcH st' = TcalcH st
              /\ stdout st' = stdout st ++ [PrintInt k; PrintArray []])).
Proof.
  intros Hdt Hm Hwf HT HF a.
  pose proof (seb_e_nan flux dt m T_0 k HF) as He.
  destruct (array_get_inv _ _ _ HF) as [_ Hk].
  assert (HkT : (k < List.length (TcalcH st))%nat)
    by (destruct Hwf as [-> _]; exact Hk).
  assert (HkM : (k < List.length (meltmassH st))%nat)
    by (destruct Hwf as [_ ->]; exact Hk).
  split; [exact He |]. split; [reflexivity |]. split; [| split].
  - rewrite calcSEB_step_store, HT. cbn [bind].
    rewrite (seb_a_ok dt m Hm), He. cbn [bind]. fold a.
    unfold solve_Tnew.
    change (pmat_of a NaN) with [a; 0; 0; 1; 0].
    destruct (FQS.quartic_roots G (FQS.Arr1 [a; 0; 0; 1; 0])); reflexivity.
  - eexists. split.
    + apply (calcSEB_step_empty G flux dts dt m Hm st k Hwf T_0 NaN HT He).
      apply solve_Tnew_nan. apply seb_a_pos; assumption.
    + cbn [meltmassH]. apply nth_error_list_update_eq. exact HkM.
  - intros r Tnew Hlen.
    destruct (select_Tnew_nan r Hlen) as [E | E]; fold Tnew in E; rewrite E.
    + rewrite (calcSEB_store_empty flux dt st k Hwf Hk).
      eexists. split; [reflexivity |]. cbn [meltmassH TcalcH stdout].
      split; [apply nth_error_list_update_eq; exact HkM |].
      split; [intros H; contradiction | intros _; split; reflexivity].
    + rewrite (calcSEB_store_nan flux dt st k Hwf Hk).
      eexists. split; [reflexivity |]. cbn [meltmassH TcalcH stdout].
      split; [apply nth_error_list_update_eq; exact HkM |].
      split; [| intros H; discriminate H].
      intros _. split; [apply nth_error_list_update_eq; exact HkT | reflexivity].
Qed.

Lemma calcSEB_nan_flux_melt_is_zero_witness :
  (exists st',
     calcSEB_step module_globals [NaN] [Fin 250] 3600 (400 * 0.05)
       (init_state [NaN]) 0 = Ok st'
     /\ nth_error (meltmassH st') 0 = Some (Fin 0))
  /\ (forall r : list (list C),
        let Tnew := select_Tnew r NaN in
        (List.length Tnew <= 1)%nat ->
        exists st',
          calcSEB_store [NaN] 3600 (init_state [NaN]) 0 Tnew = Ok st'
          /\ nth_error (meltmassH st') 0 = Some (Fin 0)
          /\ (Tnew <> [] ->
              nth_error (TcalcH st') 0 = Some NaN
              /\ stdout st' = stdout (init_state [NaN]))
          /\ (Tnew = [] ->
              TcalcH st' = TcalcH (init_state [NaN])
              /\ stdout st' = stdout (init_state [NaN])
                               ++ [PrintInt 0; PrintArray []])).
Proof.
  assert (Hm : 0 < 400 * 0.05) by (decimals; lra).
  assert (Hdt : 0 < 3600) by lra.
  exact (proj2 (proj2 (proj2
           (calcSEB_nan_flux_melt_is_zero module_globals [NaN]
              [Fin 250] 3600 (400 * 0.05) (init_state [NaN]) 0
              (Fin 250) Hdt Hm (init_state_wf _) eq_refl eq_refl)))).
Defined.

(* ================================================================== *)
(** * The batched solvers, entry by entry

    With [math] in the namespace the batched quartic solver computes, for
    each row, what the single-equation solver computes for that row. *)

Section Pointwise.

Context {I : Type}.
Variable l : list I.

Lemma map2_map {A B D} (f : A -> B -> D) (g : I -> A) (h : I -> B) :
  map2 f (map g l) (map h l) = map (fun i => f (g i) (h i)) l.
Proof. induction l as [| i l' IH]; cbn; [reflexivity | rewrite IH; reflexivity]. Qed.

Lemma mask_get_map {A} (m : I -> bool) (x : I -> A) :
  mask_get (map m l) (map x l) = map x (filter m l).
Proof.
  induction l as [| i l' IH]; cbn; [reflexivity |].
  destruct (m i); cbn; rewrite IH; reflexivity.
Qed.


Lemma mapM_map {A B} (f : A -> result B) (g : I -> A) (h : I -> B) :
  (forall i, In i l -> f (g i) = Ok (h i)) ->
  mapM f (map g l) = Ok (map h l).
Proof.
  induction l as [| i l' IH]; intros H; cbn; [reflexivity |].
  rewrite H by (left; reflexivity). cbn [bind].
  rewrite IH by (intros j Hj; apply H; right; exact Hj). reflexivity.
Qed.



End Pointwise.


Ltac to_maps :=
  unfold arr_add, arr_sub, arr_mul, arr_scale, arr_rscale, arr_neg, arr_and,
    arr_not, to_complex, carr_add, carr_sub, carr_mul, carr_scale,
    carr_rscale, carr_neg, np_csqrt, zeros, czeros;
  repeat first [rewrite map_map | rewrite map2_map | rewrite mask_get_map].

Section BatchedCubic.

Context {I : Type}.






End BatchedCubic.

Section BatchedCubicRoots.
Context {I : Type}.

End BatchedCubicRoots.



Section BatchedQuartic.
Context {I : Type}.

Lemma multi_quadratic_map (l : list I) (B Cc : I -> C) :
  FQS.multi_quadratic (RtoC 1) (map B l) (map Cc l)
  = Ok (map (fun i =>
               (RtoC (-0.5) * B i
                - csqrt (RtoC (-0.5) * B i * (RtoC (-0.5) * B i) - Cc i
                         + Cimag 0))%C) l,
        map (fun i =>
               (RtoC (-0.5) * B i
                + csqrt (RtoC (-0.5) * B i * (RtoC (-0.5) * B i) - Cc i
                         + Cimag 0))%C) l).
Proof.
  unfold FQS.multi_quadratic.
  rewrite (mapM_map l (fun x => pycdiv x (RtoC 1)) B B)
    by (intros; apply pycdiv_one).
  rewrite (mapM_map l (fun x => pycdiv x (RtoC 1)) Cc Cc)
    by (intros; apply pycdiv_one).
  cbn [bind]. to_maps. reflexivity.
Qed.


End BatchedQuartic.




(* ================================================================== *)
(** * The date functions *)

(** Entries of the month tables at a known month. *)
Ltac month_tables :=
  repeat match goal with
         | |- context [nth ?k ?l ?d] =>
             let v := eval vm_compute in (nth k l d) in
             change (nth k l d) with v
         | H : context [nth ?k ?l ?d] |- _ =>
             let v := eval vm_compute in (nth k l d) in
             change (nth k l d) with v in H
         | |- context [Z.eqb ?a ?b] =>
             let v := eval vm_compute in (Z.eqb a b) in
             match v with true => idtac | false => idtac end;
             change (Z.eqb a b) with v
         | H : context [Z.eqb ?a ?b] |- _ =>
             let v := eval vm_compute in (Z.eqb a b) in
             match v with true => idtac | false => idtac end;
             change (Z.eqb a b) with v in H
         | |- context [Z.ltb ?a ?b] =>
             let v := eval vm_compute in (Z.ltb a b) in
             match v with true => idtac | false => idtac end;
             change (Z.ltb a b) with v
         | H : context [Z.ltb ?a ?b] |- _ =>
             let v := eval vm_compute in (Z.ltb a b) in
             match v with true => idtac | false => idtac end;
             change (Z.ltb a b) with v in H
         end;
  cbn [andb orb negb] in *.

(** The quotient and the remainder of one division of [ord2ymd]. *)
Ltac divide_by n d q r :=
  let Eq := fresh "Eq" in
  let Er := fresh "Er" in
  assert (Eq : (n / d = q)%Z) by (Z.div_mod_to_equations; lia);
  assert (Er : (n mod d = r)%Z) by (Z.div_mod_to_equations; lia);
  rewrite Eq, Er; clear Eq Er.

Section DateArithmetic.

Import Datetime.
Local Open Scope Z_scope.

(** The year before [y] split by the 400-, 100- and 4-year cycles. *)
Lemma year_cycles y :
  1 <= y ->
  exists a b c e,
    y - 1 = 400 * a + 100 * b + 4 * c + e
    /\ 0 <= a /\ 0 <= b <= 3 /\ 0 <= c <= 24 /\ 0 <= e <= 3
    /\ days_before_year y = 146097 * a + 36524 * b + 1461 * c + 365 * e
    /\ is_leap y = (e =? 3) && (negb (c =? 24) || (b =? 3)).
Proof.
  intros Hy.
  exists ((y - 1) / 400), ((y - 1) mod 400 / 100), ((y - 1) mod 100 / 4),
         ((y - 1) mod 4).
  unfold days_before_year, is_leap.
  repeat split; try (Z.div_mod_to_equations; lia).
Qed.

Lemma year_length y :
  1 <= y ->
  days_before_year (y + 1) - days_before_year y
  = 365 + (if is_leap y then 1 else 0).
Proof.
  intros Hy. unfold days_before_year, is_leap.
  replace (y + 1 - 1) with y by lia.
  destruct (Z.eqb_spec (y mod 4) 0), (Z.eqb_spec (y mod 100) 0),
    (Z.eqb_spec (y mod 400) 0); cbn [andb orb negb];
    Z.div_mod_to_equations; lia.
Qed.

(** The month is one of twelve. *)
Lemma month_cases m :
  1 <= m <= 12 ->
  m = 1 \/ m = 2 \/ m = 3 \/ m = 4 \/ m = 5 \/ m = 6 \/ m = 7 \/ m = 8
  \/ m = 9 \/ m = 10 \/ m = 11 \/ m = 12.
Proof. lia. Qed.

(** The day of the year, counted from 0, of a day of a month. *)
Lemma day_of_year_bounds y m d :
  1 <= m <= 12 -> 1 <= d <= days_in_month y m ->
  0 <= days_before_month y m + d - 1
     <= 364 + (if is_leap y then 1 else 0).
Proof.
  intros Hm Hd. unfold days_in_month, days_before_month in *.
  destruct (is_leap y);
    destruct (month_cases m Hm) as
      [-> | [-> | [-> | [-> | [-> | [-> | [-> | [-> | [-> | [-> | [-> | ->]]]]]]]]]]];
    month_tables; lia.
Qed.

(** The last day of the year is December 31. *)
Lemma last_day_of_year y m d :
  1 <= m <= 12 -> 1 <= d <= days_in_month y m ->
  days_before_month y m + d - 1 = 364 + (if is_leap y then 1 else 0) ->
  m = 12 /\ d = 31.
Proof.
  intros Hm Hd. unfold days_in_month, days_before_month in *.
  destruct (is_leap y);
    destruct (month_cases m Hm) as
      [-> | [-> | [-> | [-> | [-> | [-> | [-> | [-> | [-> | [-> | [-> | ->]]]]]]]]]]];
    month_tables; lia.
Qed.

(** The month and the day found from the day of the year, as the second
    half of [ord2ymd] finds them. *)
Lemma month_day_of_day_of_year (leapyear : bool) m d :
  1 <= m <= 12 ->
  1 <= d <= (if (m =? 2) && leapyear then 29
             else nth (Z.to_nat m) DAYS_IN_MONTH 0) ->
  let n := nth (Z.to_nat m) DAYS_BEFORE_MONTH 0
           + (if (2 <? m) && leapyear then 1 else 0) + d - 1 in
  let m' := Z.shiftr (n + 50) 5 in
  let preceding := nth (Z.to_nat m') DAYS_BEFORE_MONTH 0
                   + (if (2 <? m') && leapyear then 1 else 0) in
  (if n <? preceding then
     (m' - 1,
      n - (preceding - (nth (Z.to_nat (m' - 1)) DAYS_IN_MONTH 0
                        + (if (m' - 1 =? 2) && leapyear then 1 else 0))) + 1)
   else (m', n - preceding + 1))
  = (m, d).
Proof.
  intros Hm Hd n m' preceding. subst m' preceding.
  rewrite Z.shiftr_div_pow2 by lia. change (2 ^ 5) with 32.
  assert (Hq : (n + 50) / 32 = m \/ (n + 50) / 32 = m + 1).
  { subst n.
    destruct leapyear;
      destruct (month_cases m Hm) as
        [-> | [-> | [-> | [-> | [-> | [-> | [-> | [-> | [-> | [-> | [-> | ->]]]]]]]]]]];
      month_tables; Z.div_mod_to_equations; lia. }
  destruct Hq as [Hq | Hq]; rewrite Hq; subst n;
    destruct leapyear;
    destruct (month_cases m Hm) as
      [-> | [-> | [-> | [-> | [-> | [-> | [-> | [-> | [-> | [-> | [-> | ->]]]]]]]]]]];
    month_tables;
    repeat match goal with
           | |- context [?x <? ?y] => destruct (Z.ltb_spec x y)
           end;
    try (f_equal; lia); exfalso; Z.div_mod_to_equations; lia.
Qed.

(** [ord2ymd] undoes [ymd2ord] on every date of the calendar. *)
Lemma ord2ymd_ymd2ord y m d :
  1 <= y -> 1 <= m <= 12 -> 1 <= d <= days_in_month y m ->
  ord2ymd (ymd2ord y m d) = (y, m, d).
Proof.
  intros Hy Hm Hd.
  destruct (year_cycles y Hy)
    as (a & b & c & e & Hy' & Ha & Hb & Hc & He & Hdby & Hleap).
  pose proof (day_of_year_bounds y m d Hm Hd) as Hk.
  pose proof (last_day_of_year y m d Hm Hd) as Hlast.
  set (k := days_before_month y m + d - 1) in *.
  assert (Hk' : 0 <= k <= 365) by (destruct (is_leap y); lia).
  unfold ord2ymd. cbv zeta. unfold DI400Y, DI100Y, DI4Y.
  replace (ymd2ord y m d - 1)
    with (146097 * a + 36524 * b + 1461 * c + 365 * e + k)
    by (unfold ymd2ord, k; lia).
  divide_by (146097 * a + 36524 * b + 1461 * c + 365 * e + k) 146097
            a (36524 * b + 1461 * c + 365 * e + k).
  destruct (Z.eq_dec k 365) as [Hk365 | Hk365].
  - (* the last day of a leap year *)
    destruct (is_leap y) eqn:Eleap; [| lia].
    destruct Hlast as [-> ->]; [lia |].
    symmetry in Hleap. apply andb_prop in Hleap. destruct Hleap as [He3 Hcb].
    apply Z.eqb_eq in He3. subst e.
    apply orb_prop in Hcb.
    destruct (Z.eq_dec c 24) as [-> | Hc24].
    + destruct Hcb as [Hcb | Hcb]; [discriminate Hcb |].
      apply Z.eqb_eq in Hcb. subst b.
      divide_by (36524 * 3 + 1461 * 24 + 365 * 3 + k) 36524 4 0.
      change (0 / 1461) with 0. change (0 mod 1461) with 0.
      change (0 / 365) with 0. cbn [Z.eqb Pos.eqb orb].
      f_equal. f_equal. lia.
    + assert (Hb4 : (b =? 4) = false) by lia.
      divide_by (36524 * b + 1461 * c + 365 * 3 + k) 36524
                b (1461 * c + 365 * 3 + k).
      divide_by (1461 * c + 365 * 3 + k) 1461 c (365 * 3 + k).
      divide_by (365 * 3 + k) 365 4 0.
      cbn [Z.eqb Pos.eqb orb].
      f_equal. f_equal. lia.
  - assert (Hk364 : k <= 364) by lia.
    divide_by (36524 * b + 1461 * c + 365 * e + k) 36524
              b (1461 * c + 365 * e + k).
    divide_by (1461 * c + 365 * e + k) 1461 c (365 * e + k).
    divide_by (365 * e + k) 365 e k.
    assert (He4 : (e =? 4) = false) by lia.
    assert (Hb4 : (b =? 4) = false) by lia.
    rewrite He4, Hb4. cbn [orb]. rewrite <- Hleap.
    assert (Hd' : 1 <= d <= (if (m =? 2) && is_leap y then 29
                             else nth (Z.to_nat m) DAYS_IN_MONTH 0))
      by exact Hd.
    pose proof (month_day_of_day_of_year (is_leap y) m d Hm Hd') as Hmd.
    cbv zeta in Hmd. unfold k, days_before_month.
    match goal with
    | |- (if ?c then _ else _) = _ => destruct c
    end;
      pose proof (f_equal fst Hmd) as Em; pose proof (f_equal snd Hmd) as Ed;
      cbn [fst snd] in Em, Ed; rewrite Ed, Em; f_equal; f_equal; lia.
Qed.

Lemma days_before_year_mono y z :
  y <= z -> days_before_year y <= days_before_year z.
Proof.
  intros H. unfold days_before_year. Z.div_mod_to_equations. lia.
Qed.

(** The fields of a value the constructor accepts. *)
Lemma valid_fields d :
  valid d = true ->
  1 <= year d <= 9999 /\ 1 <= month d <= 12
  /\ 1 <= day d <= days_in_month (year d) (month d)
  /\ 0 <= hour d <= 23 /\ 0 <= minute d <= 59 /\ 0 <= second d <= 59
  /\ 0 <= microsecond d <= 999999.
Proof. unfold valid, MINYEAR, MAXYEAR. lia. Qed.

Lemma new_ok y m d h mi s us :
  valid {| year := y; month := m; day := d; hour := h; minute := mi;
           second := s; microsecond := us |} = true ->
  new y m d h mi s us
  = Returns {| year := y; month := m; day := d; hour := h; minute := mi;
               second := s; microsecond := us |}.
Proof.
  intros H. pose proof (valid_fields _ H) as Hf. cbn [year month day hour
    minute second microsecond] in Hf.
  assert (Hdim : days_in_month y m <= 31).
  { unfold days_in_month. destruct ((m =? 2) && is_leap y); [lia |].
    destruct (month_cases m) as
      [-> | [-> | [-> | [-> | [-> | [-> | [-> | [-> | [-> | [-> | [-> | ->]]]]]]]]]]];
      [lia | month_tables; lia ..]. }
  unfold new, MINYEAR, MAXYEAR.
  replace (forallb c_int [y; m; d; h; mi; s; us]) with true.
  2:{ symmetry. cbn [forallb]. unfold c_int.
      change (2 ^ 31) with 2147483648. lia. }
  cbn [negb].
  replace ((1 <=? y) && (y <=? 9999)) with true by lia.
  replace ((1 <=? m) && (m <=? 12)) with true by lia.
  replace ((1 <=? d) && (d <=? days_in_month y m)) with true by lia.
  replace ((0 <=? h) && (h <=? 23)) with true by lia.
  replace ((0 <=? mi) && (mi <=? 59)) with true by lia.
  replace ((0 <=? s) && (s <=? 59)) with true by lia.
  replace ((0 <=? us) && (us <=? 999999)) with true by lia.
  reflexivity.
Qed.

Lemma new_year_ok y :
  1 <= y <= 9999 -> new y 1 1 0 0 0 0 = Returns (new_year y).
Proof.
  intros Hy. apply new_ok. unfold valid, MINYEAR, MAXYEAR, days_in_month.
  cbn [year month day hour minute second microsecond]. month_tables. lia.
Qed.

(** The seconds between the epoch and [d], from its year and its seconds
    into the year. *)
Lemma timegm_year d :
  Calendar.timegm d
  = (days_before_year (year d) + 1 - Calendar.EPOCH_ORD) * 86400
    + seconds_into_year d.
Proof.
  unfold Calendar.timegm, seconds_into_year, ymd2ord.
  set (k := days_before_month (year d) (month d)). lia.
Qed.

Lemma seconds_into_year_bounds d :
  valid d = true ->
  0 <= seconds_into_year d < seconds_in_year (year d).
Proof.
  intros H. destruct (valid_fields d H) as (Hy & Hm & Hd & Hh & Hmi & Hs & _).
  pose proof (day_of_year_bounds (year d) (month d) (day d) Hm Hd) as Hk.
  unfold seconds_into_year, seconds_in_year.
  destruct (is_leap (year d)); lia.
Qed.

Lemma seconds_in_year_pos y : 0 < seconds_in_year y.
Proof. unfold seconds_in_year. destruct (is_leap y); lia. Qed.

Lemma seconds_into_new_year y : seconds_into_year (new_year y) = 0.
Proof.
  unfold seconds_into_year, new_year, days_before_month.
  cbn [year month day hour minute second]. month_tables. reflexivity.
Qed.

Lemma year_duration y :
  1 <= y ->
  Calendar.timegm (new_year (y + 1)) - Calendar.timegm (new_year y)
  = seconds_in_year y.
Proof.
  intros Hy. rewrite !timegm_year, !seconds_into_new_year.
  cbn [year new_year]. pose proof (year_length y Hy) as H.
  unfold seconds_in_year. lia.
Qed.

End DateArithmetic.

Section ToYearFraction.

Import Datetime.

(** The value of [toYearFraction] on every date but those of the last
    year of the calendar. *)
Lemma toYearFraction_value d :
  valid d = true -> (year d < 9999)%Z ->
  toYearFraction d
  = Returns (IZR (year d)
             + IZR (seconds_into_year d) / IZR (seconds_in_year (year d))).
Proof.
  intros H Hy. destruct (valid_fields d H) as (Hy1 & _).
  unfold toYearFraction.
  rewrite (new_year_ok (year d)) by lia. cbn [date_bind].
  rewrite (new_year_ok (year d + 1)) by lia. cbn [date_bind].
  rewrite year_duration by lia.
  rewrite (timegm_year d), (timegm_year (new_year (year d))).
  rewrite seconds_into_new_year. cbn [year new_year].
  replace ((days_before_year (year d) + 1 - Calendar.EPOCH_ORD) * 86400
           + seconds_into_year d
           - ((days_before_year (year d) + 1 - Calendar.EPOCH_ORD) * 86400
              + 0))%Z
    with (seconds_into_year d) by lia.
  unfold pydiv.
  destruct (Req_dec_T (IZR (seconds_in_year (year d))) 0) as [E | _].
  - apply eq_IZR_R0 in E. pose proof (seconds_in_year_pos (year d)). lia.
  - reflexivity.
Qed.

End ToYearFraction.




Section DecYear.

Import Datetime.

Lemma Int_part_IZR_add n f :
  0 <= f < 1 -> Int_part (IZR n + f) = n.
Proof.
  intros Hf. symmetry. apply Int_part_spec. lra.
Qed.

Lemma py_int_IZR_add n f :
  (0 <= n)%Z -> 0 <= f < 1 -> py_int (IZR n + f) = n.
Proof.
  intros Hn Hf. unfold py_int.
  assert (0 <= IZR n) by (apply IZR_le; exact Hn).
  destruct (Rle_dec 0 (IZR n + f)) as [_ | Hneg]; [| lra].
  apply Int_part_IZR_add. exact Hf.
Qed.

Lemma py_int_IZR n : (0 <= n)%Z -> py_int (IZR n) = n.
Proof.
  intros Hn. rewrite <- (Rplus_0_r (IZR n)). apply py_int_IZR_add; [exact Hn | lra].
Qed.

Lemma py_round_0 : py_round 0 = 0%Z.
Proof.
  unfold py_round.
  assert (E : Int_part 0 = 0%Z).
  { symmetry. apply Int_part_spec. cbn. lra. }
  rewrite E. cbn [IZR].
  destruct (Rlt_dec (0 - 0) (1 / 2)) as [_ | H]; [reflexivity | lra].
Qed.

(** Truncation and rounding stay within one of the argument. *)
Lemma Int_part_bounds x : IZR (Int_part x) <= x < IZR (Int_part x) + 1.
Proof.
  destruct (base_Int_part x) as [H1 H2]. lra.
Qed.

Lemma py_round_bounds x :
  x - 1 / 2 <= IZR (py_round x) <= x + 1 / 2.
Proof.
  unfold py_round. pose proof (Int_part_bounds x) as H.
  set (f := Int_part x) in *.
  destruct (Rlt_dec (x - IZR f) (1 / 2)); [lra |].
  destruct (Rlt_dec (1 / 2) (x - IZR f)).
  - rewrite plus_IZR. cbn [IZR IPR]. lra.
  - destruct (Z.even f); [lra | rewrite plus_IZR; cbn [IZR IPR]; lra].
Qed.

(** The microseconds from day 0, from the year and the seconds into it. *)
Lemma to_us_year d :
  to_us d
  = (((days_before_year (year d) + 1) * 86400 + seconds_into_year d)
     * 1000000 + microsecond d)%Z.
Proof.
  unfold to_us, toordinal, ymd2ord, seconds_into_year. lia.
Qed.

Lemma toordinal_range d :
  valid d = true -> (0 < toordinal d <= MAXORDINAL)%Z.
Proof.
  intros H. destruct (valid_fields d H) as (Hy & Hm & Hd & _).
  pose proof (day_of_year_bounds (year d) (month d) (day d) Hm Hd) as Hk.
  unfold toordinal, ymd2ord, MAXORDINAL.
  pose proof (days_before_year_mono 1 (year d) (proj1 Hy)) as H1.
  change (days_before_year 1) with 0%Z in H1.
  destruct (Z.eq_dec (year d) 9999) as [E | E].
  - rewrite E in *. change (is_leap 9999) with false in Hk.
    change (days_before_year 9999) with 3651694%Z. lia.
  - pose proof (year_length (year d) (proj1 Hy)) as HL.
    pose proof (days_before_year_mono (year d + 1) 9999) as H2.
    change (days_before_year 9999) with 3651694%Z in H2.
    destruct (is_leap (year d)); lia.
Qed.

(** [base + td] is the date whose microsecond count is the sum. *)
Lemma add_spec b td d :
  valid d = true -> (to_us b + td = to_us d)%Z -> add b td = Returns d.
Proof.
  intros H E. destruct (valid_fields d H) as (Hy & Hm & Hd & Hh & Hmi & Hs & Hus).
  pose proof (toordinal_range d H) as Hord.
  unfold add. rewrite E. unfold to_us, us_per_day.
  set (o := toordinal d) in *.
  set (tod := ((hour d * 60 + minute d) * 60 + second d)%Z).
  replace ((((o * 24 + hour d) * 60 + minute d) * 60 + second d) * 1000000
           + microsecond d)%Z
    with (o * (24 * 3600 * 1000000) + (tod * 1000000 + microsecond d))%Z
    by (unfold tod; lia).
  assert (Htod : (0 <= tod < 86400)%Z) by (unfold tod; lia).
  assert (E1 : ((o * (24 * 3600 * 1000000) + (tod * 1000000 + microsecond d))
                / (24 * 3600 * 1000000) = o)%Z)
    by (Z.div_mod_to_equations; lia).
  assert (E2 : ((o * (24 * 3600 * 1000000) + (tod * 1000000 + microsecond d))
                mod (24 * 3600 * 1000000) = tod * 1000000 + microsecond d)%Z)
    by (Z.div_mod_to_equations; lia).
  rewrite E1, E2.
  assert (E3 : ((tod * 1000000 + microsecond d) / 1000000 = tod)%Z)
    by (Z.div_mod_to_equations; lia).
  assert (E4 : ((tod * 1000000 + microsecond d) mod 1000000 = microsecond d)%Z)
    by (Z.div_mod_to_equations; lia).
  rewrite E3, E4.
  assert (E5 : (tod / 3600 = hour d)%Z)
    by (unfold tod; Z.div_mod_to_equations; lia).
  assert (E6 : (tod mod 3600 = minute d * 60 + second d)%Z)
    by (unfold tod; Z.div_mod_to_equations; lia).
  rewrite E5, E6.
  assert (E7 : ((minute d * 60 + second d) / 60 = minute d)%Z)
    by (Z.div_mod_to_equations; lia).
  assert (E8 : ((minute d * 60 + second d) mod 60 = second d)%Z)
    by (Z.div_mod_to_equations; lia).
  rewrite E7, E8.
  replace ((0 <? o)%Z && (o <=? MAXORDINAL)%Z) with true by lia.
  unfold o, toordinal. rewrite ord2ymd_ymd2ord by lia.
  destruct d; reflexivity.
Qed.

Lemma year_span y :
  (1 <= y < 9999)%Z ->
  sub (new_year (y + 1)) (new_year y)
  = Returns (seconds_in_year y * 1000000)%Z.
Proof.
  intros Hy. unfold sub. rewrite !to_us_year, !seconds_into_new_year.
  cbn [year microsecond new_year].
  pose proof (year_length y (proj1 Hy)) as HL.
  replace (((days_before_year (y + 1) + 1) * 86400 + 0) * 1000000 + 0
           - (((days_before_year y + 1) * 86400 + 0) * 1000000 + 0))%Z
    with (seconds_in_year y * 1000000)%Z
    by (unfold seconds_in_year; lia).
  unfold timedelta_new, us_per_day, seconds_in_year.
  destruct (is_leap y); reflexivity.
Qed.

Lemma total_seconds_us n : total_seconds (n * 1000000)%Z = IZR n.
Proof. unfold total_seconds. rewrite mult_IZR. field. Qed.

(** A whole number of seconds within a year makes a [timedelta] of as
    many seconds. *)
Lemma timedelta_of_whole_seconds n :
  (0 <= n <= 31622400)%Z ->
  timedelta_of_seconds (IZR n) = Returns (n * 1000000)%Z.
Proof.
  intros Hn. unfold timedelta_of_seconds.
  rewrite py_int_IZR by lia.
  replace ((IZR n - IZR n) * 1000000) with 0 by ring.
  rewrite py_round_0, Z.add_0_r.
  unfold timedelta_new, us_per_day.
  replace (Z.abs (n * 1000000 / (24 * 3600 * 1000000)) <=? 999999999)%Z
    with true; [reflexivity |].
  symmetry. apply Z.leb_le. Z.div_mod_to_equations. lia.
Qed.

End DecYear.

Section DateProperties.

Import Datetime.

Lemma seconds_into_year_zero d :
  valid d = true ->
  (seconds_into_year d = 0%Z
   <-> month d = 1%Z /\ day d = 1%Z /\ hour d = 0%Z /\ minute d = 0%Z
       /\ second d = 0%Z).
Proof.
  intros H. destruct (valid_fields d H) as (Hy & Hm & Hd & Hh & Hmi & Hs & _).
  unfold seconds_into_year. split.
  - intros E.
    assert (Hb : (0 <= days_before_month (year d) (month d))%Z
                 /\ (days_before_month (year d) (month d) = 0 -> month d = 1)%Z).
    { unfold days_before_month.
      destruct (is_leap (year d));
        destruct (month_cases (month d) Hm) as
          [-> | [-> | [-> | [-> | [-> | [-> | [-> | [-> | [-> | [-> | [-> | ->]]]]]]]]]]];
        month_tables; lia. }
    lia.
  - intros (E1 & E2 & E3 & E4 & E5). rewrite E1, E2, E3, E4, E5.
    unfold days_before_month. month_tables. reflexivity.
Qed.

Lemma timegm_lt_of_year_lt d1 d2 :
  valid d1 = true -> valid d2 = true ->
  (year d1 < year d2)%Z -> (Calendar.timegm d1 < Calendar.timegm d2)%Z.
Proof.
  intros H1 H2 Hy. rewrite !timegm_year.
  pose proof (seconds_into_year_bounds d1 H1) as B1.
  pose proof (seconds_into_year_bounds d2 H2) as B2.
  destruct (valid_fields d1 H1) as (Hy1 & _).
  pose proof (year_length (year d1) (proj1 Hy1)) as HL.
  pose proof (days_before_year_mono (year d1 + 1) (year d2)) as HM.
  unfold seconds_in_year in B1.
  destruct (is_leap (year d1)); lia.
Qed.

Lemma toYearFraction_year_9999 d :
  valid d = true -> year d = 9999%Z ->
  toYearFraction d
  = Throws (Exn (ValueError "year 10000 is out of range")).
Proof.
  intros H Hy. unfold toYearFraction. rewrite Hy.
  rewrite (new_year_ok 9999) by lia. reflexivity.
Qed.

Lemma toYearFraction_returns d v :
  valid d = true -> toYearFraction d = Returns v -> (year d < 9999)%Z.
Proof.
  intros H E. destruct (valid_fields d H) as (Hy & _).
  destruct (Z.eq_dec (year d) 9999) as [E9 | E9]; [| lia].
  rewrite (toYearFraction_year_9999 d H E9) in E. discriminate E.
Qed.

(** The fraction of the year is in [0, 1). *)
Lemma year_fraction_bounds d :
  valid d = true ->
  0 <= IZR (seconds_into_year d) / IZR (seconds_in_year (year d)) < 1.
Proof.
  intros H.
  pose proof (seconds_into_year_bounds d H) as [B0 B1].
  pose proof (seconds_in_year_pos (year d)) as HD.
  apply IZR_le in B0. apply IZR_lt in B1. apply IZR_lt in HD.
  set (e := IZR (seconds_into_year d)) in *.
  set (D := IZR (seconds_in_year (year d))) in *.
  split.
  - apply Rmult_le_pos; [exact B0 | apply Rlt_le, Rinv_0_lt_compat; exact HD].
  - apply Rmult_lt_reg_r with D; [exact HD |].
    unfold Rdiv. rewrite Rmult_assoc, Rinv_l by lra. lra.
Qed.

(** Decimal years against the clock of [calendar.timegm]. *)
Lemma toYearFraction_compare d1 d2 v1 v2 :
  valid d1 = true -> valid d2 = true ->
  toYearFraction d1 = Returns v1 -> toYearFraction d2 = Returns v2 ->
  ((Calendar.timegm d1 < Calendar.timegm d2)%Z -> v1 < v2)
  /\ (Calendar.timegm d1 = Calendar.timegm d2 -> v1 = v2).
Proof.
  intros H1 H2 E1 E2.
  pose proof (toYearFraction_returns d1 v1 H1 E1) as Hy1.
  pose proof (toYearFraction_returns d2 v2 H2 E2) as Hy2.
  rewrite (toYearFraction_value d1 H1 Hy1) in E1. injection E1 as <-.
  rewrite (toYearFraction_value d2 H2 Hy2) in E2. injection E2 as <-.
  pose proof (year_fraction_bounds d1 H1) as F1.
  pose proof (year_fraction_bounds d2 H2) as F2.
  pose proof (seconds_in_year_pos (year d1)) as HD. apply IZR_lt in HD.
  destruct (Z.lt_trichotomy (year d1) (year d2)) as [Hlt | [Heq | Hgt]].
  - assert (IZR (year d1) + 1 <= IZR (year d2)).
    { rewrite <- (plus_IZR _ 1). apply IZR_le. lia. }
    pose proof (timegm_lt_of_year_lt d1 d2 H1 H2 Hlt).
    split; intros; [lra | lia].
  - rewrite !timegm_year, <- Heq.
    set (D := IZR (seconds_in_year (year d1))) in *.
    split; intros Ht.
    + assert (Hs : (seconds_into_year d1 < seconds_into_year d2)%Z) by lia.
      apply IZR_lt in Hs.
      assert (IZR (seconds_into_year d1) / D < IZR (seconds_into_year d2) / D);
        [| lra].
      apply Rmult_lt_compat_r; [apply Rinv_0_lt_compat; exact HD | exact Hs].
    + assert (Hs : seconds_into_year d1 = seconds_into_year d2) by lia.
      rewrite Hs. reflexivity.
  - pose proof (timegm_lt_of_year_lt d2 d1 H2 H1 Hgt).
    split; intros; lia.
Qed.

End DateProperties.

(** X1.  On every date before the year 9999 [toYearFraction] returns a
    value in the year of the date: at least the year, below the year
    after, and the year itself exactly at midnight of January 1 (whatever
    the microseconds are). *)
Theorem toYearFraction_within_its_year d :
  Datetime.valid d = true -> (Datetime.year d < 9999)%Z ->
  exists v,
    toYearFraction d = Returns v
    /\ IZR (Datetime.year d) <= v < IZR (Datetime.year d) + 1
    /\ (v = IZR (Datetime.year d)
        <-> Datetime.month d = 1%Z /\ Datetime.day d = 1%Z
            /\ Datetime.hour d = 0%Z /\ Datetime.minute d = 0%Z
            /\ Datetime.second d = 0%Z).
Proof.
  intros H Hy. eexists. split; [apply toYearFraction_value; assumption |].
  pose proof (seconds_into_year_bounds d H) as [B0 B1].
  pose proof (seconds_in_year_pos (Datetime.year d)) as HD.
  apply IZR_le in B0. apply IZR_lt in B1. apply IZR_lt in HD.
  set (e := IZR (seconds_into_year d)) in *.
  set (D := IZR (seconds_in_year (Datetime.year d))) in *.
  assert (Hq : 0 <= e / D < 1).
  { split.
    - apply Rmult_le_pos; [exact B0 | apply Rlt_le, Rinv_0_lt_compat; exact HD].
    - apply Rmult_lt_reg_r with D; [exact HD |].
      unfold Rdiv. rewrite Rmult_assoc, Rinv_l by lra. lra. }
  split; [lra |].
  rewrite <- (seconds_into_year_zero d H). split.
  - intros E. assert (Eq : e / D = 0) by lra.
    assert (E0 : e = 0).
    { replace e with (e / D * D) by (field; lra). rewrite Eq. ring. }
    apply eq_IZR. exact E0.
  - intros E. unfold e. rewrite E. cbn [IZR]. unfold Rdiv. ring.
Qed.

Lemma toYearFraction_within_its_year_witness :
  exists v,
    toYearFraction
      {| Datetime.year := 2021; Datetime.month := 2; Datetime.day := 24;
         Datetime.hour := 12; Datetime.minute := 30; Datetime.second := 0;
         Datetime.microsecond := 5 |} = Returns v
    /\ IZR 2021 <= v < IZR 2021 + 1
    /\ (v = IZR 2021
        <-> 2 = 1 /\ 24 = 1 /\ 12 = 0 /\ 30 = 0 /\ 0 = 0)%Z.
Proof.
  apply (toYearFraction_within_its_year
           {| Datetime.year := 2021; Datetime.month := 2; Datetime.day := 24;
              Datetime.hour := 12; Datetime.minute := 30; Datetime.second := 0;
              Datetime.microsecond := 5 |}).
  - reflexivity.
  - reflexivity.
Defined.

(** X2.  [toYearFraction] keeps the order of time, second by second: of
    two dates before the year 9999 the one with the smaller decimal year
    is the earlier one by the clock of [calendar.timegm], and two dates
    that differ in their microseconds only have the same decimal year. *)
Theorem toYearFraction_keeps_the_order d1 d2 v1 v2 :
  Datetime.valid d1 = true -> Datetime.valid d2 = true ->
  toYearFraction d1 = Returns v1 -> toYearFraction d2 = Returns v2 ->
  (v1 < v2 <-> (Calendar.timegm d1 < Calendar.timegm d2)%Z)
  /\ (v1 = v2 <-> Calendar.timegm d1 = Calendar.timegm d2).
Proof.
  intros H1 H2 E1 E2.
  destruct (toYearFraction_compare d1 d2 v1 v2 H1 H2 E1 E2) as [Hlt Heq].
  destruct (toYearFraction_compare d2 d1 v2 v1 H2 H1 E2 E1) as [Hgt _].
  split; split; intros H.
  - destruct (Z.lt_trichotomy (Calendar.timegm d1) (Calendar.timegm d2))
      as [Ht | [Ht | Ht]]; [exact Ht | |].
    + specialize (Heq Ht). lra.
    + specialize (Hgt Ht). lra.
  - apply Hlt. exact H.
  - destruct (Z.lt_trichotomy (Calendar.timegm d1) (Calendar.timegm d2))
      as [Ht | [Ht | Ht]]; [| exact Ht |].
    + specialize (Hlt Ht). lra.
    + specialize (Hgt Ht). lra.
  - apply Heq. exact H.
Qed.

(** X3.  On a date of the year 9999 [toYearFraction] raises: the start
    of the following year is not a date of the calendar. *)
Theorem toYearFraction_raises_in_9999 d :
  Datetime.valid d = true -> Datetime.year d = 9999%Z ->
  exists msg, toYearFraction d = Throws (Exn (ValueError msg)).
Proof.
  intros H Hy. eexists. apply toYearFraction_year_9999; assumption.
Qed.

Lemma toYearFraction_keeps_the_order_witness :
  let v1 := IZR 2021 + IZR (seconds_into_year a_date) / IZR (seconds_in_year 2021) in
  let v2 := IZR 2021 + IZR (seconds_into_year a_later_date)
                       / IZR (seconds_in_year 2021) in
  (v1 < v2 <-> (Calendar.timegm a_date < Calendar.timegm a_later_date)%Z)
  /\ (v1 = v2 <-> Calendar.timegm a_date = Calendar.timegm a_later_date).
Proof.
  exact (toYearFraction_keeps_the_order a_date a_later_date _ _
           eq_refl eq_refl
           (toYearFraction_value a_date eq_refl eq_refl)
           (toYearFraction_value a_later_date eq_refl eq_refl)).
Defined.

Lemma toYearFraction_raises_in_9999_witness :
  exists msg, toYearFraction a_last_date = Throws (Exn (ValueError msg)).
Proof.
  apply (toYearFraction_raises_in_9999 a_last_date); reflexivity.
Defined.

Lemma decyeartodatetime_of_toYearFraction_aux d v :
  Datetime.valid d = true ->
  toYearFraction d = Returns v ->
  decyeartodatetime v = Returns (whole_second d).
Proof.
  intros H E.
  pose proof (toYearFraction_returns d v H E) as Hy.
  rewrite (toYearFraction_value d H Hy) in E. injection E as <-.
  destruct (valid_fields d H) as (Hy1 & Hm & Hd & Hh & Hmi & Hs & Hus).
  pose proof (year_fraction_bounds d H) as HF.
  pose proof (seconds_into_year_bounds d H) as HB.
  pose proof (seconds_in_year_pos (Datetime.year d)) as HD.
  set (y := Datetime.year d) in *.
  set (e := seconds_into_year d) in *.
  set (D := seconds_in_year y) in *.
  unfold decyeartodatetime.
  rewrite py_int_IZR_add by (lia || exact HF).
  rewrite (new_year_ok y) by lia. cbn [date_bind].
  unfold Datetime.replace_year. cbn [Datetime.year Datetime.month Datetime.day
    Datetime.hour Datetime.minute Datetime.second Datetime.microsecond new_year].
  rewrite (new_year_ok (y + 1)) by lia. cbn [date_bind].
  rewrite year_span by lia. cbn [date_bind]. fold D.
  rewrite total_seconds_us.
  replace (IZR D * (IZR y + IZR e / IZR D - IZR y)) with (IZR e).
  2:{ apply IZR_lt in HD. field. lra. }
  rewrite timedelta_of_whole_seconds.
  2:{ unfold D, seconds_in_year in HB.
      destruct (Datetime.is_leap y); lia. }
  cbn [date_bind].
  rewrite (add_spec (new_year y) (e * 1000000) (whole_second d)).
  - reflexivity.
  - unfold Datetime.valid, whole_second, Datetime.MINYEAR, Datetime.MAXYEAR.
    cbn [Datetime.year Datetime.month Datetime.day Datetime.hour
         Datetime.minute Datetime.second Datetime.microsecond].
    fold y. lia.
  - rewrite !to_us_year, seconds_into_new_year.
    unfold whole_second at 1 3. cbn [Datetime.year Datetime.microsecond new_year].
    replace (seconds_into_year (whole_second d)) with e by reflexivity.
    fold y. lia.
Qed.

Section DecYearDomain.

Import Datetime.

Lemma py_int_nonneg x :
  0 <= x -> (0 <= py_int x)%Z /\ IZR (py_int x) <= x < IZR (py_int x) + 1.
Proof.
  intros Hx. unfold py_int. destruct (Rle_dec 0 x) as [_ | H]; [| lra].
  pose proof (Int_part_bounds x) as HB. split; [| exact HB].
  apply le_IZR. apply Rnot_lt_le. intros Hlt.
  assert (IZR (Int_part x) + 1 <= 0); [| lra].
  rewrite <- (plus_IZR _ 1). apply IZR_le. apply lt_IZR in Hlt. lia.
Qed.

Lemma py_int_neg x : x < 0 -> (py_int x <= 0)%Z.
Proof.
  intros Hx. unfold py_int. destruct (Rle_dec 0 x) as [H | _]; [lra |].
  pose proof (Int_part_bounds (- x)) as HB.
  assert (0 <= Int_part (- x))%Z; [| lia].
  apply le_IZR. apply Rnot_lt_le. intros Hlt.
  assert (IZR (Int_part (- x)) + 1 <= 0); [| lra].
  rewrite <- (plus_IZR _ 1). apply IZR_le. apply lt_IZR in Hlt. lia.
Qed.

(** [int(x)] lies in the same bounds as [x], for whole bounds. *)
Lemma py_int_range x lo hi :
  (0 <= lo)%Z -> IZR lo <= x < IZR hi -> (lo <= py_int x < hi)%Z.
Proof.
  intros Hlo [H1 H2].
  assert (Hx : 0 <= x) by (apply IZR_le in Hlo; lra).
  destruct (py_int_nonneg x Hx) as (_ & B1 & B2). split.
  - assert (IZR lo < IZR (py_int x) + 1) by lra.
    rewrite <- (plus_IZR _ 1) in H. apply lt_IZR in H. lia.
  - apply lt_IZR. lra.
Qed.

Lemma new_bad_year y :
  ~ (1 <= y <= 9999)%Z -> exists e, new y 1 1 0 0 0 0 = Throws e.
Proof.
  intros Hy. unfold new.
  destruct (negb (forallb c_int [y; 1; 1; 0; 0; 0; 0])%Z);
    [eexists; reflexivity |].
  replace ((MINYEAR <=? y)%Z && (y <=? MAXYEAR)%Z) with false
    by (unfold MINYEAR, MAXYEAR; lia).
  eexists. reflexivity.
Qed.

(** The [timedelta] of a part of a year. *)
Lemma timedelta_of_part_of_year x :
  0 <= x < 31622400 ->
  exists us,
    timedelta_of_seconds x = Returns us
    /\ IZR us <= x * 1000000 + 1 / 2 /\ (0 <= us)%Z.
Proof.
  intros Hx. unfold timedelta_of_seconds.
  destruct (py_int_nonneg x (proj1 Hx)) as (Hw & B1 & B2).
  set (w := py_int x) in *.
  pose proof (py_round_bounds ((x - IZR w) * 1000000)) as HR.
  set (r := py_round ((x - IZR w) * 1000000)) in *.
  assert (Hr : (0 <= r <= 1000000)%Z).
  { split; apply le_IZR.
    - apply Rnot_lt_le. intros Hlt.
      assert (IZR r <= -1).
      { change (-1) with (IZR (-1)). apply IZR_le. apply lt_IZR in Hlt. lia. }
      lra.
    - apply Rnot_lt_le. intros Hlt.
      assert (1000001 <= IZR r).
      { change 1000001 with (IZR 1000001). apply IZR_le.
        apply lt_IZR in Hlt. lia. }
      lra. }
  assert (Hw' : (w < 31622400)%Z) by (apply lt_IZR; lra).
  exists (w * 1000000 + r)%Z. split; [| split].
  - unfold timedelta_new, us_per_day.
    replace (Z.abs ((w * 1000000 + r) / (24 * 3600 * 1000000)) <=? 999999999)%Z
      with true; [reflexivity |].
    symmetry. apply Z.leb_le. Z.div_mod_to_equations. lia.
  - rewrite plus_IZR, mult_IZR. lra.
  - lia.
Qed.

End DecYearDomain.

(** X5.  [decyeartodatetime] returns a date exactly on the decimal years
    from 1 up to, not including, 9999; on a whole year in that range it
    returns midnight of January 1.  Below 1 and from 9999 on it raises: a
    [ValueError] on the year 0 and on the year 10000, which the calendar
    does not have. *)
Theorem decyeartodatetime_domain :
  (forall din, 1 <= din < 9999 -> exists r, decyeartodatetime din = Returns r)
  /\ (forall y, (1 <= y < 9999)%Z ->
        decyeartodatetime (IZR y) = Returns (new_year y))
  /\ (forall din, din < 1 \/ 9999 <= din ->
        exists e, decyeartodatetime din = Throws e)
  /\ (forall din, 0 <= din < 1 ->
        exists msg, decyeartodatetime din = Throws (Exn (ValueError msg)))
  /\ (forall din, 9999 <= din < 10000 ->
        exists msg, decyeartodatetime din = Throws (Exn (ValueError msg))).
Proof.
  split; [| split; [| split; [| split]]].
  - intros din Hd. unfold decyeartodatetime.
    assert (Hy : (1 <= py_int din < 9999)%Z)
      by (apply py_int_range; [lia | exact Hd]).
    destruct (py_int_nonneg din) as (_ & B1 & B2); [lra |].
    set (y := py_int din) in *.
    rewrite (new_year_ok y) by lia. cbn [date_bind].
    unfold Datetime.replace_year.
    cbn [Datetime.year Datetime.month Datetime.day Datetime.hour
         Datetime.minute Datetime.second Datetime.microsecond new_year].
    rewrite (new_year_ok (y + 1)) by lia. cbn [date_bind].
    rewrite year_span by lia. cbn [date_bind].
    rewrite total_seconds_us.
    pose proof (seconds_in_year_pos y) as HD.
    assert (HD' : (seconds_in_year y <= 31622400)%Z)
      by (unfold seconds_in_year; destruct (Datetime.is_leap y); lia).
    apply IZR_lt in HD. apply IZR_le in HD'.
    set (D := IZR (seconds_in_year y)) in *.
    assert (Hx : 0 <= D * (din - IZR y) < D) by nra.
    destruct (timedelta_of_part_of_year (D * (din - IZR y))) as (us & -> & Hus & Hus0);
      [lra |].
    cbn [date_bind].
    assert (Hus' : (us <= seconds_in_year y * 1000000)%Z).
    { assert (H : IZR us < IZR (seconds_in_year y * 1000000 + 1)).
      { rewrite plus_IZR, mult_IZR. fold D. cbn [IZR IPR]. lra. }
      apply lt_IZR in H. lia. }
    unfold Datetime.add. rewrite to_us_year, seconds_into_new_year.
    cbn [Datetime.year Datetime.microsecond new_year].
    set (days := ((((Datetime.days_before_year y + 1) * 86400 + 0) * 1000000
                   + 0 + us) / Datetime.us_per_day)%Z).
    assert (Hdays : (0 < days <= Datetime.MAXORDINAL)%Z).
    { pose proof (days_before_year_mono 1 y) as M1.
      change (Datetime.days_before_year 1) with 0%Z in M1.
      pose proof (year_length y) as HL.
      pose proof (days_before_year_mono (y + 1) 9999) as M2.
      change (Datetime.days_before_year 9999) with 3651694%Z in M2.
      unfold days, Datetime.us_per_day, Datetime.MAXORDINAL.
      unfold seconds_in_year in Hus'.
      destruct (Datetime.is_leap y); Z.div_mod_to_equations; lia. }
    replace ((0 <? days)%Z && (days <=? Datetime.MAXORDINAL)%Z) with true by lia.
    destruct (Datetime.ord2ymd days) as [[y' m'] d']. cbn [date_bind].
    eexists. reflexivity.
  - intros y Hy.
    assert (Hv : Datetime.valid (new_year y) = true).
    { unfold Datetime.valid, Datetime.MINYEAR, Datetime.MAXYEAR,
        Datetime.days_in_month.
      cbn [Datetime.year Datetime.month Datetime.day Datetime.hour
           Datetime.minute Datetime.second Datetime.microsecond new_year].
      month_tables. lia. }
    pose proof (toYearFraction_value (new_year y) Hv) as E.
    cbn [Datetime.year new_year] in E. rewrite seconds_into_new_year in E.
    replace (IZR y + IZR 0 / IZR (seconds_in_year y)) with (IZR y) in E
      by (unfold Rdiv; cbn [IZR]; ring).
    specialize (E ltac:(lia)).
    exact (decyeartodatetime_of_toYearFraction_aux (new_year y) (IZR y) Hv E).
  - intros din Hd. unfold decyeartodatetime.
    destruct Hd as [Hd | Hd].
    + assert (Hy : (py_int din <= 0)%Z).
      { destruct (Rlt_or_le din 0) as [Hn | Hp]; [apply py_int_neg; exact Hn |].
        assert (0 <= py_int din < 1)%Z; [| lia].
        apply py_int_range; [lia | cbn [IZR IPR]; lra]. }
      destruct (new_bad_year (py_int din)) as [e ->]; [lia |].
      exists e. reflexivity.
    + assert (Hy : (9999 <= py_int din)%Z).
      { destruct (py_int_nonneg din) as (_ & B1 & B2); [lra |].
        assert (IZR 9998 < IZR (py_int din)) by (cbn [IZR IPR IPR_2]; lra).
        apply lt_IZR in H. lia. }
      destruct (Z.eq_dec (py_int din) 9999) as [-> | Hne].
      * eexists. reflexivity.
      * destruct (new_bad_year (py_int din)) as [e ->]; [lia |].
        exists e. reflexivity.
  - intros din Hd. unfold decyeartodatetime.
    assert (Hy : (0 <= py_int din < 1)%Z)
      by (apply py_int_range; [lia | cbn [IZR IPR]; lra]).
    replace (py_int din) with 0%Z by lia. eexists. reflexivity.
  - intros din Hd. unfold decyeartodatetime.
    assert (Hy : (9999 <= py_int din < 10000)%Z)
      by (apply py_int_range; [lia | lra]).
    replace (py_int din) with 9999%Z by lia. eexists. reflexivity.
Qed.

Lemma decyeartodatetime_domain_witness :
  decyeartodatetime (IZR 2021) = Returns (new_year 2021)
  /\ (exists msg,
        decyeartodatetime (1 / 2) = Throws (Exn (ValueError msg)))
  /\ (exists msg,
        decyeartodatetime (9999 + 1 / 2) = Throws (Exn (ValueError msg))).
Proof.
  destruct decyeartodatetime_domain as (_ & Hy & _ & H0 & H9).
  split; [| split].
  - apply Hy. lia.
  - apply H0. lra.
  - apply H9. lra.
Defined.

Section DateOfInstant.

Import Datetime.
Local Open Scope Z_scope.

(** Every day of a year is a day of one of its months. *)
Lemma month_of_day y k :
  0 <= k <= 364 + (if is_leap y then 1 else 0) ->
  exists m dd,
    1 <= m <= 12 /\ 1 <= dd <= days_in_month y m
    /\ days_before_month y m + dd - 1 = k.
Proof.
  intros Hk. unfold days_in_month, days_before_month.
  destruct (is_leap y).
  - destruct (Z_lt_le_dec k 31); [exists 1, (k + 1); month_tables; lia |].
    destruct (Z_lt_le_dec k 60); [exists 2, (k - 31 + 1); month_tables; lia |].
    destruct (Z_lt_le_dec k 91); [exists 3, (k - 60 + 1); month_tables; lia |].
    destruct (Z_lt_le_dec k 121); [exists 4, (k - 91 + 1); month_tables; lia |].
    destruct (Z_lt_le_dec k 152); [exists 5, (k - 121 + 1); month_tables; lia |].
    destruct (Z_lt_le_dec k 182); [exists 6, (k - 152 + 1); month_tables; lia |].
    destruct (Z_lt_le_dec k 213); [exists 7, (k - 182 + 1); month_tables; lia |].
    destruct (Z_lt_le_dec k 244); [exists 8, (k - 213 + 1); month_tables; lia |].
    destruct (Z_lt_le_dec k 274); [exists 9, (k - 244 + 1); month_tables; lia |].
    destruct (Z_lt_le_dec k 305); [exists 10, (k - 274 + 1); month_tables; lia |].
    destruct (Z_lt_le_dec k 335); [exists 11, (k - 305 + 1); month_tables; lia |].
    exists 12, (k - 335 + 1); month_tables; lia.
  - destruct (Z_lt_le_dec k 31); [exists 1, (k + 1); month_tables; lia |].
    destruct (Z_lt_le_dec k 59); [exists 2, (k - 31 + 1); month_tables; lia |].
    destruct (Z_lt_le_dec k 90); [exists 3, (k - 59 + 1); month_tables; lia |].
    destruct (Z_lt_le_dec k 120); [exists 4, (k - 90 + 1); month_tables; lia |].
    destruct (Z_lt_le_dec k 151); [exists 5, (k - 120 + 1); month_tables; lia |].
    destruct (Z_lt_le_dec k 181); [exists 6, (k - 151 + 1); month_tables; lia |].
    destruct (Z_lt_le_dec k 212); [exists 7, (k - 181 + 1); month_tables; lia |].
    destruct (Z_lt_le_dec k 243); [exists 8, (k - 212 + 1); month_tables; lia |].
    destruct (Z_lt_le_dec k 273); [exists 9, (k - 243 + 1); month_tables; lia |].
    destruct (Z_lt_le_dec k 304); [exists 10, (k - 273 + 1); month_tables; lia |].
    destruct (Z_lt_le_dec k 334); [exists 11, (k - 304 + 1); month_tables; lia |].
    exists 12, (k - 334 + 1); month_tables; lia.
Qed.

Lemma new_year_valid y : 1 <= y <= 9999 -> valid (new_year y) = true.
Proof.
  intros Hy. unfold valid, MINYEAR, MAXYEAR, days_in_month.
  cbn [year month day hour minute second microsecond new_year].
  month_tables. lia.
Qed.

(** The date [td] microseconds into the year [y], up to the start of the
    next year. *)
Lemma date_in_year y td :
  1 <= y <= 9998 -> 0 <= td <= seconds_in_year y * 1000000 ->
  exists d,
    valid d = true /\ to_us d = to_us (new_year y) + td
    /\ ((year d = y /\ seconds_into_year d = td / 1000000)
        \/ (year d = y + 1 /\ seconds_into_year d = 0
            /\ td = seconds_in_year y * 1000000)).
Proof.
  intros Hy Htd.
  destruct (Z.eq_dec td (seconds_in_year y * 1000000)) as [E | E].
  - exists (new_year (y + 1)). split; [apply new_year_valid; lia |].
    split; [| right; split; [reflexivity | split;
                [apply seconds_into_new_year | exact E]]].
    rewrite !to_us_year, !seconds_into_new_year.
    cbn [year microsecond new_year]. rewrite E.
    pose proof (year_length y (proj1 Hy)) as HL.
    unfold seconds_in_year. lia.
  - set (secs := td / 1000000).
    set (k := secs / 86400).
    assert (Hsecs : 0 <= secs < seconds_in_year y)
      by (unfold secs; Z.div_mod_to_equations; lia).
    assert (Hk : 0 <= k <= 364 + (if is_leap y then 1 else 0)).
    { unfold k. unfold seconds_in_year in Hsecs.
      destruct (is_leap y); Z.div_mod_to_equations; lia. }
    destruct (month_of_day y k Hk) as (m & dd & Hm & Hdd & Ek).
    set (sod := secs mod 86400).
    exists {| year := y; month := m; day := dd; hour := sod / 3600;
              minute := (sod mod 3600) / 60; second := sod mod 60;
              microsecond := td mod 1000000 |}.
    assert (Es : seconds_into_year
                   {| year := y; month := m; day := dd; hour := sod / 3600;
                      minute := (sod mod 3600) / 60; second := sod mod 60;
                      microsecond := td mod 1000000 |} = secs).
    { unfold seconds_into_year.
      cbn [year month day hour minute second microsecond].
      replace (days_before_month y m + dd - 1) with k by lia.
      unfold sod, k. Z.div_mod_to_equations. lia. }
    split; [| split].
    + unfold valid, MINYEAR, MAXYEAR.
      cbn [year month day hour minute second microsecond].
      assert (0 <= sod < 86400) by (unfold sod; Z.div_mod_to_equations; lia).
      assert (0 <= sod / 3600 <= 23) by (Z.div_mod_to_equations; lia).
      assert (0 <= sod mod 3600 / 60 <= 59) by (Z.div_mod_to_equations; lia).
      assert (0 <= sod mod 60 <= 59) by (Z.div_mod_to_equations; lia).
      assert (0 <= td mod 1000000 <= 999999) by (Z.div_mod_to_equations; lia).
      lia.
    + rewrite (to_us_year (new_year y)), seconds_into_new_year, to_us_year, Es.
      cbn [year microsecond new_year].
      unfold secs. Z.div_mod_to_equations. lia.
    + left. split; [reflexivity | exact Es].
Qed.

End DateOfInstant.

Section ThereAndBack.

Import Datetime.

(** The [timedelta] of a part of a year is that part to half a
    microsecond. *)
Lemma timedelta_of_part_of_year_near x :
  0 <= x < 31622400 ->
  exists us,
    timedelta_of_seconds x = Returns us
    /\ x * 1000000 - 1 / 2 <= IZR us <= x * 1000000 + 1 / 2 /\ (0 <= us)%Z.
Proof.
  intros Hx. unfold timedelta_of_seconds.
  destruct (py_int_nonneg x (proj1 Hx)) as (Hw & B1 & B2).
  set (w := py_int x) in *.
  pose proof (py_round_bounds ((x - IZR w) * 1000000)) as HR.
  set (r := py_round ((x - IZR w) * 1000000)) in *.
  assert (Hr : (0 <= r <= 1000000)%Z).
  { split; apply le_IZR.
    - apply Rnot_lt_le. intros Hlt.
      assert (IZR r <= -1).
      { change (-1) with (IZR (-1)). apply IZR_le. apply lt_IZR in Hlt. lia. }
      lra.
    - apply Rnot_lt_le. intros Hlt.
      assert (1000001 <= IZR r).
      { change 1000001 with (IZR 1000001). apply IZR_le.
        apply lt_IZR in Hlt. lia. }
      lra. }
  assert (Hw' : (w < 31622400)%Z) by (apply lt_IZR; lra).
  exists (w * 1000000 + r)%Z. split; [| split].
  - unfold timedelta_new, us_per_day.
    replace (Z.abs ((w * 1000000 + r) / (24 * 3600 * 1000000)) <=? 999999999)%Z
      with true; [reflexivity |].
    symmetry. apply Z.leb_le. Z.div_mod_to_equations. lia.
  - rewrite plus_IZR, mult_IZR. lra.
  - lia.
Qed.

Lemma toYearFraction_of_decyeartodatetime_aux din :
  1 <= din < 9998 ->
  exists d v,
    decyeartodatetime din = Returns d
    /\ valid d = true
    /\ toYearFraction d = Returns v
    /\ Rabs (v - din) < 1 / 31000000.
Proof.
  intros Hd. unfold decyeartodatetime.
  assert (Hy : (1 <= py_int din < 9998)%Z)
    by (apply py_int_range; [lia | exact Hd]).
  destruct (py_int_nonneg din) as (_ & B1 & B2); [lra |].
  set (y := py_int din) in *.
  rewrite (new_year_ok y) by lia. cbn [date_bind].
  unfold replace_year.
  cbn [year month day hour minute second microsecond new_year].
  rewrite (new_year_ok (y + 1)) by lia. cbn [date_bind].
  rewrite year_span by lia. cbn [date_bind].
  rewrite total_seconds_us.
  pose proof (seconds_in_year_pos y) as HD.
  assert (HD' : (31536000 <= seconds_in_year y <= 31622400)%Z)
    by (unfold seconds_in_year; destruct (is_leap y); lia).
  apply IZR_lt in HD.
  assert (HD1 : 31536000 <= IZR (seconds_in_year y))
    by (apply IZR_le; lia).
  assert (HD2 : IZR (seconds_in_year y) <= 31622400)
    by (apply IZR_le; lia).
  set (Dz := seconds_in_year y) in *.
  set (D := IZR Dz) in *.
  set (rem := din - IZR y) in *.
  assert (Hrem : 0 <= rem < 1) by (unfold rem; lra).
  assert (Hx : 0 <= D * rem < D) by nra.
  destruct (timedelta_of_part_of_year_near (D * rem))
    as (us & -> & Hus & Hus0); [lra |].
  cbn [date_bind].
  assert (Hus' : (us <= Dz * 1000000)%Z).
  { assert (H : IZR us < IZR (Dz * 1000000 + 1)).
    { rewrite plus_IZR, mult_IZR. fold D. cbn [IZR IPR]. lra. }
    apply lt_IZR in H. lia. }
  destruct (date_in_year y us) as (d & Hv & Eus & Hcase); [lia | lia |].
  rewrite (add_spec (new_year y) us d Hv (eq_sym Eus)). cbn [date_bind].
  exists d. eexists. split; [reflexivity |]. split; [exact Hv |].
  assert (Hyd : (year d < 9999)%Z) by (destruct Hcase as [[-> _] | [-> _]]; lia).
  split; [exact (toYearFraction_value d Hv Hyd) |].
  destruct Hcase as [[Ey Es] | (Ey & Es & Eu)].
  - rewrite Ey, Es. fold Dz. fold D.
    assert (Hq : IZR (us / 1000000) * 1000000 <= IZR us
                 < (IZR (us / 1000000) + 1) * 1000000).
    { rewrite <- (plus_IZR _ 1), <- !mult_IZR. split.
      - apply IZR_le. Z.div_mod_to_equations. lia.
      - apply IZR_lt. Z.div_mod_to_equations. lia. }
    set (q := IZR (us / 1000000)) in *.
    replace (IZR y + q / D - din) with ((q - D * rem) / D)
      by (unfold rem; field; lra).
    assert (Hn : - (1 + 1 / 1000000) < q - D * rem <= 1 / 1000000) by lra.
    apply Rabs_def1.
    + apply Rmult_lt_reg_r with D; [lra |].
      replace ((q - D * rem) / D * D) with (q - D * rem) by (field; lra).
      lra.
    + apply Rmult_lt_reg_r with D; [lra |].
      replace ((q - D * rem) / D * D) with (q - D * rem) by (field; lra).
      lra.
  - rewrite Ey, Es. rewrite Eu in Hus. rewrite mult_IZR in Hus.
    change (IZR (seconds_in_year y)) with D in Hus. rewrite plus_IZR.
    replace (IZR y + 1 + 0 / IZR (seconds_in_year (y + 1)) - din)
      with (1 - rem) by (unfold rem, Rdiv; ring).
    assert (Hn : D * (1 - rem) <= 1 / 1000000) by nra.
    apply Rabs_def1; [| lra].
    apply Rmult_lt_reg_r with D; [lra |]. nra.
Qed.

End ThereAndBack.

(** X25.  There and back: on a decimal year from 1 up to, not including,
    9998 [decyeartodatetime] returns a date the calendar has, and
    [toYearFraction] of that date is the decimal year again to less than
    1/31000000 of a year, about one second (the seconds of a year are at
    least 31536000, and [toYearFraction] drops the microseconds). *)
Theorem toYearFraction_of_decyeartodatetime din :
  1 <= din < 9998 ->
  exists d v,
    decyeartodatetime din = Returns d
    /\ Datetime.valid d = true
    /\ toYearFraction d = Returns v
    /\ Rabs (v - din) < 1 / 31000000.
Proof. apply toYearFraction_of_decyeartodatetime_aux. Qed.

Lemma toYearFraction_of_decyeartodatetime_witness :
  exists d v,
    decyeartodatetime (2021 + 1 / 3) = Returns d
    /\ Datetime.valid d = true
    /\ toYearFraction d = Returns v
    /\ Rabs (v - (2021 + 1 / 3)) < 1 / 31000000.
Proof. apply (toYearFraction_of_decyeartodatetime (2021 + 1 / 3)). lra. Defined.

Section Accuracy.

Import Datetime.

(** The days between the starts of two years. *)
Lemma year_starts_apart y n :
  (1 <= y)%Z ->
  (365 * Z.of_nat n <= days_before_year (y + Z.of_nat n) - days_before_year y
   <= 366 * Z.of_nat n)%Z.
Proof.
  intros Hy. induction n as [| n IH].
  - cbn [Z.of_nat]. replace (y + 0)%Z with y by lia. lia.
  - replace (y + Z.of_nat (S n))%Z with (y + Z.of_nat n + 1)%Z by lia.
    pose proof (year_length (y + Z.of_nat n)%Z ltac:(lia)) as HL.
    destruct (is_leap (y + Z.of_nat n)); lia.
Qed.

Lemma year_start_next y :
  (1 <= y)%Z -> year_start (y + 1) - year_start y = IZR (seconds_in_year y).
Proof.
  intros Hy. unfold year_start. rewrite <- minus_IZR. f_equal.
  pose proof (year_length y Hy) as HL. unfold seconds_in_year.
  destruct (is_leap y); lia.
Qed.

Lemma year_start_later y z :
  (1 <= y <= z)%Z ->
  0 <= year_start z - year_start y <= 31622400 * (IZR z - IZR y).
Proof.
  intros H. pose proof (year_starts_apart y (Z.to_nat (z - y)) ltac:(lia)) as HA.
  rewrite Z2Nat.id in HA by lia. replace (y + (z - y))%Z with z in HA by lia.
  unfold year_start. rewrite <- !minus_IZR.
  change 31622400 with (IZR 31622400). change 0 with (IZR 0).
  rewrite <- mult_IZR. split; apply IZR_le; lia.
Qed.

Lemma seconds_in_year_range y :
  0 < IZR (seconds_in_year y) <= 31622400.
Proof.
  unfold seconds_in_year. split.
  - apply IZR_lt. destruct (is_leap y); lia.
  - apply IZR_le. destruct (is_leap y); lia.
Qed.

(** The instant of a decimal year moves by at most 31622400 seconds per
    year. *)
Lemma instant_later y1 r1 y2 r2 :
  (1 <= y1 < y2)%Z -> 0 <= r1 <= 1 -> 0 <= r2 <= 1 ->
  0 <= (year_start y2 + IZR (seconds_in_year y2) * r2)
       - (year_start y1 + IZR (seconds_in_year y1) * r1)
    <= 31622400 * ((IZR y2 + r2) - (IZR y1 + r1)).
Proof.
  intros Hy Hr1 Hr2.
  pose proof (year_start_next y1 ltac:(lia)) as HN.
  pose proof (year_start_later (y1 + 1) y2 ltac:(lia)) as HL.
  rewrite plus_IZR in HL.
  pose proof (seconds_in_year_range y1) as [D1 D1'].
  pose proof (seconds_in_year_range y2) as [D2 D2'].
  set (d1 := IZR (seconds_in_year y1)) in *.
  set (d2 := IZR (seconds_in_year y2)) in *.
  assert (P1 : 0 <= d1 * (1 - r1)) by (apply Rmult_le_pos; lra).
  assert (P2 : 0 <= d2 * r2) by (apply Rmult_le_pos; lra).
  assert (Q1 : d1 * (1 - r1) <= 31622400 * (1 - r1))
    by (apply Rmult_le_compat_r; lra).
  assert (Q2 : d2 * r2 <= 31622400 * r2)
    by (apply Rmult_le_compat_r; lra).
  lra.
Qed.

Lemma instant_lipschitz y1 r1 y2 r2 :
  (1 <= y1)%Z -> (1 <= y2)%Z -> 0 <= r1 <= 1 -> 0 <= r2 <= 1 ->
  Rabs ((year_start y1 + IZR (seconds_in_year y1) * r1)
        - (year_start y2 + IZR (seconds_in_year y2) * r2))
  <= 31622400 * Rabs ((IZR y1 + r1) - (IZR y2 + r2)).
Proof.
  intros H1 H2 Hr1 Hr2.
  destruct (Z.lt_trichotomy y1 y2) as [Hlt | [-> | Hgt]].
  - pose proof (instant_later y1 r1 y2 r2 ltac:(lia) Hr1 Hr2) as [A B].
    rewrite !Rabs_left1 by lra. lra.
  - pose proof (seconds_in_year_range y2) as [D2 D2'].
    set (d2 := IZR (seconds_in_year y2)) in *.
    replace (year_start y2 + d2 * r1 - (year_start y2 + d2 * r2))
      with (d2 * (r1 - r2)) by ring.
    replace (IZR y2 + r1 - (IZR y2 + r2)) with (r1 - r2) by ring.
    rewrite Rabs_mult, (Rabs_right d2) by lra.
    apply Rmult_le_compat_r; [apply Rabs_pos | exact D2'].
  - pose proof (instant_later y2 r2 y1 r1 ltac:(lia) Hr2 Hr1) as [A B].
    rewrite !Rabs_right by lra. lra.
Qed.

(** What [decyeartodatetime] returns: the start of the year plus the
    part of the year, to half a microsecond. *)
Lemma decyeartodatetime_instant din :
  1 <= din < 9999 ->
  exists r us,
    decyeartodatetime din = Returns r
    /\ valid r = true
    /\ to_us r = (to_us (new_year (py_int din)) + us)%Z
    /\ Rabs (IZR us
             - IZR (seconds_in_year (py_int din)) * (din - IZR (py_int din))
               * 1000000) <= 1 / 2.
Proof.
  intros Hd. unfold decyeartodatetime.
  assert (Hy : (1 <= py_int din < 9999)%Z)
    by (apply py_int_range; [lia | exact Hd]).
  destruct (py_int_nonneg din) as (_ & B1 & B2); [lra |].
  set (y := py_int din) in *.
  rewrite (new_year_ok y) by lia. cbn [date_bind].
  unfold replace_year.
  cbn [year month day hour minute second microsecond new_year].
  rewrite (new_year_ok (y + 1)) by lia. cbn [date_bind].
  rewrite year_span by lia. cbn [date_bind].
  rewrite total_seconds_us.
  pose proof (seconds_in_year_range y) as [HD HD'].
  set (Dz := seconds_in_year y) in *.
  set (D := IZR Dz) in *.
  set (rem := din - IZR y) in *.
  assert (Hrem : 0 <= rem < 1) by (unfold rem; lra).
  assert (Hx : 0 <= D * rem < D) by nra.
  destruct (timedelta_of_part_of_year_near (D * rem))
    as (us & -> & Hus & Hus0); [lra |].
  cbn [date_bind].
  assert (Hus' : (us <= Dz * 1000000)%Z).
  { assert (H : IZR us < IZR (Dz * 1000000 + 1)).
    { rewrite plus_IZR, mult_IZR. fold D. cbn [IZR IPR]. lra. }
    apply lt_IZR in H. lia. }
  destruct (date_in_year y us) as (d & Hv & Eus & _); [lia | lia |].
  rewrite (add_spec (new_year y) us d Hv (eq_sym Eus)). cbn [date_bind].
  exists d, us. split; [reflexivity |]. split; [exact Hv |].
  split; [exact Eus |].
  apply Rabs_le. lra.
Qed.

Lemma decyeartodatetime_near_toYearFraction d v din :
  valid d = true ->
  toYearFraction d = Returns v ->
  1 <= din < 9999 ->
  exists r,
    decyeartodatetime din = Returns r
    /\ valid r = true
    /\ Rabs (IZR (to_us r) - IZR (to_us (whole_second d)))
       <= 31622400000000 * Rabs (din - v) + 1.
Proof.
  intros H E Hd.
  pose proof (toYearFraction_returns d v H E) as Hy.
  rewrite (toYearFraction_value d H Hy) in E. injection E as <-.
  destruct (valid_fields d H) as (Hy1 & _).
  pose proof (year_fraction_bounds d H) as HF.
  pose proof (seconds_in_year_range (year d)) as [HD HD'].
  destruct (decyeartodatetime_instant din Hd) as (r & us & Er & Hv & Eus & Hus).
  exists r. split; [exact Er |]. split; [exact Hv |].
  assert (Hyi : (1 <= py_int din < 9999)%Z)
    by (apply py_int_range; [lia | exact Hd]).
  destruct (py_int_nonneg din) as (_ & B1 & B2); [lra |].
  set (y := py_int din) in *.
  set (rem := din - IZR y) in *.
  set (yd := year d) in *.
  set (e := seconds_into_year d) in *.
  set (rho := IZR e / IZR (seconds_in_year yd)) in *.
  assert (Er' : IZR (to_us r)
                = (year_start y) * 1000000 + IZR us).
  { rewrite Eus, to_us_year, seconds_into_new_year.
    cbn [year microsecond new_year]. unfold year_start.
    replace (((days_before_year y + 1) * 86400 + 0) * 1000000 + 0 + us)%Z
      with ((days_before_year y + 1) * 86400 * 1000000 + us)%Z by lia.
    rewrite plus_IZR, (mult_IZR _ 1000000). reflexivity. }
  assert (Ed : IZR (to_us (whole_second d))
               = (year_start yd + IZR (seconds_in_year yd) * rho) * 1000000).
  { rewrite to_us_year.
    replace (seconds_into_year (whole_second d)) with e by reflexivity.
    cbn [year microsecond whole_second]. fold yd. unfold year_start, rho.
    replace (((days_before_year yd + 1) * 86400 + e) * 1000000 + 0)%Z
      with (((days_before_year yd + 1) * 86400 + e) * 1000000)%Z by lia.
    rewrite (mult_IZR _ 1000000), plus_IZR. field. lra. }
  pose proof (instant_lipschitz y rem yd rho ltac:(lia) ltac:(lia)
                ltac:(unfold rem; lra) ltac:(lra)) as HL.
  replace (IZR y + rem - (IZR yd + rho)) with (din - (IZR yd + rho)) in HL
    by (unfold rem; ring).
  rewrite Er', Ed.
  set (A := year_start y + IZR (seconds_in_year y) * rem) in *.
  set (B := year_start yd + IZR (seconds_in_year yd) * rho) in *.
  replace (year_start y * 1000000 + IZR us - B * 1000000)
    with ((IZR us - IZR (seconds_in_year y) * rem * 1000000)
          + (A - B) * 1000000) by (unfold A; ring).
  eapply Rle_trans; [apply Rabs_triang |].
  rewrite Rabs_mult, (Rabs_right 1000000) by lra.
  lra.
Qed.

End Accuracy.

(** X4.  The way back is as good as the decimal year it is given.  For a
    date d with the decimal year v of [toYearFraction] and any decimal
    year din from 1 up to 9999, [decyeartodatetime] returns a date of the
    calendar whose instant is that of d (to the second, which is all v
    holds) to within 31622400 seconds for each year between din and v,
    and a microsecond.  For din the float next to v, some 1e-13 of a year
    away, that is a few microseconds. *)
Theorem decyeartodatetime_of_toYearFraction d v din :
  Datetime.valid d = true ->
  toYearFraction d = Returns v ->
  1 <= din < 9999 ->
  exists r,
    decyeartodatetime din = Returns r
    /\ Datetime.valid r = true
    /\ Rabs (IZR (Datetime.to_us r) - IZR (Datetime.to_us (whole_second d)))
       <= 31622400000000 * Rabs (din - v) + 1.
Proof. apply decyeartodatetime_near_toYearFraction. Qed.

Lemma decyeartodatetime_of_toYearFraction_witness :
  exists r,
    decyeartodatetime (2021 + 3 / 20) = Returns r
    /\ Datetime.valid r = true
    /\ Rabs (IZR (Datetime.to_us r) - IZR (Datetime.to_us (whole_second a_date)))
       <= 31622400000000
          * Rabs (2021 + 3 / 20
                  - (IZR 2021
                     + IZR (seconds_into_year a_date)
                       / IZR (seconds_in_year 2021))) + 1.
Proof.
  apply (decyeartodatetime_of_toYearFraction a_date _ (2021 + 3 / 20) eq_refl
           (toYearFraction_value a_date eq_refl eq_refl)).
  lra.
Defined.

(* ================================================================== *)
(** * The Arrhenius mean *)

Section EffectiveT.

Lemma fold_right_Rplus_bounds (x : list R) lo hi :
  Forall (fun v => lo <= v <= hi) x ->
  INR (List.length x) * lo <= fold_right Rplus 0 x <= INR (List.length x) * hi.
Proof.
  induction 1 as [| v x Hv _ IH].
  - cbn. lra.
  - cbn [fold_right List.length]. rewrite S_INR. lra.
Qed.

(** The mean of a non-empty array lies between any bounds of its
    entries. *)
Lemma np_mean_bounds (x : list R) lo hi :
  x <> [] -> Forall (fun v => lo <= v <= hi) x ->
  lo <= np_mean x <= hi.
Proof.
  intros Hne H. pose proof (fold_right_Rplus_bounds x lo hi H) as [H1 H2].
  assert (Hn : 0 < INR (List.length x)).
  { destruct x; [contradiction |]. cbn [List.length]. apply lt_0_INR. lia. }
  unfold np_mean. split.
  - apply Rmult_le_reg_r with (INR (List.length x)); [exact Hn |].
    unfold Rdiv. rewrite Rmult_assoc, Rinv_l by lra. lra.
  - apply Rmult_le_reg_r with (INR (List.length x)); [exact Hn |].
    unfold Rdiv. rewrite Rmult_assoc, Rinv_l by lra. lra.
Qed.

Lemma exp_le x y : x <= y -> exp x <= exp y.
Proof.
  intros [H | ->]; [left; apply exp_increasing; exact H | right; reflexivity].
Qed.

Lemma ln_le x y : 0 < x -> x <= y -> ln x <= ln y.
Proof.
  intros Hx [H | ->]; [left; apply ln_increasing; assumption | right; reflexivity].
Qed.

(** The rate grows with the temperature, on positive temperatures. *)
Lemma arrhenius_k_le s t :
  0 < s -> s <= t -> arrhenius_k s <= arrhenius_k t.
Proof.
  intros Hs Hst. unfold arrhenius_k. apply exp_le.
  assert (Ht : 0 < t) by lra.
  assert (H : / t <= / s) by (apply Rinv_le_contravar; assumption).
  assert (E : forall u, u <> 0 ->
            -1 * 59500.0 / (8.314 * u) = - (59500000 / 8314) * / u)
    by (intros u Hu; decimals; field; lra).
  rewrite (E s), (E t) by lra. lra.
Qed.

Lemma ln_arrhenius_k t :
  ln (arrhenius_k t) = -1 * 59500.0 / (8.314 * t).
Proof. unfold arrhenius_k. apply ln_exp. Qed.

(** The exponent of the rate is in the range of [np.exp] from 11 K
    on. *)
Lemma arrhenius_in_range t :
  11 <= t -> -708 <= -1 * 59500.0 / (8.314 * t) <= 709.
Proof.
  intros Ht.
  assert (E : -1 * 59500.0 / (8.314 * t) = - (59500000 / 8314) * / t)
    by (decimals; field; lra).
  rewrite E.
  assert (Hi : 0 < / t) by (apply Rinv_0_lt_compat; lra).
  assert (Hi' : / t <= / 11) by (apply Rinv_le_contravar; lra).
  lra.
Qed.

Lemma np_exp_array_ok (x : list R) :
  Forall (fun v => -708 <= v <= 709) x ->
  np_exp_array x = Some (map exp x).
Proof.
  induction 1 as [| v x [H1 H2] _ IH]; [reflexivity |].
  cbn [np_exp_array map]. rewrite IH. unfold np_exp.
  rewrite !Rleb_true by assumption. reflexivity.
Qed.

(** The value of [effectiveT] where every operation stays in range. *)
Lemma effectiveT_value T :
  T <> [] -> Forall (fun t => 11 <= t) T ->
  ln (np_mean (map arrhenius_k T)) <> 0 ->
  effectiveT T
  = Some (-1 * 59500.0 / (8.314 * ln (np_mean (map arrhenius_k T)))).
Proof.
  intros Hne Hnz Hln. unfold effectiveT.
  assert (E : existsb (fun t => Reqb (8.314 * t) 0) T = false).
  { clear Hne Hln. induction Hnz as [| t T Ht _ IH]; [reflexivity |].
    cbn [existsb]. rewrite IH, Reqb_false; [reflexivity |].
    decimals. lra. }
  rewrite E.
  rewrite np_exp_array_ok.
  2:{ apply Forall_map. apply Forall_impl with (2 := Hnz).
      intros t Ht. apply arrhenius_in_range. exact Ht. }
  rewrite map_map.
  change (map (fun t => exp (-1 * 59500.0 / (8.314 * t))) T)
    with (map arrhenius_k T).
  destruct (map arrhenius_k T) eqn:Ek.
  - destruct T; [contradiction | discriminate Ek].
  - rewrite Reqb_false; [reflexivity |].
    decimals. intros H. apply Hln. lra.
Qed.

End EffectiveT.

(** X6.  The Arrhenius mean of temperatures from 11 K to 1000 K lies
    between the lowest and the highest of them: for any bounds
    11 <= lo <= hi <= 1000 of a non-empty series, [effectiveT] returns a
    value in [lo, hi].  (In that range the rates exp(-59500 / (8.314 T))
    are normal floats well below 1; under 9.6 K they underflow to 0.0,
    and for very large T they round to 1.0 and the logarithm to 0.) *)
Theorem effectiveT_between_bounds T lo hi :
  T <> [] -> 11 <= lo -> hi <= 1000 ->
  Forall (fun t => lo <= t <= hi) T ->
  exists v, effectiveT T = Some v /\ lo <= v <= hi.
Proof.
  intros Hne Hlo Hmax HT.
  assert (Hhi : lo <= hi).
  { destruct T as [| t T]; [contradiction |].
    apply Forall_inv in HT. lra. }
  assert (Hk : Forall (fun v => arrhenius_k lo <= v <= arrhenius_k hi)
                 (map arrhenius_k T)).
  { apply Forall_map. apply Forall_impl with (2 := HT). intros t [H1 H2].
    split; apply arrhenius_k_le; lra. }
  assert (Hkne : map arrhenius_k T <> [])
    by (destruct T; [contradiction | discriminate]).
  pose proof (np_mean_bounds _ _ _ Hkne Hk) as [M1 M2].
  set (km := np_mean (map arrhenius_k T)) in *.
  assert (Hklo : 0 < arrhenius_k lo) by apply exp_pos.
  assert (L1 : ln (arrhenius_k lo) <= ln km) by (apply ln_le; assumption).
  assert (L2 : ln km <= ln (arrhenius_k hi)) by (apply ln_le; lra).
  rewrite ln_arrhenius_k in L1, L2.
  assert (E : forall u, u <> 0 ->
            -1 * 59500.0 / (8.314 * u) = - (59500000 / 8314) * / u)
    by (intros u Hu; decimals; field; lra).
  rewrite (E lo) in L1 by lra. rewrite (E hi) in L2 by lra.
  set (L := ln km) in *.
  assert (Hilo : 0 < / lo) by (apply Rinv_0_lt_compat; lra).
  assert (Hihi : 0 < / hi) by (apply Rinv_0_lt_compat; lra).
  assert (HL : L < 0) by lra.
  exists (-1 * 59500.0 / (8.314 * L)). split.
  - apply effectiveT_value; [exact Hne | | fold km; fold L; lra].
    apply Forall_impl with (2 := HT). intros t Ht. lra.
  - rewrite (E L) by lra.
    assert (HiL : / L < 0) by (apply Rinv_lt_0_compat; exact HL).
    (* lo * L >= -c and hi * L <= -c *)
    assert (A1 : lo * (- (59500000 / 8314) * / lo) <= lo * L)
      by (apply Rmult_le_compat_l; lra).
    replace (lo * (- (59500000 / 8314) * / lo)) with (- (59500000 / 8314))
      in A1 by (field; lra).
    assert (A2 : hi * L <= hi * (- (59500000 / 8314) * / hi))
      by (apply Rmult_le_compat_l; lra).
    replace (hi * (- (59500000 / 8314) * / hi)) with (- (59500000 / 8314))
      in A2 by (field; lra).
    assert (HLi : L * / L = 1) by (apply Rinv_r; lra).
    set (iL := / L) in *.
    assert (P1 : 0 <= (lo * L + 59500000 / 8314) * - iL)
      by (apply Rmult_le_pos; lra).
    assert (P2 : 0 <= (- (59500000 / 8314) - hi * L) * - iL)
      by (apply Rmult_le_pos; lra).
    split; nra.
Qed.

Lemma effectiveT_between_bounds_witness :
  exists v, effectiveT [250; 260; 270] = Some v /\ 250 <= v <= 270.
Proof.
  apply (effectiveT_between_bounds [250; 260; 270] 250 270).
  - discriminate.
  - lra.
  - lra.
  - repeat constructor; lra.
Defined.

(** X7.  The Arrhenius mean of a series whose entries are all the same
    temperature, from 11 K to 1000 K, is that temperature. *)
Theorem effectiveT_of_constant_series T t :
  T <> [] -> 11 <= t <= 1000 -> Forall (fun u => u = t) T ->
  effectiveT T = Some t.
Proof.
  intros Hne [Ht Hmax] HT.
  assert (Hk : Forall (fun v => arrhenius_k t <= v <= arrhenius_k t)
                 (map arrhenius_k T)).
  { apply Forall_map. apply Forall_impl with (2 := HT). intros u ->. lra. }
  assert (Hkne : map arrhenius_k T <> [])
    by (destruct T; [contradiction | discriminate]).
  pose proof (np_mean_bounds _ _ _ Hkne Hk) as [M1 M2].
  assert (Ekm : np_mean (map arrhenius_k T) = arrhenius_k t) by lra.
  assert (Eq : -1 * 59500.0 / (8.314 * t) = - (59500000 / 8314) * / t)
    by (decimals; field; lra).
  assert (Hit : 0 < / t) by (apply Rinv_0_lt_compat; lra).
  rewrite effectiveT_value.
  - rewrite Ekm, ln_arrhenius_k, Eq. f_equal. decimals. field. lra.
  - exact Hne.
  - apply Forall_impl with (2 := HT). intros u ->. exact Ht.
  - rewrite Ekm, ln_arrhenius_k, Eq. lra.
Qed.

Lemma effectiveT_of_constant_series_witness :
  effectiveT [250; 250; 250] = Some 250.
Proof.
  apply (effectiveT_of_constant_series [250; 250; 250] 250).
  - discriminate.
  - lra.
  - repeat constructor.
Defined.


(* ================================================================== *)
(** * Further properties of the solvers *)

Section SolverProperties.

Lemma pycdiv_ok z w : w <> RtoC 0 -> pycdiv z w = Ok (z * Cinv w)%C.
Proof.
  intros H. unfold pycdiv. destruct (C_eq_dec w (RtoC 0)); [contradiction |].
  reflexivity.
Qed.

(** [single_quadratic] on any non-zero leading coefficient. *)
Lemma single_quadratic_normalised a0 b0 c0 :
  a0 <> RtoC 0 ->
  FQS.single_quadratic a0 b0 c0
  = FQS.single_quadratic (RtoC 1) (b0 * Cinv a0)%C (c0 * Cinv a0)%C.
Proof.
  intros H. unfold FQS.single_quadratic.
  rewrite !pycdiv_ok, !pycdiv_one by assumption. reflexivity.
Qed.

End SolverProperties.

(** X8.  For a non-zero leading coefficient [single_quadratic] returns
    the two roots of a0 x^2 + b0 x + c0, complex coefficients included:
    each value satisfies the equation, their sum is -b0/a0 and their
    product c0/a0. *)
Theorem single_quadratic_returns_the_roots a0 b0 c0 :
  a0 <> RtoC 0 ->
  exists r1 r2,
    FQS.single_quadratic a0 b0 c0 = Ok (r1, r2)
    /\ (a0 * (r1 * r1) + b0 * r1 + c0)%C = RtoC 0
    /\ (a0 * (r2 * r2) + b0 * r2 + c0)%C = RtoC 0
    /\ (a0 * (r1 + r2))%C = (- b0)%C
    /\ (a0 * (r1 * r2))%C = c0.
Proof.
  intros Ha. rewrite single_quadratic_normalised by assumption.
  set (b := (b0 * Cinv a0)%C). set (c := (c0 * Cinv a0)%C).
  destruct (FQS.single_quadratic (RtoC 1) b c) as [[r1 r2] |] eqn:E.
  2:{ unfold FQS.single_quadratic in E. rewrite !pycdiv_one in E.
      discriminate E. }
  exists r1, r2. split; [reflexivity |].
  destruct (single_quadratic_roots b c r1 r2 E) as [H1 H2].
  pose proof (Cmul_inv a0 Ha) as Hi.
  assert (Eb : b0 = (a0 * b)%C).
  { unfold b. replace (a0 * (b0 * Cinv a0))%C with (b0 * (a0 * Cinv a0))%C
      by ring. rewrite Hi. ring. }
  assert (Ec : c0 = (a0 * c)%C).
  { unfold c. replace (a0 * (c0 * Cinv a0))%C with (c0 * (a0 * Cinv a0))%C
      by ring. rewrite Hi. ring. }
  unfold FQS.single_quadratic in E. rewrite !pycdiv_one in E.
  cbn [bind] in E. injection E as E1 E2.
  set (h := (RtoC (-0.5) * b)%C) in *.
  pose proof (csqrt_sqr (h * h - c)%C) as Hw.
  set (w := csqrt (h * h - c)%C) in *.
  assert (Ebh : b = (- (h + h))%C).
  { unfold h. destruct b as [x y].
    unfold Cadd, Cmul, Copp, RtoC, Re, Im. cbn [fst snd].
    f_equal; decimals; field. }
  split; [| split; [| split]].
  - rewrite Eb, Ec.
    replace (a0 * (r1 * r1) + a0 * b * r1 + a0 * c)%C
      with (a0 * (r1 * r1 + b * r1 + c))%C by ring.
    rewrite H1. ring.
  - rewrite Eb, Ec.
    replace (a0 * (r2 * r2) + a0 * b * r2 + a0 * c)%C
      with (a0 * (r2 * r2 + b * r2 + c))%C by ring.
    rewrite H2. ring.
  - rewrite Eb, <- E1, <- E2, Ebh. ring.
  - rewrite Ec, <- E1, <- E2.
    replace ((h - w) * (h + w))%C with (h * h - w * w)%C by ring.
    rewrite Hw. ring.
Qed.

Lemma single_quadratic_returns_the_roots_witness :
  exists r1 r2,
    FQS.single_quadratic (RtoC 2) (RtoC 0) (RtoC 8) = Ok (r1, r2)
    /\ (RtoC 2 * (r1 * r1) + RtoC 0 * r1 + RtoC 8)%C = RtoC 0
    /\ (RtoC 2 * (r2 * r2) + RtoC 0 * r2 + RtoC 8)%C = RtoC 0
    /\ (RtoC 2 * (r1 + r2))%C = (- RtoC 0)%C
    /\ (RtoC 2 * (r1 * r2))%C = RtoC 8.
Proof.
  apply (single_quadratic_returns_the_roots (RtoC 2) (RtoC 0) (RtoC 8)).
  intros E. apply RtoC_inj in E. lra.
Defined.



(** X10.  [cubic_roots] as the module runs it never returns roots: on
    every input of four columns with at least one equation and non-zero
    leading coefficients it raises [NameError], on the single-equation
    path (fewer than 100 rows) and on the batched one. *)
Theorem cubic_roots_needs_math p :
  FQS.wf_ndarray p ->
  fst (FQS.as_rows p) = 4%nat ->
  snd (FQS.as_rows p) <> [] ->
  Forall (fun row => nth 0 row 0 <> 0) (snd (FQS.as_rows p)) ->
  FQS.cubic_roots module_globals p = Raise (NameError "math").
Proof.
  intros Hwf Hw Hne Hnz. unfold FQS.cubic_roots.
  assert (Hlen : Forall (fun row => List.length row = 4%nat)
                   (snd (FQS.as_rows p))).
  { destruct p as [v | ncols rows]; cbn in *.
    - constructor; [exact Hw | constructor].
    - subst ncols. exact Hwf. }
  destruct (FQS.as_rows p) as [ncols rows]. cbn [fst snd] in *. subst ncols.
  cbn [Nat.eqb negb].
  destruct (List.length rows <? 100)%nat.
  - unfold FQS.cubic_single_path.
    destruct rows as [| row rows]; [contradiction |].
    apply Forall_inv in Hlen. apply Forall_inv in Hnz.
    destruct row as [| a0 [| b0 [| c0 [| d0 [| x row]]]]];
      try discriminate Hlen.
    cbn [nth] in Hnz. cbn [mapM].
    rewrite single_cubic_no_math by assumption. reflexivity.
  - unfold FQS.cubic_batched_path.
    rewrite multi_cubic_no_math; [reflexivity |].
    unfold FQS.column. apply Forall_map. exact Hnz.
Qed.

Lemma cubic_roots_needs_math_witness :
  FQS.cubic_roots module_globals (FQS.Arr1 [1; 0; 0; -8])
  = Raise (NameError "math").
Proof.
  apply (cubic_roots_needs_math (FQS.Arr1 [1; 0; 0; -8])).
  - exact I.
  - reflexivity.
  - discriminate.
  - repeat constructor. cbn. lra.
Defined.

(** X11.  [quartic_roots] as the module runs it raises [NameError] on
    every batch of 100 or more equations with non-zero leading
    coefficients: the batched solver reaches [math.sqrt(3)] before it
    looks at the equations. *)
Theorem quartic_roots_batch_needs_math rows :
  (100 <= List.length rows)%nat ->
  Forall (fun row => nth 0 row 0 <> 0) rows ->
  FQS.quartic_roots module_globals (FQS.Arr2 5 rows)
  = Raise (NameError "math").
Proof. apply quartic_roots_batched_no_math. Qed.

Lemma quartic_roots_batch_needs_math_witness :
  FQS.quartic_roots module_globals (FQS.Arr2 5 (repeat [2; 0; 0; 1; -3] 150))
  = Raise (NameError "math").
Proof.
  apply (quartic_roots_batch_needs_math (repeat [2; 0; 0; 1; -3] 150)).
  - rewrite repeat_length. lia.
  - apply Forall_forall. intros row Hrow. apply repeat_spec in Hrow.
    subst row. cbn [nth]. lra.
Defined.

(** X12.  On x^4 - k = 0 with k > 0 [single_quartic] takes the branch
    s = 0 and returns the pair i sqrt(k), -i sqrt(k) (in the order the
    sign of a zero imaginary part decides), then -sqrt(k) and sqrt(k):
    the square roots where the fourth roots belong.  The value sqrt(k) it
    returns is a root of the equation only for k = 1. *)
Theorem single_quartic_on_x4_minus_k G k :
  0 < k ->
  (exists r0 r1,
     FQS.single_quartic G 1 0 0 0 (- k)
     = Ok (r0, r1, (- sqrt k, 0), (sqrt k, 0))
     /\ same_pair (r0, r1) ((0, sqrt k), (0, - sqrt k)))
  /\ (quartic_poly 1 0 0 0 (- k) (sqrt k) = 0 <-> k = 1).
Proof.
  intros Hk. split.
  - exists (0, - sqrt k), (0, sqrt k).
    split; [apply single_quartic_x4_minus_k; exact Hk |].
    right. reflexivity.
  - unfold quartic_poly.
    assert (Hs : sqrt k * sqrt k = k) by (apply sqrt_sqrt; lra).
    replace (1 * sqrt k ^ 4 + 0 * sqrt k ^ 3 + 0 * sqrt k ^ 2 + 0 * sqrt k + - k)
      with ((sqrt k * sqrt k) * (sqrt k * sqrt k) - k) by ring.
    rewrite Hs. split; intros H; [| subst k; ring].
    assert (E : k * (k - 1) = 0) by lra.
    apply Rmult_integral in E. destruct E; lra.
Qed.

Lemma single_quartic_on_x4_minus_k_witness :
  (exists r0 r1,
     FQS.single_quartic module_globals 1 0 0 0 (- 81)
     = Ok (r0, r1, (- sqrt 81, 0), (sqrt 81, 0))
     /\ same_pair (r0, r1) ((0, sqrt 81), (0, - sqrt 81)))
  /\ (quartic_poly 1 0 0 0 (- 81) (sqrt 81) = 0 <-> 81 = 1).
Proof.
  apply (single_quartic_on_x4_minus_k module_globals 81). lra.
Defined.






Lemma combine_fst_snd {A B} (x : list A) (y : list B) :
  List.length x = List.length y ->
  map fst (combine x y) = x /\ map snd (combine x y) = y.
Proof.
  revert y. induction x as [| a x IH]; intros [| b y] H;
    try discriminate H; cbn.
  - split; reflexivity.
  - injection H as H. destruct (IH y H) as [-> ->]. split; reflexivity.
Qed.

(** X24.  [multi_quadratic] with the leading coefficient 1 of its two
    call sites solves every equation of the batch: for coefficient
    arrays of one length it returns two arrays of that length, the two
    entries i are the two values [single_quadratic(1, b0[i], c0[i])]
    returns, in that order or the other, and each of them is a root of
    x^2 + b0[i] x + c0[i]. *)
Theorem multi_quadratic_solves_each_equation (b0 c0 : list C) :
  List.length b0 = List.length c0 ->
  exists r1 r2,
    FQS.multi_quadratic (RtoC 1) b0 c0 = Ok (r1, r2)
    /\ List.length r1 = List.length b0
    /\ List.length r2 = List.length b0
    /\ forall i, (i < List.length b0)%nat ->
         let b := nth i b0 (RtoC 0) in
         let c := nth i c0 (RtoC 0) in
         let x1 := nth i r1 (RtoC 0) in
         let x2 := nth i r2 (RtoC 0) in
         (exists y1 y2,
            FQS.single_quadratic (RtoC 1) b c = Ok (y1, y2)
            /\ same_pair (x1, x2) (y1, y2))
         /\ (x1 * x1 + b * x1 + c)%C = RtoC 0
         /\ (x2 * x2 + b * x2 + c)%C = RtoC 0.
Proof.
  intros Hlen.
  destruct (combine_fst_snd b0 c0 Hlen) as [Eb Ec].
  pose proof (multi_quadratic_map (combine b0 c0) fst snd) as H.
  rewrite Eb, Ec in H.
  eexists. eexists. split; [exact H |].
  rewrite !length_map, length_combine, <- Hlen, Nat.min_id.
  split; [reflexivity |]. split; [reflexivity |].
  intros i Hi b c x1 x2.
  assert (E : FQS.single_quadratic (RtoC 1) b c = Ok (x1, x2)).
  { unfold FQS.single_quadratic. rewrite !pycdiv_one. cbn [bind].
    subst x1 x2.
    set (f1 := fun i0 : C * C => _). set (f2 := fun i0 : C * C => _).
    assert (Hi' : (i < List.length (combine b0 c0))%nat)
      by (rewrite length_combine, <- Hlen, Nat.min_id; exact Hi).
    rewrite (nth_indep _ (RtoC 0) (f1 (RtoC 0, RtoC 0)))
      by (rewrite length_map; exact Hi').
    rewrite (nth_indep (map f2 _) (RtoC 0) (f2 (RtoC 0, RtoC 0)))
      by (rewrite length_map; exact Hi').
    rewrite !map_nth, combine_nth by exact Hlen.
    subst f1 f2. cbn [fst snd]. fold b c. rewrite !Cadd_0j. reflexivity. }
  split.
  - exists x1, x2. split; [exact E | left; reflexivity].
  - exact (single_quadratic_roots b c x1 x2 E).
Qed.

Lemma multi_quadratic_solves_each_equation_witness :
  exists r1 r2,
    FQS.multi_quadratic (RtoC 1) [RtoC 0; RtoC 2] [RtoC (-1); RtoC 5]
      = Ok (r1, r2)
    /\ List.length r1 = 2%nat
    /\ List.length r2 = 2%nat
    /\ forall i, (i < 2)%nat ->
         let b := nth i [RtoC 0; RtoC 2] (RtoC 0) in
         let c := nth i [RtoC (-1); RtoC 5] (RtoC 0) in
         let x1 := nth i r1 (RtoC 0) in
         let x2 := nth i r2 (RtoC 0) in
         (exists y1 y2,
            FQS.single_quadratic (RtoC 1) b c = Ok (y1, y2)
            /\ same_pair (x1, x2) (y1, y2))
         /\ (x1 * x1 + b * x1 + c)%C = RtoC 0
         /\ (x2 * x2 + b * x2 + c)%C = RtoC 0.
Proof.
  apply (multi_quadratic_solves_each_equation
           [RtoC 0; RtoC 2] [RtoC (-1); RtoC 5]).
  reflexivity.
Defined.

(* ================================================================== *)
(** * Further properties of the energy-balance loops *)

Section SelectionProperties.

Variable G : Globals.
Variables dt m : R.
Hypothesis Hdt : 0 < dt.
Hypothesis Hm : 0 < m.

Local Abbreviation a := (SBC * dt / (CP_I * m)).


Lemma dt_over_mass_pos : 0 < dt / (CP_I * m).
Proof. apply Rdiv_lt_0_compat; [exact Hdt | apply CP_I_m_pos; exact Hm]. Qed.


End SelectionProperties.





Section LoopRuns.

Variable G : Globals.
Variable flux_df1 : list pyfloat.
Variable dts : list pyfloat.
Variables dt m : R.
Hypothesis Hdt : 0 < dt.
Hypothesis Hm : 0 < m.

Local Abbreviation a := (SBC * dt / (CP_I * m)).

Lemma T_MELT_pos : 0 < T_MELT.
Proof. unfold T_MELT. decimals. lra. Qed.

Lemma init_state_melt_nth k :
  (k < List.length flux_df1)%nat ->
  nth_error (meltmassH (init_state flux_df1)) k = Some (Fin 0).
Proof.
  intros H. unfold init_state. cbn [meltmassH].
  destruct (nth_error flux_df1 k) eqn:E.
  - rewrite nth_error_map, E. reflexivity.
  - apply nth_error_None in E. lia.
Qed.

(** e < 0 for a flux that is not negative and a positive previous
    temperature. *)
Lemma seb_e_neg f t0 :
  0 <= f -> 0 < t0 -> -1 * (f * dt / (CP_I * m) + t0) < 0.
Proof.
  intros Hf Ht0. pose proof (CP_I_m_pos m Hm) as Hcm.
  assert (0 <= f * dt / (CP_I * m)); [| lra].
  apply Rmult_le_pos; [nra |]. apply Rlt_le, Rinv_0_lt_compat. exact Hcm.
Qed.

Lemma clamped_T_bounds f t0 :
  -1 * (f * dt / (CP_I * m) + t0) < 0 -> 0 < clamped_T dt m f t0 <= T_MELT.
Proof.
  intros He. unfold clamped_T.
  destruct (seb_root_pos_root a (seb_a_pos dt m Hdt Hm) _ He) as [Hr _].
  pose proof T_MELT_pos.
  unfold Rleb. destruct (Rle_dec T_MELT _); lra.
Qed.

Lemma clamped_melt_fin f t0 :
  t0 <= T_MELT -> -1 * (f * dt / (CP_I * m) + t0) < 0 ->
  exists mm, clamped_melt dt m f t0 = Fin mm /\ 0 <= mm.
Proof.
  intros Ht0 He. unfold clamped_melt, Rleb.
  destruct (Rle_dec T_MELT _) as [Hhot | _].
  - eexists. split; [reflexivity |].
    apply (clamped_melt_nonneg dt m f t0); assumption.
  - exists 0. split; [reflexivity | lra].
Qed.

(** One pass of [calcSEB] with e < 0. *)
Lemma calcSEB_step_neg st k T_0 F :
  wf_state flux_df1 st ->
  calcSEB_T_0 dts (TcalcH st) k = Ok (Fin T_0) ->
  array_get flux_df1 k = Ok (Fin F) ->
  -1 * (F * dt / (CP_I * m) + T_0) < 0 ->
  calcSEB_step G flux_df1 dts dt m st k
  = Ok {| TcalcH := list_update (TcalcH st) k (Fin (clamped_T dt m F T_0));
          meltmassH := list_update (meltmassH st) k (clamped_melt dt m F T_0);
          stdout := stdout st |}.
Proof.
  intros Hwf HT HF He. unfold clamped_T, clamped_melt.
  destruct (Rlt_or_le (seb_root a (-1 * (F * dt / (CP_I * m) + T_0))) T_MELT)
    as [Hcold | Hhot].
  - rewrite Rleb_false by assumption.
    apply (calcSEB_step_cold G flux_df1 dts dt m Hdt Hm st k Hwf T_0 F);
      assumption.
  - rewrite Rleb_true by assumption.
    apply (calcSEB_step_hot G flux_df1 dts dt m Hdt Hm st k Hwf T_0 F);
      assumption.
Qed.


End LoopRuns.

Section CalcSEBRuns.

Variable G : Globals.
Variable flux_df1 : list pyfloat.
Variable dts : list pyfloat.
Variables dt m T_init : R.
Hypothesis Hdt : 0 < dt.
Hypothesis Hm : 0 < m.
Hypothesis Hdts : array_get dts 0 = Ok (Fin T_init).
Hypothesis Hinit : 0 < T_init <= T_MELT.

(** The loop of [calcSEB] on a prefix of the series where the flux is
    never negative: every pass has e < 0, selects one root and prints
    nothing. *)
Lemma calcSEB_loop_runs n :
  (n <= List.length flux_df1)%nat ->
  (forall j, (j < n)%nat ->
     exists f, nth_error flux_df1 j = Some (Fin f) /\ 0 <= f) ->
  exists st,
    run_loop (calcSEB_step G flux_df1 dts dt m) (seq 0 n)
      (init_state flux_df1) = Ok st
    /\ wf_state flux_df1 st
    /\ stdout st = []
    /\ (forall j, (j < n)%nat ->
          exists t mm, emitted st j (Fin t) (Fin mm)
                       /\ 0 < t <= T_MELT /\ 0 <= mm).
Proof.
  induction n as [| n IH]; intros Hn Hflux.
  - exists (init_state flux_df1). cbn [seq run_loop].
    split; [reflexivity |]. split; [apply init_state_wf |].
    split; [reflexivity |]. intros j Hj. lia.
  - destruct IH as (st & Hrun & Hwf & Hout & Hpos);
      [lia | intros j Hj; apply Hflux; lia |].
    rewrite seq_S, run_loop_app, Hrun. cbn [bind Nat.add run_loop].
    assert (HT0 : exists T_0, 0 < T_0 <= T_MELT
              /\ calcSEB_T_0 dts (TcalcH st) n = Ok (Fin T_0)).
    { unfold calcSEB_T_0. destruct (Nat.eqb_spec n 0) as [-> | Hn0].
      - exists T_init. split; assumption.
      - destruct (Hpos (n - 1)%nat) as (t & mm & [HT _] & Ht & _); [lia |].
        exists t. split; [assumption |]. apply array_get_ok. exact HT. }
    destruct HT0 as (T_0 & HT0b & HT0).
    destruct (Hflux n) as (F & HF & HFpos); [lia |].
    apply array_get_ok in HF.
    pose proof (seb_e_neg dt m Hdt Hm F T_0 HFpos (proj1 HT0b)) as He.
    rewrite (calcSEB_step_neg G flux_df1 dts dt m Hdt Hm st n T_0 F Hwf HT0 HF He).
    destruct Hwf as [HwT HwM].
    eexists. split; [reflexivity |].
    unfold wf_state, emitted. cbn [TcalcH meltmassH stdout].
    rewrite !list_update_length.
    split; [split; assumption |]. split; [exact Hout |].
    intros j Hj. destruct (Nat.eq_dec j n) as [-> | Hjn].
    + destruct (clamped_melt_fin dt m Hdt Hm F T_0 (proj2 HT0b) He)
        as (mm & Emm & Hmm).
      exists (clamped_T dt m F T_0), mm. rewrite <- Emm.
      split; [split; apply nth_error_list_update_eq; lia |].
      split; [apply clamped_T_bounds; assumption | exact Hmm].
    + rewrite !nth_error_list_update_neq by assumption. apply Hpos. lia.
Qed.

End CalcSEBRuns.



(** X18.  The shape of what [calcSEB] returns.  In every run that
    completes, the two output series have the length of the flux series,
    the index has at most that many time stamps, and the entries past
    the last time stamp keep the 0.0 of [np.zeros_like]. *)
Theorem calcSEB_output_shape
  G SWGNT LWGAB HFLUX EFLUX TS n dt GHTSKIN dz rhos flux st :
  calcSEB_flux SWGNT LWGAB HFLUX EFLUX GHTSKIN = Ok flux ->
  calcSEB G SWGNT LWGAB HFLUX EFLUX TS n dt GHTSKIN dz rhos = Ok st ->
  List.length (TcalcH st) = List.length flux
  /\ List.length (meltmassH st) = List.length flux
  /\ (n <= List.length flux)%nat
  /\ (forall k, (n <= k < List.length flux)%nat ->
        emitted st k (Fin 0) (Fin 0)).
Proof.
  intros Hflux Hrun. unfold calcSEB in Hrun. rewrite Hflux in Hrun.
  cbn [bind] in Hrun.
  destruct (run_loop_frame G flux TS dt (rhos * dz) (seq 0 n)
              (init_state flux) st (init_state_wf flux) Hrun)
    as ([HwT HwM] & Hfr & _).
  split; [exact HwT |]. split; [exact HwM |]. split.
  - destruct (Nat.le_gt_cases n (List.length flux)) as [H | H]; [exact H |].
    destruct (calcSEB_loop_inv G flux TS dt (rhos * dz) n st
                (List.length flux) Hrun H)
      as (_ & _ & F & _ & _ & _ & _ & HF & _).
    apply array_get_inv in HF. lia.
  - intros k Hk. destruct (Hfr k) as [HT HM].
    { rewrite in_seq. lia. }
    unfold emitted. rewrite HT, HM.
    split; [apply init_state_nth | apply init_state_melt_nth]; lia.
Qed.

Lemma calcSEB_output_shape_witness :
  let st := {| TcalcH := [Fin (seb_root hourly_a cold_e)];
               meltmassH := [Fin 0];
               stdout := [] |} in
  List.length (TcalcH st) = 1%nat
  /\ List.length (meltmassH st) = 1%nat
  /\ (1 <= 1)%nat
  /\ (forall k, (1 <= k < 1)%nat -> emitted st k (Fin 0) (Fin 0)).
Proof.
  exact (calcSEB_output_shape module_globals
           [Fin 0] [Fin 0] [Fin 0] [Fin 0] [Fin 250] 1 3600 (Fin 0) 0.05 400
           [Fin (0 + 0 + 0 + 0 + 0)] _ eq_refl
           (proj1 (calcSEB_cold_run module_globals))).
Defined.

(** X19.  An index with more time stamps than the flux series has
    entries: once the entries are used up, reading [flux_df1[kk]] raises
    [IndexError] (here on a flux that is never negative, so that every
    earlier pass completes). *)
Theorem calcSEB_index_past_the_flux_raises
  G SWGNT LWGAB HFLUX EFLUX TS n dt GHTSKIN dz rhos flux T_init :
  calcSEB_flux SWGNT LWGAB HFLUX EFLUX GHTSKIN = Ok flux ->
  Forall (fun x => exists f, x = Fin f /\ 0 <= f) flux ->
  array_get TS 0 = Ok (Fin T_init) -> 0 < T_init <= 273.15 ->
  0 < dt -> 0 < rhos * dz ->
  (List.length flux < n)%nat ->
  calcSEB G SWGNT LWGAB HFLUX EFLUX TS n dt GHTSKIN dz rhos
  = Raise IndexError.
Proof.
  intros Hflux Hpos HTS Hinit Hdt Hm Hn.
  set (len := List.length flux) in *.
  destruct (calcSEB_loop_runs G flux TS dt (rhos * dz) T_init Hdt Hm HTS Hinit
              len (Nat.le_refl len)) as (st & Hrun & Hwf & _ & Hem).
  { intros j Hj. rewrite Forall_forall in Hpos.
    destruct (nth_error flux j) as [x |] eqn:E.
    - destruct (Hpos x (nth_error_In _ _ E)) as (f & -> & Hf).
      exists f. split; [reflexivity | exact Hf].
    - apply nth_error_None in E. unfold len in Hj. lia. }
  unfold calcSEB. rewrite Hflux. cbn [bind].
  replace n with (len + S (n - S len))%nat by lia.
  rewrite seq_app, run_loop_app. fold len. rewrite Hrun.
  cbn [bind Nat.add seq run_loop].
  assert (HT0 : exists T_0, calcSEB_T_0 TS (TcalcH st) len = Ok T_0).
  { unfold calcSEB_T_0. destruct (Nat.eqb_spec len 0) as [-> | Hn0].
    - eexists. exact HTS.
    - destruct (Hem (len - 1)%nat) as (t & mm & [HT _] & _); [lia |].
      eexists. apply array_get_ok. exact HT. }
  destruct HT0 as [T_0 HT0].
  unfold calcSEB_step. rewrite HT0. cbn [bind].
  rewrite (seb_a_ok dt (rhos * dz) Hm). cbn [bind].
  unfold seb_e, array_get.
  replace (nth_error flux len) with (@None pyfloat)
    by (symmetry; apply nth_error_None; unfold len; lia).
  reflexivity.
Qed.

Lemma calcSEB_index_past_the_flux_raises_witness :
  calcSEB module_globals [Fin 0] [Fin 0] [Fin 0] [Fin 0] [Fin 250] 3 3600
    (Fin 0) 0.05 400
  = Raise IndexError.
Proof.
  apply (calcSEB_index_past_the_flux_raises module_globals
           [Fin 0] [Fin 0] [Fin 0] [Fin 0] [Fin 250] 3 3600 (Fin 0) 0.05 400
           [Fin (0 + 0 + 0 + 0 + 0)] 250).
  - reflexivity.
  - repeat constructor; eexists; (split; [reflexivity | lra]).
  - reflexivity.
  - decimals. lra.
  - lra.
  - decimals. lra.
  - cbn. lia.
Defined.

(** X20.  As the module runs it, [calcSEB] stops with [NameError] at the
    first step when the flux takes more heat than the layer has by a
    wide margin: with a = SBC dt / (CP_I m) and
    e = -(F_0 dt / (CP_I m) + T_0), whenever 256 a e^3 >= 27 the solver
    reaches [math.sqrt], which the module has not imported. *)
Theorem calcSEB_strong_cooling_needs_math
  SWGNT LWGAB HFLUX EFLUX TS n dt GHTSKIN dz rhos flux f t0 :
  calcSEB_flux SWGNT LWGAB HFLUX EFLUX GHTSKIN = Ok flux ->
  array_get flux 0 = Ok (Fin f) ->
  array_get TS 0 = Ok (Fin t0) ->
  0 < dt -> 0 < rhos * dz -> (1 <= n)%nat ->
  let a := SBC * dt / (CP_I * (rhos * dz)) in
  let e := -1 * (f * dt / (CP_I * (rhos * dz)) + t0) in
  27 <= 256 * a * e ^ 3 ->
  calcSEB module_globals SWGNT LWGAB HFLUX EFLUX TS n dt GHTSKIN dz rhos
  = Raise (NameError "math").
Proof.
  intros Hflux HF HTS Hdt Hm Hn a e He.
  unfold calcSEB. rewrite Hflux. cbn [bind].
  destruct n as [| n]; [lia |]. cbn [seq run_loop].
  unfold calcSEB_step at 1. unfold calcSEB_T_0. cbn [Nat.eqb].
  rewrite HTS. cbn [bind]. rewrite (seb_a_ok dt (rhos * dz) Hm). cbn [bind].
  rewrite (seb_e_fin flux dt (rhos * dz) t0 f 0 HF). cbn [bind].
  fold a e.
  rewrite (solve_Tnew_no_math a e (seb_a_pos dt (rhos * dz) Hdt Hm) He).
  reflexivity.
Qed.

Lemma calcSEB_strong_cooling_needs_math_witness :
  calcSEB module_globals [Fin (-1000)] [Fin 0] [Fin 0] [Fin 0] [Fin 250] 1
    86400 (Fin 0) 0.05 400
  = Raise (NameError "math").
Proof.
  apply (calcSEB_strong_cooling_needs_math
           [Fin (-1000)] [Fin 0] [Fin 0] [Fin 0] [Fin 250] 1 86400 (Fin 0)
           0.05 400 [Fin (-1000 + 0 + 0 + 0 + 0)] (-1000 + 0 + 0 + 0 + 0) 250).
  - reflexivity.
  - reflexivity.
  - reflexivity.
  - lra.
  - decimals. lra.
  - lia.
  - unfold SBC, CP_I. decimals. lra.
Defined.

Section ClampedRuns.

Variable G : Globals.
Variable flux : list pyfloat.
Variable TS : list pyfloat.
Variables dt m T_init : R.
Hypothesis HG : known_globals G.
Hypothesis Hfin : Forall (fun x => isnan x = false) flux.
Hypothesis HTS : array_get TS 0 = Ok (Fin T_init).
Hypothesis Hinit : T_init <= T_MELT.
Hypothesis Hdt : 0 < dt.
Hypothesis Hm : 0 < m.

Local Abbreviation a := (SBC * dt / (CP_I * m)).

(** A pass of a run that completes, on a flux without NaN and an initial
    temperature of at most 273.15: the previous temperature t0 is finite
    and at most 273.15, the flux f is finite, and the pass leaves what its
    selection decides. *)
Lemma calcSEB_pass_of_clamped_run n st k :
  run_loop (calcSEB_step G flux TS dt m) (seq 0 n) (init_state flux) = Ok st ->
  (k < n)%nat ->
  exists t0 f,
    t0 <= T_MELT
    /\ calcSEB_T_0 TS (TcalcH st) k = Ok (Fin t0)
    /\ array_get flux k = Ok (Fin f)
    /\ let e := -1 * (f * dt / (CP_I * m) + t0) in
       (e < 0 -> step_outcome [Fin (seb_root a e)] (Fin f) dt k
                   (Some (Fin 0)) st)
       /\ (0 <= e -> step_outcome [] (Fin f) dt k (Some (Fin 0)) st).
Proof.
  intros Hrun. pose proof T_MELT_pos as HTM.
  induction k as [k IH] using lt_wf_ind. intros Hk.
  destruct (calcSEB_loop_inv G flux TS dt m n st k Hrun Hk)
    as (T_0 & a' & F & e' & Tnew & HT0 & Ha & HF & He & HTnew & Hout).
  assert (Hprev : exists t0, T_0 = Fin t0 /\ t0 <= T_MELT).
  { unfold calcSEB_T_0 in HT0. destruct (Nat.eqb_spec k 0) as [-> | Hk0].
    - exists T_init. split; [congruence | assumption].
    - destruct (IH (k - 1)%nat) as (t0' & f' & Ht0' & _ & HF' & Hneg & Hnonneg);
        [lia | lia |].
      cbv zeta in Hneg, Hnonneg.
      destruct (Rlt_or_le (-1 * (f' * dt / (CP_I * m) + t0')) 0) as [E | E].
      + specialize (Hneg E). unfold step_outcome in Hneg. cbn [fge] in Hneg.
        destruct (Rleb T_MELT _) eqn:Ehot; destruct Hneg as [HT _];
          rewrite (array_get_ok _ _ _ HT) in HT0; injection HT0 as <-.
        * exists T_MELT. split; [reflexivity | lra].
        * eexists. split; [reflexivity |].
          unfold Rleb in Ehot. destruct (Rle_dec T_MELT _); [discriminate | lra].
      + specialize (Hnonneg E). unfold step_outcome in Hnonneg.
        destruct Hnonneg as (HT & _).
        rewrite (array_get_ok _ _ _ HT) in HT0. injection HT0 as <-.
        exists 0. split; [reflexivity | lra]. }
  destruct Hprev as (t0 & -> & Ht0).
  destruct (array_get_inv _ _ _ HF) as [HFn _].
  assert (HFfin : isnan F = false).
  { rewrite Forall_forall in Hfin. apply Hfin.
    apply nth_error_In with k. assumption. }
  destruct F as [f |]; [| discriminate HFfin].
  rewrite (seb_a_ok dt m Hm) in Ha. injection Ha as <-.
  rewrite (seb_e_fin flux dt m t0 f k HF) in He. injection He as <-.
  pose proof (seb_a_pos dt m Hdt Hm) as Hapos.
  exists t0, f. split; [exact Ht0 |]. split; [exact HT0 |].
  split; [exact HF |]. cbv zeta. split; intros E.
  - rewrite (solve_Tnew_neg G a Hapos _ E) in HTnew.
    injection HTnew as <-. exact Hout.
  - rewrite (solve_Tnew_nonneg_known G a _ Tnew HG Hapos E HTnew) in Hout.
    exact Hout.
Qed.

End ClampedRuns.

(** X21.  No melt unless the flux exceeds what the surface radiates at
    the melting point.  In a run of [calcSEB] that completes, on a flux
    without NaN and an initial skin temperature of at most 273.15, every
    step whose net flux is at most SBC * 273.15^4 has melt mass 0. *)
Theorem calcSEB_melts_only_above_emission
  G SWGNT LWGAB HFLUX EFLUX TS n dt GHTSKIN dz rhos flux T_init st k f :
  known_globals G ->
  calcSEB_flux SWGNT LWGAB HFLUX EFLUX GHTSKIN = Ok flux ->
  Forall (fun x => isnan x = false) flux ->
  array_get TS 0 = Ok (Fin T_init) -> T_init <= 273.15 ->
  0 < dt -> 0 < rhos * dz ->
  calcSEB G SWGNT LWGAB HFLUX EFLUX TS n dt GHTSKIN dz rhos = Ok st ->
  (k < n)%nat ->
  array_get flux k = Ok (Fin f) ->
  f <= SBC * 273.15 ^ 4 ->
  nth_error (meltmassH st) k = Some (Fin 0).
Proof.
  intros HG Hflux Hfin HTS Hinit Hdt Hm Hrun Hk HF Hf.
  unfold calcSEB in Hrun. rewrite Hflux in Hrun. cbn [bind] in Hrun.
  change 273.15 with T_MELT in *.
  destruct (calcSEB_pass_of_clamped_run G flux TS dt (rhos * dz) T_init HG Hfin
              HTS Hinit Hdt Hm n st k Hrun Hk)
    as (t0 & f' & Ht0 & _ & HF' & Hneg & Hnonneg).
  assert (f' = f) by congruence. subst f'. cbv zeta in Hneg, Hnonneg.
  set (a := SBC * dt / (CP_I * (rhos * dz))) in *.
  set (e := -1 * (f * dt / (CP_I * (rhos * dz)) + t0)) in *.
  pose proof (seb_a_pos dt (rhos * dz) Hdt Hm) as Ha. fold a in Ha.
  pose proof T_MELT_pos as HTM.
  destruct (Rlt_or_le e 0) as [E | E].
  - specialize (Hneg E). unfold step_outcome in Hneg. cbn [fge] in Hneg.
    destruct (Rleb T_MELT (seb_root a e)) eqn:Ehot; destruct Hneg as [_ HM];
      [| exact HM].
    rewrite HM. unfold melt_mass. cbn [fsub fdiv fmul flift2].
    do 2 f_equal.
    assert (Hroot : T_MELT <= seb_root a e).
    { unfold Rleb in Ehot. destruct (Rle_dec T_MELT (seb_root a e));
        [assumption | discriminate]. }
    (* the polynomial is not positive at the melting point *)
    assert (HP : quartic_poly a 0 0 1 e T_MELT <= 0).
    { destruct (Rle_or_lt (quartic_poly a 0 0 1 e T_MELT) 0) as [H | H];
        [exact H |].
      pose proof (seb_root_lt a e T_MELT Ha E HTM H). lra. }
    pose proof (dt_over_mass_pos dt (rhos * dz) Hdt Hm) as Hc.
    assert (EP' : forall m', m' <> 0 ->
              quartic_poly (SBC * dt / (CP_I * m')) 0 0 1
                (-1 * (f * dt / (CP_I * m') + t0)) T_MELT
              = dt / (CP_I * m') * (SBC * T_MELT ^ 4 - f) + (T_MELT - t0)).
    { intros m' Hm'. unfold quartic_poly. field.
      split; [exact Hm' | unfold CP_I; decimals; lra]. }
    assert (EP : quartic_poly a 0 0 1 e T_MELT
                 = dt / (CP_I * (rhos * dz)) * (SBC * T_MELT ^ 4 - f)
                   + (T_MELT - t0))
      by (apply EP'; lra).
    rewrite EP in HP.
    assert (Hz : dt / (CP_I * (rhos * dz)) * (SBC * T_MELT ^ 4 - f) <= 0) by lra.
    assert (Hf0 : SBC * T_MELT ^ 4 - f = 0).
    { destruct (Req_dec (SBC * T_MELT ^ 4 - f) 0) as [H | H]; [exact H |].
      assert (0 < dt / (CP_I * (rhos * dz)) * (SBC * T_MELT ^ 4 - f))
        by (apply Rmult_lt_0_compat; lra).
      lra. }
    replace (f - SBC * T_MELT ^ 4) with 0 by lra.
    unfold Rdiv. ring.
  - specialize (Hnonneg E). unfold step_outcome in Hnonneg.
    destruct Hnonneg as (_ & HM & _). exact HM.
Qed.

Lemma calcSEB_melts_only_above_emission_witness :
  nth_error (meltmassH {| TcalcH := [Fin (seb_root hourly_a cold_e)];
                          meltmassH := [Fin 0];
                          stdout := [] |}) 0 = Some (Fin 0).
Proof.
  assert (Hm : 0 < 400 * 0.05) by (decimals; lra).
  assert (Hdt : 0 < 3600) by lra.
  assert (Hinit : 250 <= 273.15) by (decimals; lra).
  assert (Hf : 0 + 0 + 0 + 0 + 0 <= SBC * 273.15 ^ 4).
  { unfold SBC. decimals. lra. }
  refine (calcSEB_melts_only_above_emission module_globals
            [Fin 0] [Fin 0] [Fin 0] [Fin 0] [Fin 250] 1 3600 (Fin 0) 0.05 400
            [Fin (0 + 0 + 0 + 0 + 0)] 250 _ 0 (0 + 0 + 0 + 0 + 0)
            (or_introl eq_refl) eq_refl _ eq_refl Hinit Hdt Hm
            (proj1 (calcSEB_cold_run module_globals)) (Nat.lt_0_succ 0)
            eq_refl Hf).
  repeat constructor.
Defined.

Section MakeSpinFilesRuns.

Variable G : Globals.
Variable flux_df1 : list pyfloat.
Variable dts : list pyfloat.
Variables dt m : R.
Hypothesis Hdt : 0 < dt.
Hypothesis Hm : 0 < m.



End MakeSpinFilesRuns.




